(** * Signal generation engine of newspulse-ai: crypto (api/app.py) and
      commodities (api/commodities.py)

    A shallow embedding of the two signal engines and of the pandas
    operations they call, with the properties of the specification stated
    and settled against it.

    Numbers.  The engines compute on IEEE binary64 values.  A value is
    modelled as [NaN] or a finite real number: the not-a-number value, its
    propagation through arithmetic, its truthiness and its comparisons are
    modelled as Python and numpy have them; overflow to an infinity is
    outside the model, and so is rounding error, except for the risk band,
    whose strict order is also proved for arithmetic that rounds each
    result.  Python raises [ZeroDivisionError] when a float is divided by
    zero; numpy arithmetic never raises. *)

From Stdlib Require Import Reals Lra Lia ZArith List String Ascii Bool.
From Stdlib Require Import Permutation Sorted OrdersEx RelationClasses.
Import ListNotations.

Open Scope R_scope.

(** ** Values, exceptions *)

Inductive float : Type :=
| NaN
| Fin (r : R).

Inductive exn : Type :=
| ZeroDivisionError
| KeyError
| AttributeError
| HTTPException404.

Inductive result (A : Type) : Type :=
| Ok (a : A)
| Raise (e : exn).

Arguments Ok {A} a.
Arguments Raise {A} e.

Definition bind {A B : Type} (m : result A) (k : A -> result B) : result B :=
  match m with
  | Ok a => k a
  | Raise e => Raise e
  end.

Notation "x <- m ;; k" := (bind m (fun x => k))
  (at level 61, m at next level, right associativity).

(** ** Float operations *)

Definition lift2 (op : R -> R -> R) (a b : float) : float :=
  match a, b with
  | Fin x, Fin y => Fin (op x y)
  | _, _ => NaN
  end.

Definition fadd : float -> float -> float := lift2 Rplus.
Definition fsub : float -> float -> float := lift2 Rminus.
Definition fmul : float -> float -> float := lift2 Rmult.

Definition fabs (a : float) : float :=
  match a with
  | NaN => NaN
  | Fin x => Fin (Rabs x)
  end.

Definition isnan (a : float) : bool :=
  match a with
  | NaN => true
  | Fin _ => false
  end.

(** [a > b], [a < b] and [a == b] of Python: false as soon as one side is NaN. *)
Definition fgt (a b : float) : bool :=
  match a, b with
  | Fin x, Fin y => if Rlt_dec y x then true else false
  | _, _ => false
  end.

Definition flt (a b : float) : bool := fgt b a.

Definition feq (a b : float) : bool :=
  match a, b with
  | Fin x, Fin y => if Req_dec_T x y then true else false
  | _, _ => false
  end.

(** Truth value of a float: zero is false, everything else, NaN included,
    is true. *)
Definition truthy (a : float) : bool :=
  match a with
  | NaN => true
  | Fin x => if Req_dec_T x 0 then false else true
  end.

(** [x or d] of Python. *)
Definition py_or (x d : float) : float := if truthy x then x else d.

(** [a / b] on Python floats. *)
Definition py_div (a b : float) : result float :=
  match b with
  | Fin y =>
      if Req_dec_T y 0 then Raise ZeroDivisionError
      else match a with
           | Fin x => Ok (Fin (x / y))
           | NaN => Ok NaN
           end
  | NaN => Ok NaN
  end.

(** [max(a, b)] of Python: [b] when [b > a], else [a]. *)
Definition py_max (a b : float) : float := if fgt b a then b else a.

(** [np.minimum], [np.maximum]: NaN as soon as one side is NaN. *)
Definition np_minimum : float -> float -> float := lift2 Rmin.
Definition np_maximum : float -> float -> float := lift2 Rmax.

(** [np.clip(x, lo, hi)]. *)
Definition np_clip (x lo hi : float) : float :=
  match x, lo, hi with
  | Fin v, Fin l, Fin h => Fin (Rmin (Rmax v l) h)
  | _, _, _ => NaN
  end.

(** [np.exp]. *)
Definition np_exp (a : float) : float :=
  match a with
  | NaN => NaN
  | Fin x => Fin (exp x)
  end.

Definition fneg (a : float) : float :=
  match a with
  | NaN => NaN
  | Fin x => Fin (- x)
  end.

(** numpy's [a / b] as [sigmoid] uses it: the divisor [1 + exp(-x)] is never
    zero, and numpy does not raise. *)
Definition np_div : float -> float -> float := lift2 Rdiv.

(** [round(x, 2)]: the nearest multiple of 0.01, a tie going to the even
    one; NaN stays NaN. *)
Definition floor (x : R) : Z := (up x - 1)%Z.

Definition round_half_even (x : R) : Z :=
  let f := floor x in
  let d := x - IZR f in
  if Rlt_dec d (1 / 2) then f
  else if Rlt_dec (1 / 2) d then (f + 1)%Z
  else if Z.even f then f else (f + 1)%Z.

Definition round2 (a : float) : float :=
  match a with
  | NaN => NaN
  | Fin x => Fin (IZR (round_half_even (x * 100)) / 100)
  end.

(** ** Rows *)

Inductive key : Type :=
| Close | EMA_20 | MACD | RSI_14 | ATR | Vol_Ratio.

(** A row of the snapshot table, as [iterrows] hands it to the engine.
    [Ticker] and [Date] are strings, [None] standing for an empty cell (NaN);
    a numeric column is [None] when the table has no such column, and holds
    NaN when the cell is empty. *)
Record Series : Type := mkSeries {
  Ticker : option string;
  Date : option string;
  col_Close : option float;
  col_EMA_20 : option float;
  col_MACD : option float;
  col_RSI_14 : option float;
  col_ATR : option float;
  col_Vol_Ratio : option float
}.

(** [row.get(key, default)]. *)
Definition column (row : Series) (k : key) : option float :=
  match k with
  | Close => col_Close row
  | EMA_20 => col_EMA_20 row
  | MACD => col_MACD row
  | RSI_14 => col_RSI_14 row
  | ATR => col_ATR row
  | Vol_Ratio => col_Vol_Ratio row
  end.

Definition get (row : Series) (k : key) (default : float) : float :=
  match column row k with
  | Some v => v
  | None => default
  end.

Definition eps : float := Fin 1e-9.

Inductive Signal : Type := Buy | Sell | Hold.

Definition pd_isna : float -> bool := isnan.

(** ** Strings: [strip], [upper], [split("-")[0]]

    Modelled on ASCII: a character above 127 is left as it is. *)

Definition isspace (c : ascii) : bool :=
  let n := nat_of_ascii c in
  ((9 <=? n) && (n <=? 13) || (28 <=? n) && (n <=? 32))%nat.

Fixpoint lstrip (s : string) : string :=
  match s with
  | EmptyString => EmptyString
  | String c s' => if isspace c then lstrip s' else s
  end.

Fixpoint rstrip (s : string) : string :=
  match s with
  | EmptyString => EmptyString
  | String c s' =>
      match rstrip s' with
      | EmptyString => if isspace c then EmptyString else String c EmptyString
      | t => String c t
      end
  end.

Definition strip (s : string) : string := rstrip (lstrip s).

Definition upper_ascii (c : ascii) : ascii :=
  let n := nat_of_ascii c in
  if ((97 <=? n) && (n <=? 122))%nat then ascii_of_nat (n - 32) else c.

Fixpoint upper (s : string) : string :=
  match s with
  | EmptyString => EmptyString
  | String c s' => String (upper_ascii c) (upper s')
  end.

(** [s.split("-")[0]]: what comes before the first dash. *)
Fixpoint split_dash_head (s : string) : string :=
  match s with
  | EmptyString => EmptyString
  | String c s' => if Ascii.eqb c "-" then EmptyString else String c (split_dash_head s')
  end.

(** [d.get(k, default)] on a dict written as its list of items. *)
Fixpoint dict_get (d : list (string * string)) (k default : string) : string :=
  match d with
  | [] => default
  | (k', v) :: d' => if String.eqb k k' then v else dict_get d' k default
  end.

(** ** pandas: [sort_values] and [groupby(...).last()] *)

Section StableSort.

Context {A : Type} (leb : A -> A -> bool).

(** [x] comes from before every element of [l] in the original order, so
    it goes in front of the first element it is not greater than. *)
Fixpoint insert (x : A) (l : list A) : list A :=
  match l with
  | [] => [x]
  | y :: l' => if leb x y then x :: l else y :: insert x l'
  end.

Fixpoint stable_sort (l : list A) : list A :=
  match l with
  | [] => []
  | x :: l' => insert x (stable_sort l')
  end.

End StableSort.

(** A list in the order of [leb]: each element before all it is not
    greater than. *)
Definition sorted_by {A : Type} (leb : A -> A -> bool) : list A -> Prop :=
  StronglySorted (fun a b => leb a b = true).

Definition not_gt (c : comparison) : bool :=
  match c with
  | Gt => false
  | _ => true
  end.

(** Order of a key column: strings in lexicographic order of their
    characters, an empty cell after every string ([na_position="last"]). *)
Definition key_compare (a b : option string) : comparison :=
  match a, b with
  | Some x, Some y => String_as_OT.compare x y
  | Some _, None => Lt
  | None, Some _ => Gt
  | None, None => Eq
  end.

Definition row_compare (a b : Series) : comparison :=
  match key_compare (Ticker a) (Ticker b) with
  | Eq => key_compare (Date a) (Date b)
  | c => c
  end.

Definition row_leb (a b : Series) : bool := not_gt (row_compare a b).

Definition date_leb (a b : Series) : bool :=
  not_gt (key_compare (Date a) (Date b)).

Definition str_leb (a b : string) : bool := not_gt (String_as_OT.compare a b).

(** [df.sort_values(["Ticker", "Date"])]: sorting on several columns is
    stable. *)
Definition sort_values (df : list Series) : list Series :=
  stable_sort row_leb df.

Definition notna (v : option float) : bool :=
  match v with
  | Some (Fin _) => true
  | _ => false
  end.

Definition notna_str (v : option string) : bool :=
  match v with
  | Some _ => true
  | None => false
  end.

(** One step of [last]: a cell that is not NA replaces what was held. *)
Definition last_cell {A : Type} (valid : A -> bool) (held v : A) : A :=
  if valid v then v else held.

Definition agg_last (held r : Series) : Series :=
  {| Ticker := Ticker held;
     Date := last_cell notna_str (Date held) (Date r);
     col_Close := last_cell notna (col_Close held) (col_Close r);
     col_EMA_20 := last_cell notna (col_EMA_20 held) (col_EMA_20 r);
     col_MACD := last_cell notna (col_MACD held) (col_MACD r);
     col_RSI_14 := last_cell notna (col_RSI_14 held) (col_RSI_14 r);
     col_ATR := last_cell notna (col_ATR held) (col_ATR r);
     col_Vol_Ratio := last_cell notna (col_Vol_Ratio held) (col_Vol_Ratio r) |}.

(** [last] of one group: column by column, the last cell that is not NA. *)
Definition group_last (g : list Series) : list Series :=
  match g with
  | [] => []
  | r :: g' => [fold_left agg_last g' r]
  end.

Fixpoint tickers (df : list Series) : list string :=
  match df with
  | [] => []
  | r :: df' =>
      match Ticker r with
      | Some t => t :: tickers df'
      | None => tickers df'
      end
  end.

Definition has_ticker (t : string) (r : Series) : bool :=
  match Ticker r with
  | Some t' => String.eqb t t'
  | None => false
  end.

(** The group keys: the distinct tickers, sorted; a row with no ticker
    belongs to no group. *)
Definition group_keys (df : list Series) : list string :=
  stable_sort str_leb (nodup string_dec (tickers df)).

(** [df.groupby("Ticker").last().reset_index()]. *)
Definition groupby_last (df : list Series) : list Series :=
  flat_map (fun t => group_last (filter (has_ticker t) df)) (group_keys df).

(** The latest-snapshot selector of both engines. *)
Definition latest_snapshot (df : list Series) : list Series :=
  groupby_last (sort_values df).

(** ** What both engines emit *)

Record SignalRow : Type := mkSignalRow {
  out_Ticker : string;
  out_Name : string;
  Live_Price : float;
  Confidence : float;
  out_Signal : Signal;
  SL : float;
  TP : float
}.

(** [for r in rows: out.append(body(r))], the first exception ending the loop. *)
Fixpoint for_each {A B : Type} (body : A -> result B) (rows : list A)
  : result (list B) :=
  match rows with
  | [] => Ok []
  | r :: rows' =>
      o <- body r ;;
      os <- for_each body rows' ;;
      Ok (o :: os)
  end.

(** The files the routes read and write. *)
Inductive file : Type :=
| IndicatorsCsv (df : list Series)
| SignalsCsv (rows : list SignalRow).

Definition filesystem : Type := string -> option file.

Definition write_file (fs : filesystem) (path : string) (f : file) : filesystem :=
  fun p => if String.eqb p path then Some f else fs p.

(** [pd.read_csv(path)] followed by the first use of the indicator columns:
    a file that holds no indicator table has no such columns. *)
Definition read_indicators (fs : filesystem) (path : string)
  : result (list Series) :=
  match fs path with
  | None => Raise HTTPException404
  | Some (IndicatorsCsv df) => Ok df
  | Some (SignalsCsv _) => Raise KeyError
  end.

(** ** The crypto engine, api/app.py *)

Module App.

Definition sigmoid (x : float) : float :=
  np_div (Fin 1) (fadd (Fin 1) (np_exp (fneg x))).

Definition clamp01 (x : float) : float :=
  np_minimum (np_maximum x (Fin 0)) (Fin 1).

Definition safe_val (row : Series) (k : key) (default : float) : float :=
  py_or (get row k default) default.

(** The four sub-scores, in the order [compute_confidence] computes them. *)
Definition trend_score (close ema20 : float) : result float :=
  if isnan close || isnan ema20 then Ok (Fin 0.5)
  else
    rel <- py_div (fsub close ema20) (fadd ema20 eps) ;;
    Ok (clamp01 (sigmoid (fmul rel (Fin 8)))).

Definition macd_score (macd close : float) : result float :=
  q <- py_div macd (fadd (fmul (fabs close) (Fin 0.0005)) eps) ;;
  Ok (clamp01 (sigmoid q)).

Definition rsi_score (rsi : float) : result float :=
  q <- py_div (fabs (fsub rsi (Fin 50))) (Fin 60) ;;
  Ok (clamp01 (fsub (Fin 1) q)).

Definition vol_score (vol_ratio : float) : result float :=
  Ok (clamp01 (sigmoid vol_ratio)).

Definition weighted_sum (t m r v : float) : float :=
  fadd (fadd (fadd (fmul (Fin 0.45) t) (fmul (Fin 0.25) m))
             (fmul (Fin 0.20) r))
       (fmul (Fin 0.10) v).

Definition compute_confidence (row : Series) : result float :=
  let close := safe_val row Close NaN in
  let ema20 := safe_val row EMA_20 NaN in
  let macd := safe_val row MACD (Fin 0) in
  let rsi := safe_val row RSI_14 (Fin 50) in
  let vol_ratio := safe_val row Vol_Ratio (Fin 1) in
  t <- trend_score close ema20 ;;
  m <- macd_score macd close ;;
  r <- rsi_score rsi ;;
  v <- vol_score vol_ratio ;;
  let conf := weighted_sum t m r v in
  let conf := fadd (Fin 0.50) (fmul (Fin 0.50) conf) in
  Ok (clamp01 conf).

Definition decide_signal (row : Series) : Signal :=
  let close := get row Close NaN in
  let ema20 := get row EMA_20 NaN in
  let macd := get row MACD NaN in
  let rsi := get row RSI_14 NaN in
  if pd_isna close || pd_isna ema20 || pd_isna macd || pd_isna rsi then Hold
  else if fgt close ema20 && fgt macd (Fin 0) && flt rsi (Fin 70) then Buy
  else if flt close ema20 && flt macd (Fin 0) && fgt rsi (Fin 30) then Sell
  else Hold.

Definition PROCESSED_FILE : string := "data/processed/crypto_tech_indicators_11.csv".
Definition SIGNALS_FILE : string := "data/processed/crypto_trade_signals_d.csv".

Definition TICKER_NAMES : list (string * string) :=
  [("BTC", "Bitcoin"); ("ETH", "Ethereum"); ("USDT", "Tether");
   ("BNB", "Binance Coin"); ("ADA", "Cardano"); ("SOL", "Solana");
   ("XRP", "Ripple"); ("DOT", "Polkadot"); ("AVAX", "Avalanche");
   ("MATIC", "Polygon"); ("ATOM", "Cosmos"); ("DAI", "Dai");
   ("LTC", "Litecoin"); ("UNI", "Uniswap"); ("ALGO", "Algorand");
   ("BCH", "Bitcoin Cash"); ("XLM", "Stellar"); ("XMR", "Monero");
   ("LINK", "Chainlink"); ("SUI", "Sui"); ("TON", "Toncoin");
   ("TRX", "Tron"); ("USDE", "Ethena USDe"); ("HBAR", "Hedera");
   ("DOGE", "Dogecoin")]%string.

(** The effective volatility and the band, lines 149 to 160. *)
Definition atr_val (close atr : float) : float :=
  if pd_isna atr || feq atr (Fin 0)
  then py_max (fmul (fabs close) (Fin 0.01)) eps
  else atr.

Definition risk_band (close atr_val : float) (signal : Signal) : float * float :=
  match signal with
  | Buy => (fsub close (fmul (Fin 2) atr_val), fadd close (fmul (Fin 3) atr_val))
  | Sell => (fadd close (fmul (Fin 2) atr_val), fsub close (fmul (Fin 3) atr_val))
  | Hold => (fsub close atr_val, fadd close atr_val)
  end.

(** The body of the loop over [last_rows]. *)
Definition signal_row (r : Series) : result SignalRow :=
  ticker <- match Ticker r with
            | Some t => Ok (strip t)
            | None => Raise AttributeError
            end ;;
  let close := safe_val r Close NaN in
  confidence <- compute_confidence r ;;
  let signal := decide_signal r in
  let atr := safe_val r ATR NaN in
  let atr_val := atr_val close atr in
  let '(sl, tp) := risk_band close atr_val signal in
  let symbol := upper (split_dash_head ticker) in
  Ok {| out_Ticker := ticker;
        out_Name := dict_get TICKER_NAMES symbol symbol;
        Live_Price := round2 close;
        Confidence := round2 confidence;
        out_Signal := signal;
        SL := round2 sl;
        TP := round2 tp |}.

(** From the table read to the table written. *)
Definition compute_signals (df : list Series) : result (list SignalRow) :=
  let df := sort_values df in
  let last_rows := groupby_last df in
  for_each signal_row last_rows.

(** The route [/compute-signals]: the file system after the call, and what
    the call answers (the number of tickers) or raises. *)
Definition api_compute_signals (fs : filesystem) : filesystem * result nat :=
  match fs PROCESSED_FILE with
  | None => (fs, Raise HTTPException404)
  | Some _ =>
      match (df <- read_indicators fs PROCESSED_FILE ;; compute_signals df) with
      | Ok out_rows =>
          (write_file fs SIGNALS_FILE (SignalsCsv out_rows),
           Ok (List.length out_rows))
      | Raise e => (fs, Raise e)
      end
  end.

End App.

(** ** The commodities engine, api/commodities.py *)

Module Commodities.

Definition sigmoid (x : float) : float :=
  np_div (Fin 1) (fadd (Fin 1) (np_exp (fneg x))).

Definition clamp01 (x : float) : float := np_clip x (Fin 0) (Fin 1).

Definition safe_val (row : Series) (k : key) (default : float) : float :=
  py_or (get row k default) default.

Definition trend_score (close ema20 : float) : result float :=
  if isnan close || isnan ema20 then Ok (Fin 0.5)
  else
    q <- py_div (fsub close ema20) (fadd ema20 eps) ;;
    Ok (clamp01 (sigmoid (fmul q (Fin 8)))).

Definition macd_score (macd close : float) : result float :=
  q <- py_div macd (fadd (fmul (fabs close) (Fin 0.0005)) eps) ;;
  Ok (clamp01 (sigmoid q)).

Definition rsi_score (rsi : float) : result float :=
  q <- py_div (fabs (fsub rsi (Fin 50))) (Fin 60) ;;
  Ok (clamp01 (fsub (Fin 1) q)).

Definition vol_score (vol_ratio : float) : result float :=
  Ok (clamp01 (sigmoid vol_ratio)).

Definition compute_confidence (row : Series) : result float :=
  let close := safe_val row Close NaN in
  let ema20 := safe_val row EMA_20 NaN in
  let macd := safe_val row MACD (Fin 0) in
  let rsi := safe_val row RSI_14 (Fin 50) in
  let vol_ratio := safe_val row Vol_Ratio (Fin 1) in
  trend_score <- trend_score close ema20 ;;
  macd_score <- macd_score macd close ;;
  rsi_score <- rsi_score rsi ;;
  vol_score <- vol_score vol_ratio ;;
  let conf :=
    fadd (fadd (fadd (fmul (Fin 0.45) trend_score)
                     (fmul (Fin 0.25) macd_score))
               (fmul (Fin 0.2) rsi_score))
         (fmul (Fin 0.1) vol_score) in
  Ok (clamp01 (fadd (Fin 0.5) (fmul (Fin 0.5) conf))).

Definition decide_signal (row : Series) : Signal :=
  let close := safe_val row Close NaN in
  let ema20 := safe_val row EMA_20 NaN in
  let macd := safe_val row MACD NaN in
  let rsi := safe_val row RSI_14 NaN in
  if pd_isna close || pd_isna ema20 || pd_isna macd || pd_isna rsi then Hold
  else if fgt close ema20 && fgt macd (Fin 0) && flt rsi (Fin 70) then Buy
  else if flt close ema20 && flt macd (Fin 0) && fgt rsi (Fin 30) then Sell
  else Hold.

Definition COM_PROCESSED_FILE : string := "data/processed/commodities_tech_indicators.csv".
Definition COM_SIGNALS_FILE : string := "data/processed/commodities_trade_signals.csv".

Definition COMMODITY_NAMES : list (string * string) :=
  [("BZF", "Brent Futures"); ("CLF", "Crude Oil Futures");
   ("NGF", "Natural Gas Futures"); ("GCF", "Gold Futures");
   ("SIF", "Silver Futures"); ("RBF", "Gasoline Futures");
   ("HOF", "Heating Oil Futures")]%string.

Definition atr_val (close atr : float) : float :=
  if pd_isna atr || feq atr (Fin 0)
  then py_max (fmul (fabs close) (Fin 0.01)) eps
  else atr.

Definition risk_band (close atr_val : float) (signal : Signal) : float * float :=
  match signal with
  | Buy => (fsub close (fmul (Fin 2) atr_val), fadd close (fmul (Fin 3) atr_val))
  | Sell => (fadd close (fmul (Fin 2) atr_val), fsub close (fmul (Fin 3) atr_val))
  | Hold => (fsub close atr_val, fadd close atr_val)
  end.

(** [df.dropna(subset=["Ticker", "Close"], how="any")]; a table without a
    [Close] column raises. *)
Definition dropna (df : list Series) : result (list Series) :=
  if forallb (fun r => match col_Close r with Some _ => true | None => false end) df
  then Ok (filter (fun r => notna_str (Ticker r) && notna (col_Close r)) df)
  else Raise KeyError.

(** [df["Ticker"].astype(str).str.strip().str.upper()]. *)
Definition normalise_ticker (r : Series) : Series :=
  {| Ticker := option_map (fun t => upper (strip t)) (Ticker r);
     Date := Date r;
     col_Close := col_Close r;
     col_EMA_20 := col_EMA_20 r;
     col_MACD := col_MACD r;
     col_RSI_14 := col_RSI_14 r;
     col_ATR := col_ATR r;
     col_Vol_Ratio := col_Vol_Ratio r |}.

(** The body of the loop over [latest]. *)
Definition signal_row (name_map : list (string * string)) (r : Series)
  : result SignalRow :=
  let close := safe_val r Close NaN in
  let atr := safe_val r ATR NaN in
  let atr_val := atr_val close atr in
  let signal := decide_signal r in
  let '(sl, tp) := risk_band close atr_val signal in
  ticker <- match Ticker r with
            | Some t => Ok t
            | None => Raise KeyError
            end ;;
  confidence <- compute_confidence r ;;
  Ok {| out_Ticker := ticker;
        out_Name := dict_get name_map ticker ticker;
        Live_Price := round2 close;
        Confidence := round2 confidence;
        out_Signal := signal;
        SL := round2 sl;
        TP := round2 tp |}.

(** The numeric columns already hold floats, so [pd.to_numeric] leaves
    them as they are. *)
Definition generate_signals (df : list Series) (name_map : list (string * string))
  : result (list SignalRow) :=
  df <- dropna df ;;
  let df := map normalise_ticker df in
  let df := sort_values df in
  let latest := groupby_last df in
  for_each (signal_row name_map) latest.

(** The route [/commodities/compute-signals]. *)
Definition compute_commodities_signals (fs : filesystem)
  : filesystem * result nat :=
  match fs COM_PROCESSED_FILE with
  | None => (fs, Raise HTTPException404)
  | Some _ =>
      match (df <- read_indicators fs COM_PROCESSED_FILE ;;
             generate_signals df COMMODITY_NAMES) with
      | Ok out =>
          (write_file fs COM_SIGNALS_FILE (SignalsCsv out), Ok (List.length out))
      | Raise e => (fs, Raise e)
      end
  end.

End Commodities.

(** ** Rows used to state the properties *)

(** [row[k] = v], on a copy. *)
Definition set_col (k : key) (v : option float) (r : Series) : Series :=
  {| Ticker := Ticker r;
     Date := Date r;
     col_Close := match k with Close => v | _ => col_Close r end;
     col_EMA_20 := match k with EMA_20 => v | _ => col_EMA_20 r end;
     col_MACD := match k with MACD => v | _ => col_MACD r end;
     col_RSI_14 := match k with RSI_14 => v | _ => col_RSI_14 r end;
     col_ATR := match k with ATR => v | _ => col_ATR r end;
     col_Vol_Ratio := match k with Vol_Ratio => v | _ => col_Vol_Ratio r end |}.

Definition num (x : R) : option float := Some (Fin x).

(** Scenario A of the specification. *)
Definition scenario_A : Series :=
  {| Ticker := Some "BTC-USD"%string; Date := Some "2025-01-02"%string;
     col_Close := num 100; col_EMA_20 := num 95; col_MACD := num 1.5;
     col_RSI_14 := num 60; col_ATR := num 2; col_Vol_Ratio := num 1.2 |}.

(** Scenario A with [RSI_14 = 0]. *)
Definition rsi_zero_row : Series := set_col RSI_14 (num 0) scenario_A.

(** Scenario A with an empty [MACD] cell. *)
Definition macd_nan_row : Series := set_col MACD (Some NaN) scenario_A.

(** Scenario A with [EMA_20 = -1e-9]. *)
Definition ema_neg_eps_row : Series := set_col EMA_20 (num (- 1e-9)) scenario_A.

(** Scenario A with [EMA_20 = 0]. *)
Definition ema_zero_row : Series := set_col EMA_20 (num 0) scenario_A.

Definition float_le (a b : float) : Prop :=
  match a, b with
  | Fin x, Fin y => x <= y
  | _, _ => False
  end.

Definition float_lt (a b : float) : Prop :=
  match a, b with
  | Fin x, Fin y => x < y
  | _, _ => False
  end.

(** A coin quoted below one cent: Close=0.004, EMA_20=0.003, MACD=1,
    RSI_14=50, no ATR, Vol_Ratio=1. *)
Definition penny_row : Series :=
  {| Ticker := Some "SHIB-USD"%string; Date := Some "2025-01-02"%string;
     col_Close := num 0.004; col_EMA_20 := num 0.003; col_MACD := num 1;
     col_RSI_14 := num 50; col_ATR := Some NaN; col_Vol_Ratio := num 1 |}.

(** A row one of the two engines turns into the result [o]. *)
Definition emitted (r : Series) (o : SignalRow) : Prop :=
  App.signal_row r = Ok o
  \/ exists name_map, Commodities.signal_row name_map r = Ok o.

(** An average true range, when there is one, is not negative. *)
Definition atr_not_negative (r : Series) : Prop :=
  match column r ATR with
  | Some (Fin a) => 0 <= a
  | _ => True
  end.

(** The last cell of a column that is not NA, in the words of the
    specification of [last]; [d] when there is none. *)
Definition last_valid {A : Type} (valid : A -> bool) (cells : list A) (d : A) : A :=
  match find valid (rev cells) with
  | Some v => v
  | None => d
  end.

(** A row with a date and a number in each of its six numeric cells. *)
Definition complete (r : Series) : bool :=
  notna_str (Date r) && notna (col_Close r) && notna (col_EMA_20 r)
  && notna (col_MACD r) && notna (col_RSI_14 r) && notna (col_ATR r)
  && notna (col_Vol_Ratio r).

(** Two snapshots of one ticker; the later one has an empty [MACD] cell. *)
Definition snapshot_day1 : Series :=
  {| Ticker := Some "BTC-USD"%string; Date := Some "2025-01-01"%string;
     col_Close := num 98; col_EMA_20 := num 95; col_MACD := num 1.5;
     col_RSI_14 := num 60; col_ATR := num 2; col_Vol_Ratio := num 1.2 |}.

Definition snapshot_day2 : Series :=
  {| Ticker := Some "BTC-USD"%string; Date := Some "2025-01-02"%string;
     col_Close := num 100; col_EMA_20 := num 96; col_MACD := Some NaN;
     col_RSI_14 := num 61; col_ATR := num 3; col_Vol_Ratio := num 1.1 |}.

Definition snapshot_merged : Series :=
  {| Ticker := Some "BTC-USD"%string; Date := Some "2025-01-02"%string;
     col_Close := num 100; col_EMA_20 := num 96; col_MACD := num 1.5;
     col_RSI_14 := num 61; col_ATR := num 3; col_Vol_Ratio := num 1.1 |}.

(** The order the specification gives the three rounded fields, for an
    order [le] on the values. *)
Definition band_ordered (le : float -> float -> Prop) (o : SignalRow) : Prop :=
  match out_Signal o with
  | Sell => le (TP o) (Live_Price o) /\ le (Live_Price o) (SL o)
  | _ => le (SL o) (Live_Price o) /\ le (Live_Price o) (TP o)
  end.

(** Integer arithmetic in units of [1 / SCALE], to bound an exponential by
    repeated squaring: rounded down, and rounded up. *)
Definition SCALE : Z := 1000000000000000.

Fixpoint square_down (k : nat) (l : Z) : Z :=
  match k with
  | O => l
  | S k' => square_down k' (l * l / SCALE)
  end.

Fixpoint square_up (k : nat) (u : Z) : Z :=
  match k with
  | O => u
  | S k' => square_up k' (u * u / SCALE + 1)
  end.

(** The rows of a table dated [d]. *)
Definition date_is (d : option string) (r : Series) : bool :=
  match key_compare (Date r) d with
  | Eq => true
  | _ => false
  end.

(** The interval a confidence is meant to lie in. *)
Definition in_unit_interval (v : float) : Prop :=
  match v with
  | NaN => False
  | Fin x => 0 <= x <= 1
  end.

(** The decision rule in the words of the specification: a field is missing
    when the row has no such key or holds NaN. *)
Definition present (v : option float) : option R :=
  match v with
  | Some (Fin x) => Some x
  | _ => None
  end.

Definition classify (row : Series) : Signal :=
  match present (col_Close row), present (col_EMA_20 row),
        present (col_MACD row), present (col_RSI_14 row) with
  | Some close, Some ema20, Some macd, Some rsi =>
      if Rlt_dec ema20 close then
        if Rlt_dec 0 macd then
          if Rlt_dec rsi 70 then Buy else Hold
        else Hold
      else if Rlt_dec close ema20 then
        if Rlt_dec macd 0 then
          if Rlt_dec 30 rsi then Sell else Hold
        else Hold
      else Hold
  | _, _, _, _ => Hold
  end.

(** ** The outcomes of [compute_confidence], read off a row *)

Inductive confidence_case : Type :=
| Raises
| GivesNaN
| GivesNumber.

Definition nan_cell (row : Series) (k : key) : bool :=
  match column row k with
  | Some NaN => true
  | _ => false
  end.

(** The price is missing, empty or zero: the confidence is NaN.  Otherwise
    [EMA_20 = -1e-9] makes the trend division raise, before anything else is
    computed; otherwise an empty [MACD], [RSI_14] or [Vol_Ratio] cell makes
    the confidence NaN. *)
Definition confidence_case_of (row : Series) : confidence_case :=
  let rest :=
    if nan_cell row MACD || nan_cell row RSI_14 || nan_cell row Vol_Ratio
    then GivesNaN else GivesNumber in
  match column row Close with
  | Some (Fin x) =>
      if Req_dec_T x 0 then GivesNaN
      else match column row EMA_20 with
           | Some (Fin e) => if Req_dec_T e (- 1e-9) then Raises else rest
           | _ => rest
           end
  | _ => GivesNaN
  end.

(** A file system holding one indicators table, at the path the crypto
    route reads. *)
Definition crypto_fs (df : list Series) : filesystem :=
  fun p => if String.eqb p App.PROCESSED_FILE then Some (IndicatorsCsv df) else None.

(** ** The lookup routes

    Each is modelled from the table [pd.read_csv] returns: [None] when the
    file does not exist. *)

(** [astype(str)] on a cell of a column of strings: an empty cell reads
    "nan". *)
Definition astype_str (v : option string) : string :=
  match v with
  | Some s => s
  | None => "nan"%string
  end.

(** One cell of [Series.map(d)] for a dict [d]: empty when [d] has no such
    key. *)
Fixpoint dict_find (d : list (string * string)) (k : string) : option string :=
  match d with
  | [] => None
  | (k', v) :: d' => if String.eqb k k' then Some v else dict_find d' k
  end.

Fixpoint contains_dash (s : string) : bool :=
  match s with
  | EmptyString => false
  | String c s' => Ascii.eqb c "-" || contains_dash s'
  end.

(** [df.round(2)] on the numeric columns. *)
Definition round_columns (r : Series) : Series :=
  {| Ticker := Ticker r;
     Date := Date r;
     col_Close := option_map round2 (col_Close r);
     col_EMA_20 := option_map round2 (col_EMA_20 r);
     col_MACD := option_map round2 (col_MACD r);
     col_RSI_14 := option_map round2 (col_RSI_14 r);
     col_ATR := option_map round2 (col_ATR r);
     col_Vol_Ratio := option_map round2 (col_Vol_Ratio r) |}.

Record IndicatorRecord : Type := mkIndicatorRecord {
  ind_row : Series;
  ind_Coin_Name : option string
}.

Record SignalRecord : Type := mkSignalRecord {
  rec_Ticker : string;
  rec_Coin_Name : option string;
  rec_Live_Price : float;
  rec_Confidence : float;
  rec_Signal : Signal;
  rec_SL : float;
  rec_TP : float
}.

Module AppLookup.

(** [df["Ticker"].astype(str).str.split("-").str[0].str.upper()]. *)
Definition Symbol (ticker : option string) : string :=
  upper (split_dash_head (astype_str ticker)).

(** The route [/indicators/{ticker}] of api/app.py. *)
Definition get_indicators (file : option (list Series)) (ticker : string)
  : result (list IndicatorRecord) :=
  match file with
  | None => Raise HTTPException404
  | Some df =>
      let ticker := upper (strip ticker) in
      let df := filter (fun r => String.eqb (Symbol (Ticker r)) ticker) df in
      match df with
      | [] => Raise HTTPException404
      | _ =>
          Ok (map (fun r =>
                     {| ind_row := round_columns r;
                        ind_Coin_Name := dict_find App.TICKER_NAMES (Symbol (Ticker r)) |})
                  df)
      end
  end.

(** The route [/signal/{ticker}] of api/app.py: the name is looked up again,
    and the four numbers are rounded again. *)
Definition get_signal (file : option (list SignalRow)) (ticker : string)
  : result (list SignalRecord) :=
  match file with
  | None => Raise HTTPException404
  | Some df =>
      let ticker := upper (strip ticker) in
      let df := filter (fun o => String.eqb (Symbol (Some (out_Ticker o))) ticker) df in
      match df with
      | [] => Raise HTTPException404
      | _ =>
          Ok (map (fun o =>
                     {| rec_Ticker := out_Ticker o;
                        rec_Coin_Name :=
                          dict_find App.TICKER_NAMES (Symbol (Some (out_Ticker o)));
                        rec_Live_Price := round2 (Live_Price o);
                        rec_Confidence := round2 (Confidence o);
                        rec_Signal := out_Signal o;
                        rec_SL := round2 (SL o);
                        rec_TP := round2 (TP o) |})
                  df)
      end
  end.

End AppLookup.

Module CommoditiesLookup.

(** [df["Ticker"] = df["Ticker"].astype(str).str.upper()]. *)
Definition upper_ticker (r : Series) : Series :=
  {| Ticker := Some (upper (astype_str (Ticker r)));
     Date := Date r;
     col_Close := col_Close r;
     col_EMA_20 := col_EMA_20 r;
     col_MACD := col_MACD r;
     col_RSI_14 := col_RSI_14 r;
     col_ATR := col_ATR r;
     col_Vol_Ratio := col_Vol_Ratio r |}.

(** The route [/commodities/indicators/{ticker}]. *)
Definition get_commodity_indicators (file : option (list Series)) (ticker : string)
  : result (list Series) :=
  match file with
  | None => Raise HTTPException404
  | Some df =>
      let ticker := upper (strip ticker) in
      let df := map upper_ticker df in
      let df := filter (fun r => String.eqb (astype_str (Ticker r)) ticker) df in
      match df with
      | [] => Raise HTTPException404
      | _ => Ok (map round_columns df)
      end
  end.

Definition upper_out_ticker (o : SignalRow) : SignalRow :=
  {| out_Ticker := upper (out_Ticker o);
     out_Name := out_Name o;
     Live_Price := Live_Price o;
     Confidence := Confidence o;
     out_Signal := out_Signal o;
     SL := SL o;
     TP := TP o |}.

(** The route [/commodities/signal/{ticker}]. *)
Definition get_commodity_signal (file : option (list SignalRow)) (ticker : string)
  : result (list SignalRow) :=
  match file with
  | None => Raise HTTPException404
  | Some df =>
      let ticker := upper (strip ticker) in
      let df := map upper_out_ticker df in
      let df := filter (fun o => String.eqb (out_Ticker o) ticker) df in
      match df with
      | [] => Raise HTTPException404
      | _ => Ok df
      end
  end.

End CommoditiesLookup.

(** A ticker cell with no blank at either end. *)
Definition unpadded (r : Series) : bool :=
  String.eqb (strip (astype_str (Ticker r))) (astype_str (Ticker r)).

(** ** The news script, scripts/crypto_news_preprocessing.py

    A text is a string of code points below 256. *)

Module News.

(** [str.isspace] and the [\s] of [re] on these code points. *)
Definition py_isspace (c : ascii) : bool :=
  let n := nat_of_ascii c in
  ((9 <=? n) && (n <=? 13) || (28 <=? n) && (n <=? 32)
   || (n =? 133) || (n =? 160))%nat.

(** [[A-Za-z0-9]]. *)
Definition is_alnum (c : ascii) : bool :=
  let n := nat_of_ascii c in
  ((65 <=? n) && (n <=? 90) || (97 <=? n) && (n <=? 122)
   || (48 <=? n) && (n <=? 57))%nat.

(** [http\S+] matches here: "http" and one more character that is not a
    blank. *)
Definition starts_link (s : string) : bool :=
  match s with
  | String "h" (String "t" (String "t" (String "p" (String c _)))) =>
      negb (py_isspace c)
  | _ => false
  end.

Inductive mode : Type :=
| Scan
| Skip (n : nat)
| InLink.

(** [re.sub(r"http\S+", "", text)], from left to right: where a link
    starts, "http" is dropped ([Skip] counts its letters left) and then
    every character up to the next blank ([InLink]). *)
Fixpoint remove_links (m : mode) (s : string) : string :=
  match s with
  | EmptyString => EmptyString
  | String c s' =>
      match m with
      | Scan =>
          if starts_link s then remove_links (Skip 2) s'
          else String c (remove_links Scan s')
      | Skip n =>
          remove_links (match n with O => InLink | S n' => Skip n' end) s'
      | InLink =>
          if py_isspace c then String c (remove_links Scan s')
          else remove_links InLink s'
      end
  end.

(** [re.sub(r"[^A-Za-z0-9\s]", " ", text)]. *)
Fixpoint replace_special (s : string) : string :=
  match s with
  | EmptyString => EmptyString
  | String c s' =>
      String (if is_alnum c || py_isspace c then c else " "%char)
             (replace_special s')
  end.

(** [re.sub(r"\s+", " ", text)]: [in_run] says that the blank before was
    already replaced. *)
Fixpoint collapse_spaces (in_run : bool) (s : string) : string :=
  match s with
  | EmptyString => EmptyString
  | String c s' =>
      if py_isspace c
      then if in_run then collapse_spaces true s'
           else String " " (collapse_spaces true s')
      else String c (collapse_spaces false s')
  end.

Fixpoint py_lstrip (s : string) : string :=
  match s with
  | EmptyString => EmptyString
  | String c s' => if py_isspace c then py_lstrip s' else s
  end.

Fixpoint py_rstrip (s : string) : string :=
  match s with
  | EmptyString => EmptyString
  | String c s' =>
      match py_rstrip s' with
      | EmptyString => if py_isspace c then EmptyString else String c EmptyString
      | t => String c t
      end
  end.

Definition py_strip (s : string) : string := py_rstrip (py_lstrip s).

(** [clean_text(text)]; [None] is a missing value. *)
Definition clean_text (text : option string) : string :=
  match text with
  | None => EmptyString
  | Some text =>
      let text := remove_links Scan text in
      let text := replace_special text in
      py_strip (collapse_spaces false text)
  end.

(** [news_df[col].astype(str).apply(clean_text)] on one cell. *)
Definition clean_column (cell : option string) : string :=
  clean_text (Some (astype_str cell)).

(** Words of letters and digits, one space between two words and nothing
    else. *)
Fixpoint tidy_from (after_space : bool) (s : string) : bool :=
  match s with
  | EmptyString => negb after_space
  | String c s' =>
      if Ascii.eqb c " " then negb after_space && tidy_from true s'
      else is_alnum c && tidy_from false s'
  end.

Definition tidy (s : string) : bool :=
  match s with
  | EmptyString => true
  | _ => tidy_from true s
  end.

(** Letters, digits and single spaces, with no space first when
    [after_space]. *)
Fixpoint spaced_from (after_space : bool) (s : string) : bool :=
  match s with
  | EmptyString => true
  | String c s' =>
      if Ascii.eqb c " " then negb after_space && spaced_from true s'
      else is_alnum c && spaced_from false s'
  end.

(** Letters, digits and blanks. *)
Fixpoint plain (s : string) : bool :=
  match s with
  | EmptyString => true
  | String c s' => (is_alnum c || py_isspace c) && plain s'
  end.

(** Somewhere in the text a link starts. *)
Fixpoint has_link (s : string) : bool :=
  match s with
  | EmptyString => false
  | String _ s' => starts_link s || has_link s'
  end.

End News.

(** ** The news script: the daily summary *)

Module DailyNews.

(** A parsed date: the calendar day, as a day number, and the time within
    the day.  [pd.to_datetime(..., errors="coerce")] leaves [None] where it
    could not parse. *)
Record Timestamp : Type := mkTimestamp {
  ts_date : Z;
  ts_time : Z
}.

Record NewsRow : Type := mkNewsRow {
  title : option string;
  description : option string;
  date : option Timestamp
}.

Record DailyRow : Type := mkDailyRow {
  day : Z;
  news_count : nat;
  mean_sentiment : float
}.

Definition has_date (r : NewsRow) : bool :=
  match date r with
  | Some _ => true
  | None => false
  end.

Definition has_title (r : NewsRow) : bool :=
  match title r with
  | Some _ => true
  | None => false
  end.

(** [news_df["date"].dt.date] on a row that has a date. *)
Definition day_of (r : NewsRow) : Z :=
  match date r with
  | Some ts => ts_date ts
  | None => 0%Z
  end.

Section Sentiment.

(** The compound score VADER gives a text. *)
Variable polarity_compound : string -> R.

(** [get_sentiment] on the cleaned description. *)
Definition sentiment (r : NewsRow) : R :=
  polarity_compound (News.clean_column (description r)).

Definition Rsum (l : list R) : R := fold_right Rplus 0 l.

(** One row of [groupby(date).agg(news_count=("title", "count"),
    mean_sentiment=("sentiment", "mean"))]: the titles that are not empty
    are counted, the sentiments are averaged. *)
Definition agg (d : Z) (group : list NewsRow) : DailyRow :=
  {| day := d;
     news_count := List.length (filter has_title group);
     mean_sentiment :=
       Fin (Rsum (map sentiment group) / INR (List.length group)) |}.

(** From the rows read to the daily table: rows without a date are
    dropped, the others grouped by day, the days in ascending order. *)
Definition daily_news (news_df : list NewsRow) : list DailyRow :=
  let news_df := filter has_date news_df in
  let days := stable_sort Z.leb (nodup Z.eq_dec (map day_of news_df)) in
  map (fun d => agg d (filter (fun r => Z.eqb (day_of r) d) news_df)) days.

End Sentiment.

End DailyNews.

(** One news row, dated, and the score that finds every text neutral. *)
Definition sample_news : DailyNews.NewsRow :=
  {| DailyNews.title := Some "Bitcoin hits 100k"%string;
     DailyNews.description := None;
     DailyNews.date := Some {| DailyNews.ts_date := 20000; DailyNews.ts_time := 0 |} |}.

Definition neutral (text : string) : R := 0.

(** ** The band in binary64 arithmetic

    The engines compute the band on binary64 values: the result of each
    addition, subtraction and product is the exact result rounded to a
    representable number, with a relative error of at most [2^-53]
    (overflow and underflow aside).  [rounds rnd] says that [rnd] is such a
    rounding; the exact arithmetic of [fadd], [fsub] and [fmul] is the
    rounding that changes nothing. *)

Definition unit_roundoff : R := / 9007199254740992.

Definition rounds (rnd : R -> R) : Prop :=
  forall y : R, Rabs (rnd y - y) <= unit_roundoff * Rabs y.

(** The band of [api_compute_signals] (lines 152 to 160) and of
    [generate_signals] (lines 77 to 79), each arithmetic result rounded by
    [rnd]. *)
Definition rounded_band (rnd : R -> R) (close atr_val : R) (signal : Signal)
  : float * float :=
  match signal with
  | Buy => (Fin (rnd (close - rnd (2 * atr_val))),
            Fin (rnd (close + rnd (3 * atr_val))))
  | Sell => (Fin (rnd (close + rnd (2 * atr_val))),
             Fin (rnd (close - rnd (3 * atr_val))))
  | Hold => (Fin (rnd (close - atr_val)), Fin (rnd (close + atr_val)))
  end.

(** The effective volatility of line 150 (line 74 in commodities.py) in
    rounded arithmetic: the literals [0.01] and [1e-9] are rounded too. *)
Definition rounded_atr_val (rnd : R -> R) (close : R) (atr : float) : R :=
  let fallback := Rmax (rnd (Rabs close * rnd 0.01)) (rnd 1e-9) in
  match atr with
  | NaN => fallback
  | Fin a => if Req_dec_T a 0 then fallback else a
  end.

(** The order the specification gives the rounded price and the rounded
    ends of a band [(sl, tp)], for an order [lt] on the values. *)
Definition band_around (lt : float -> float -> Prop) (price : float)
  (signal : Signal) (band : float * float) : Prop :=
  match signal with
  | Sell => lt (round2 (snd band)) (round2 price)
            /\ lt (round2 price) (round2 (fst band))
  | _ => lt (round2 (fst band)) (round2 price)
         /\ lt (round2 price) (round2 (snd band))
  end.

(** The rounded band [inner] lies within the rounded band [outer]. *)
Definition band_within (lt : float -> float -> Prop) (inner outer : float * float)
  : Prop :=
  lt (round2 (fst outer)) (round2 (fst inner))
  /\ lt (round2 (snd inner)) (round2 (snd outer)).

(** A rounding that errs by the full [2^-53] on every result. *)
Definition round_away (y : R) : R := y * (1 + unit_roundoff).

(** ** Objects, references and files: what a call shares with its caller

    A pandas frame and a dict are objects: a variable holds a reference to
    one, an argument passes the reference, and an assignment to a column
    changes the object for everyone who holds it.  The world is the file
    system, the frames and the dicts; a new object takes the next free
    reference.  A computation on the world may raise, and what it did to
    the world before raising stays done. *)

Inductive DataFrame : Type :=
| Indicators (df : list Series)
| Signals (rows : list SignalRow).

Definition ref : Type := nat.

Record world : Type := mkWorld {
  files : filesystem;
  frames : list DataFrame;
  dicts : list (list (string * string))
}.

Definition St (A : Type) : Type := world -> result A * world.

Definition ret {A : Type} (a : A) : St A := fun w => (Ok a, w).

Definition lift {A : Type} (m : result A) : St A := fun w => (m, w).

Definition st_bind {A B : Type} (m : St A) (k : A -> St B) : St B :=
  fun w =>
    match m w with
    | (Ok a, w') => k a w'
    | (Raise e, w') => (Raise e, w')
    end.

Notation "x <~ m ;; k" := (st_bind m (fun x => k))
  (at level 61, m at next level, right associativity).

(** A new frame: [pd.read_csv], [dropna], [sort_values],
    [groupby(...).last()] and [pd.DataFrame(rows)] each return one. *)
Definition new_frame (v : DataFrame) : St ref :=
  fun w => (Ok (List.length (frames w)),
            mkWorld (files w) (frames w ++ [v]) (dicts w)).

(** The rows of the frame behind a reference, used as an indicators table;
    a frame without the indicator columns raises [KeyError]. *)
Definition indicators (p : ref) : St (list Series) :=
  fun w =>
    match nth_error (frames w) p with
    | Some (Indicators df) => (Ok df, w)
    | Some (Signals _) => (Raise KeyError, w)
    | None => (Raise AttributeError, w)
    end.

Fixpoint update {A : Type} (l : list A) (p : nat) (v : A) : list A :=
  match l, p with
  | [], _ => []
  | _ :: l', O => v :: l'
  | u :: l', S p' => u :: update l' p' v
  end.

(** [df[col] = values]: the frame behind the reference changes, in place. *)
Definition set_rows (p : ref) (df : list Series) : St unit :=
  fun w => (Ok tt, mkWorld (files w) (update (frames w) p (Indicators df)) (dicts w)).

(** [d.get(k, default)] on the dict behind a reference. *)
Definition dict_lookup (p : ref) (k default : string) : St string :=
  fun w =>
    match nth_error (dicts w) p with
    | Some d => (Ok (dict_get d k default), w)
    | None => (Raise AttributeError, w)
    end.

(** [len(df)]. *)
Definition len (p : ref) : St nat :=
  fun w =>
    match nth_error (frames w) p with
    | Some (Indicators df) => (Ok (List.length df), w)
    | Some (Signals rows) => (Ok (List.length rows), w)
    | None => (Raise AttributeError, w)
    end.

(** The frame [pd.read_csv] makes of a file, and the file [to_csv] makes of
    a frame. *)
Definition frame_of_csv (f : file) : DataFrame :=
  match f with
  | IndicatorsCsv df => Indicators df
  | SignalsCsv rows => Signals rows
  end.

Definition csv_of_frame (v : DataFrame) : file :=
  match v with
  | Indicators df => IndicatorsCsv df
  | Signals rows => SignalsCsv rows
  end.

(** [df.to_csv(path, index=False)]. *)
Definition to_csv (p : ref) (path : string) : St unit :=
  fun w =>
    match nth_error (frames w) p with
    | Some v => (Ok tt, mkWorld (write_file (files w) path (csv_of_frame v))
                                (frames w) (dicts w))
    | None => (Raise AttributeError, w)
    end.

(** The loop over the rows, on the world. *)
Fixpoint st_for_each {A B : Type} (body : A -> St B) (rows : list A)
  : St (list B) :=
  match rows with
  | [] => ret []
  | r :: rows' =>
      o <~ body r ;;
      os <~ st_for_each body rows' ;;
      ret (o :: os)
  end.

(** The crypto route on the world.  [names] is the reference the global
    [TICKER_NAMES] holds. *)
Module AppObjects.

Definition signal_row (names : ref) (r : Series) : St SignalRow :=
  ticker <~ lift (match Ticker r with
                  | Some t => Ok (strip t)
                  | None => Raise AttributeError
                  end) ;;
  let close := App.safe_val r Close NaN in
  confidence <~ lift (App.compute_confidence r) ;;
  let signal := App.decide_signal r in
  let atr := App.safe_val r ATR NaN in
  let atr_val := App.atr_val close atr in
  let '(sl, tp) := App.risk_band close atr_val signal in
  let symbol := upper (split_dash_head ticker) in
  name <~ dict_lookup names symbol symbol ;;
  ret {| out_Ticker := ticker;
         out_Name := name;
         Live_Price := round2 close;
         Confidence := round2 confidence;
         out_Signal := signal;
         SL := round2 sl;
         TP := round2 tp |}.

Definition api_compute_signals (names : ref) : St nat :=
  fun w =>
    match files w App.PROCESSED_FILE with
    | None => (Raise HTTPException404, w)
    | Some f =>
        (df <~ new_frame (frame_of_csv f) ;;
         cur <~ indicators df ;;
         df <~ new_frame (Indicators (sort_values cur)) ;;
         cur <~ indicators df ;;
         last_rows <~ new_frame (Indicators (groupby_last cur)) ;;
         cur <~ indicators last_rows ;;
         out_rows <~ st_for_each (signal_row names) cur ;;
         out <~ new_frame (Signals out_rows) ;;
         _ <~ to_csv out App.SIGNALS_FILE ;;
         ret (List.length out_rows)) w
    end.

End AppObjects.

(** The commodities engine on the world.  [generate_signals] receives the
    references its caller holds: to the frame, and to the name map. *)
Module CommoditiesObjects.

Definition signal_row (name_map : ref) (r : Series) : St SignalRow :=
  let close := Commodities.safe_val r Close NaN in
  let atr := Commodities.safe_val r ATR NaN in
  let atr_val := Commodities.atr_val close atr in
  let signal := Commodities.decide_signal r in
  let '(sl, tp) := Commodities.risk_band close atr_val signal in
  ticker <~ lift (match Ticker r with
                  | Some t => Ok t
                  | None => Raise KeyError
                  end) ;;
  name <~ dict_lookup name_map ticker ticker ;;
  confidence <~ lift (Commodities.compute_confidence r) ;;
  ret {| out_Ticker := ticker;
         out_Name := name;
         Live_Price := round2 close;
         Confidence := round2 confidence;
         out_Signal := signal;
         SL := round2 sl;
         TP := round2 tp |}.

(** Line 62 binds [df] to the new frame [dropna] returns; the assignments
    of lines 63 and 66 change that frame in place. *)
Definition generate_signals (df name_map : ref) : St ref :=
  cur <~ indicators df ;;
  kept <~ lift (Commodities.dropna cur) ;;
  df <~ new_frame (Indicators kept) ;;
  cur <~ indicators df ;;
  _ <~ set_rows df (map Commodities.normalise_ticker cur) ;;
  cur <~ indicators df ;;
  _ <~ set_rows df cur ;;
  cur <~ indicators df ;;
  df <~ new_frame (Indicators (sort_values cur)) ;;
  cur <~ indicators df ;;
  latest <~ new_frame (Indicators (groupby_last cur)) ;;
  cur <~ indicators latest ;;
  rows <~ st_for_each (signal_row name_map) cur ;;
  new_frame (Signals rows).

(** [names] is the reference the global [COMMODITY_NAMES] holds. *)
Definition compute_commodities_signals (names : ref) : St nat :=
  fun w =>
    match files w Commodities.COM_PROCESSED_FILE with
    | None => (Raise HTTPException404, w)
    | Some f =>
        (df <~ new_frame (frame_of_csv f) ;;
         out <~ generate_signals df names ;;
         _ <~ to_csv out Commodities.COM_SIGNALS_FILE ;;
         len out) w
    end.

End CommoditiesObjects.

(** A first run on [w], and a second run on the world the first left. *)
Definition first_run {A : Type} (m : St A) (w : world) : result A * world := m w.

Definition second_run {A : Type} (m : St A) (w : world) : result A * world :=
  m (snd (m w)).

(** [w'] is [w] with new frames: every frame and dict of [w] is in [w'], as
    it was, and every file but the one at [path], when there is one. *)
Definition grown (path : option string) (w w' : world) : Prop :=
  dicts w' = dicts w
  /\ (exists new, frames w' = frames w ++ new)
  /\ forall p, Some p <> path -> files w' p = files w p.

(** What its caller gets of a call that returns a frame: the table
    [expected], in a frame of the world the call left, or the exception
    [expected]. *)
Definition returns (res : result ref * world)
  (expected : result (list SignalRow)) : Prop :=
  match fst res, expected with
  | Ok out, Ok rows => nth_error (frames (snd res)) out = Some (Signals rows)
  | Raise e, Raise e' => e = e'
  | _, _ => False
  end.

(** A world with the Scenario A table in a file and in a frame, and the two
    name tables. *)
Definition sample_world : world :=
  {| files := fun p =>
       if String.eqb p App.PROCESSED_FILE then Some (IndicatorsCsv [scenario_A])
       else if String.eqb p Commodities.COM_PROCESSED_FILE
            then Some (IndicatorsCsv [scenario_A])
            else None;
     frames := [Indicators [scenario_A]];
     dicts := [App.TICKER_NAMES; Commodities.COMMODITY_NAMES] |}.

(** A route on the world runs as the function [pure] of the file system
    says, and a second call changes nothing the first call left: the
    answers are the same, the files are the same, and the objects of the
    world are as they were. *)
Definition route_idempotent (run : St nat)
  (pure : filesystem -> filesystem * result nat) (out : string) (w : world)
  : Prop :=
  fst (first_run run w) = snd (pure (files w))
  /\ fst (second_run run w) = fst (first_run run w)
  /\ (forall p, files (snd (first_run run w)) p = fst (pure (files w)) p)
  /\ (forall p, files (snd (second_run run w)) p = files (snd (first_run run w)) p)
  /\ grown (Some out) w (snd (first_run run w))
  /\ grown (Some out) (snd (first_run run w)) (snd (second_run run w)).

(** ** Proofs: floats *)

Ltac rdec :=
  repeat match goal with
         | |- context [Req_dec_T ?a ?b] => destruct (Req_dec_T a b); try lra
         | |- context [Rlt_dec ?a ?b] => destruct (Rlt_dec a b); try lra
         | |- context [Rle_dec ?a ?b] => destruct (Rle_dec a b); try lra
         end.

Lemma truthy_zero : truthy (Fin 0) = false.
Proof. unfold truthy. destruct (Req_dec_T 0 0); [reflexivity | lra]. Qed.

Lemma truthy_nonzero (x : R) : x <> 0 -> truthy (Fin x) = true.
Proof. intros Hx. unfold truthy. destruct (Req_dec_T x 0); [contradiction | reflexivity]. Qed.

Lemma py_or_zero (d : float) : py_or (Fin 0) d = d.
Proof. unfold py_or. now rewrite truthy_zero. Qed.

Lemma py_or_nan (d : float) : py_or NaN d = NaN.
Proof. reflexivity. Qed.

Lemma py_or_same (d : float) : py_or d d = d.
Proof. unfold py_or. now destruct (truthy d). Qed.

Lemma py_or_nonzero (x : R) (d : float) : x <> 0 -> py_or (Fin x) d = Fin x.
Proof. intros Hx. unfold py_or. now rewrite truthy_nonzero. Qed.

Lemma column_set_col (k : key) (v : option float) (r : Series) :
  column (set_col k v r) k = v.
Proof. now destruct k. Qed.

Lemma column_set_col_other (k k' : key) (v : option float) (r : Series) :
  k <> k' -> column (set_col k v r) k' = column r k'.
Proof. destruct k, k'; simpl; congruence. Qed.

Lemma clamp01_same (x : float) : App.clamp01 x = Commodities.clamp01 x.
Proof. now destruct x. Qed.

Lemma clamp01_range (x : R) :
  exists c, App.clamp01 (Fin x) = Fin c /\ 0 <= c <= 1.
Proof.
  exists (Rmin (Rmax x 0) 1). split; [reflexivity |].
  split.
  - apply Rmin_glb; [apply Rmax_r | lra].
  - apply Rmin_r.
Qed.

Lemma clamp01_id (x : R) : 0 <= x <= 1 -> App.clamp01 (Fin x) = Fin x.
Proof.
  intros Hx. unfold App.clamp01, np_minimum, np_maximum, lift2.
  rewrite (Rmax_left x 0), (Rmin_left x 1) by lra. reflexivity.
Qed.

Lemma clamp01_nan_inv (x : float) : App.clamp01 x = NaN -> x = NaN.
Proof. destruct x; [reflexivity | discriminate]. Qed.

Lemma sigmoid_same (x : float) : App.sigmoid x = Commodities.sigmoid x.
Proof. reflexivity. Qed.

Lemma sigmoid_fin (x : R) : App.sigmoid (Fin x) = Fin (1 / (1 + exp (- x))).
Proof. reflexivity. Qed.

Lemma sigmoid_range (x : R) : 0 < 1 / (1 + exp (- x)) < 1.
Proof.
  pose proof (exp_pos (- x)) as He.
  split.
  - apply Rdiv_lt_0_compat; lra.
  - apply Rmult_lt_reg_r with (1 + exp (- x)); [lra |].
    unfold Rdiv. rewrite Rmult_assoc, Rinv_l by lra. lra.
Qed.

Lemma eps_denominator (c : R) : Rabs c * 0.0005 + 1e-9 <> 0.
Proof. pose proof (Rabs_pos c). lra. Qed.

(** ** Proofs: the field accessor *)

Lemma safe_val_same (r : Series) (k : key) (d : float) :
  App.safe_val r k d = Commodities.safe_val r k d.
Proof. reflexivity. Qed.

Lemma safe_val_missing (r : Series) (k : key) (d : float) :
  App.safe_val (set_col k None r) k d = d.
Proof.
  unfold App.safe_val, get. rewrite column_set_col. apply py_or_same.
Qed.

Lemma safe_val_zero (r : Series) (k : key) (d : float) :
  App.safe_val (set_col k (num 0) r) k d = d.
Proof.
  unfold App.safe_val, get. rewrite column_set_col. apply py_or_zero.
Qed.

Lemma safe_val_nan (r : Series) (k : key) (d : float) :
  App.safe_val (set_col k (Some NaN) r) k d = NaN.
Proof.
  unfold App.safe_val, get. now rewrite column_set_col.
Qed.

Lemma safe_val_nonzero (r : Series) (k : key) (d : float) (x : R) :
  x <> 0 -> App.safe_val (set_col k (num x) r) k d = Fin x.
Proof.
  intros Hx. unfold App.safe_val, get. rewrite column_set_col.
  now apply py_or_nonzero.
Qed.

Lemma safe_val_other (r : Series) (k k' : key) (v : option float) (d : float) :
  k <> k' -> App.safe_val (set_col k v r) k' d = App.safe_val r k' d.
Proof.
  intros Hk. unfold App.safe_val, get. now rewrite column_set_col_other.
Qed.

Lemma trend_score_nan_close (ema20 : float) :
  App.trend_score NaN ema20 = Ok (Fin 0.5).
Proof. reflexivity. Qed.

Lemma trend_score_nan_ema20 (close : float) :
  App.trend_score close NaN = Ok (Fin 0.5).
Proof. unfold App.trend_score. now rewrite orb_true_r. Qed.

Lemma score_same :
  (forall c e, App.trend_score c e = Commodities.trend_score c e)
  /\ (forall m c, App.macd_score m c = Commodities.macd_score m c)
  /\ (forall r, App.rsi_score r = Commodities.rsi_score r)
  /\ (forall v, App.vol_score v = Commodities.vol_score v).
Proof.
  repeat split; intros.
  - unfold App.trend_score, Commodities.trend_score.
    destruct (isnan c || isnan e); [reflexivity |].
    destruct (py_div _ _); simpl; [| reflexivity].
    now rewrite clamp01_same.
  - unfold App.macd_score, Commodities.macd_score.
    destruct (py_div _ _); simpl; [| reflexivity].
    now rewrite clamp01_same.
  - unfold App.rsi_score, Commodities.rsi_score.
    destruct (py_div _ _); simpl; [| reflexivity].
    now rewrite clamp01_same.
  - unfold App.vol_score, Commodities.vol_score. now rewrite clamp01_same.
Qed.

(** The two [compute_confidence] are one function. *)
Lemma compute_confidence_same (row : Series) :
  App.compute_confidence row = Commodities.compute_confidence row.
Proof.
  destruct score_same as (Ht & Hm & Hr & Hv).
  unfold App.compute_confidence, Commodities.compute_confidence, App.weighted_sum.
  change App.safe_val with Commodities.safe_val.
  rewrite Ht, Hm, Hr, Hv.
  destruct (Commodities.trend_score _ _) as [t |]; cbn [bind]; [| reflexivity].
  destruct (Commodities.macd_score _ _) as [m |]; cbn [bind]; [| reflexivity].
  destruct (Commodities.rsi_score _) as [s |]; cbn [bind]; [| reflexivity].
  unfold Commodities.vol_score; cbn [bind].
  rewrite clamp01_same. do 2 f_equal.
  generalize (Commodities.clamp01
                (Commodities.sigmoid (Commodities.safe_val row Vol_Ratio (Fin 1)))).
  intros v. destruct t, m, s, v; simpl; try reflexivity.
  f_equal. lra.
Qed.

(** C10.  [safe_val] takes a zero for a missing value, whatever the field,
    and lets a NaN through: with [RSI_14 = 0] a row is scored as with 50, with
    [Vol_Ratio = 0] as with 1.0, [MACD = 0] stays 0.0, [Close = 0] or
    [EMA_20 = 0] turn into NaN, which gives the trend score 0.5 and makes
    the commodities classifier answer Hold. *)
Theorem safe_val_zero_is_missing :
  forall r : Series,
    (forall k d, App.safe_val (set_col k (num 0) r) k d = d
                 /\ App.safe_val (set_col k None r) k d = d
                 /\ Commodities.safe_val (set_col k (num 0) r) k d = d
                 /\ Commodities.safe_val (set_col k None r) k d = d)
    /\ (forall k d, App.safe_val (set_col k (Some NaN) r) k d = NaN
                    /\ Commodities.safe_val (set_col k (Some NaN) r) k d = NaN)
    /\ App.compute_confidence (set_col RSI_14 (num 0) r)
       = App.compute_confidence (set_col RSI_14 (num 50) r)
    /\ Commodities.compute_confidence (set_col RSI_14 (num 0) r)
       = Commodities.compute_confidence (set_col RSI_14 (num 50) r)
    /\ App.compute_confidence (set_col Vol_Ratio (num 0) r)
       = App.compute_confidence (set_col Vol_Ratio (num 1) r)
    /\ Commodities.compute_confidence (set_col Vol_Ratio (num 0) r)
       = Commodities.compute_confidence (set_col Vol_Ratio (num 1) r)
    /\ App.safe_val (set_col MACD (num 0) r) MACD (Fin 0) = Fin 0
    /\ App.safe_val (set_col Close (num 0) r) Close NaN = NaN
    /\ App.safe_val (set_col EMA_20 (num 0) r) EMA_20 NaN = NaN
    /\ (forall ema20,
          App.trend_score (App.safe_val (set_col Close (num 0) r) Close NaN) ema20
          = Ok (Fin 0.5))
    /\ (forall close,
          App.trend_score close (App.safe_val (set_col EMA_20 (num 0) r) EMA_20 NaN)
          = Ok (Fin 0.5))
    /\ Commodities.decide_signal (set_col Close (num 0) r) = Hold
    /\ Commodities.decide_signal (set_col EMA_20 (num 0) r) = Hold.
Proof.
  intros r.
  assert (Hrsi : App.compute_confidence (set_col RSI_14 (num 0) r)
                 = App.compute_confidence (set_col RSI_14 (num 50) r)).
  { unfold App.compute_confidence.
    rewrite !safe_val_other by discriminate.
    rewrite safe_val_zero, safe_val_nonzero by lra. reflexivity. }
  assert (Hvol : App.compute_confidence (set_col Vol_Ratio (num 0) r)
                 = App.compute_confidence (set_col Vol_Ratio (num 1) r)).
  { unfold App.compute_confidence.
    rewrite !safe_val_other by discriminate.
    rewrite safe_val_zero, safe_val_nonzero by lra. reflexivity. }
  repeat split.
  - apply safe_val_zero.
  - apply safe_val_missing.
  - apply safe_val_zero.
  - apply safe_val_missing.
  - apply safe_val_nan.
  - apply safe_val_nan.
  - exact Hrsi.
  - now rewrite <- !compute_confidence_same.
  - exact Hvol.
  - now rewrite <- !compute_confidence_same.
  - apply safe_val_zero.
  - apply safe_val_zero.
  - apply safe_val_zero.
  - intros ema20. now rewrite safe_val_zero.
  - intros close. rewrite safe_val_zero. apply trend_score_nan_ema20.
  - unfold Commodities.decide_signal. change Commodities.safe_val with App.safe_val.
    now rewrite safe_val_zero.
  - unfold Commodities.decide_signal. change Commodities.safe_val with App.safe_val.
    rewrite (safe_val_zero r EMA_20). simpl. now rewrite orb_true_r.
Qed.

(** ** Proofs: the classifier *)

(** The crypto classifier is the rule of the specification. *)
Lemma App_decide_signal_classify (row : Series) :
  App.decide_signal row = classify row.
Proof.
  unfold App.decide_signal, classify, get, column.
  destruct (col_Close row) as [[| c] |]; try reflexivity;
  destruct (col_EMA_20 row) as [[| e] |]; try reflexivity;
  destruct (col_MACD row) as [[| m] |]; try reflexivity;
  destruct (col_RSI_14 row) as [[| s] |]; try reflexivity.
  cbn [pd_isna isnan orb present]. unfold flt, fgt.
  destruct (Rlt_dec e c), (Rlt_dec 0 m), (Rlt_dec s 70), (Rlt_dec c e),
    (Rlt_dec m 0), (Rlt_dec 30 s); simpl; try reflexivity; lra.
Qed.

(** The classifier is total on the three decisions. *)
Lemma decide_signal_total (row : Series) :
  (App.decide_signal row = Buy \/ App.decide_signal row = Sell
   \/ App.decide_signal row = Hold)
  /\ (Commodities.decide_signal row = Buy \/ Commodities.decide_signal row = Sell
      \/ Commodities.decide_signal row = Hold).
Proof.
  split.
  - destruct (App.decide_signal row); auto.
  - destruct (Commodities.decide_signal row); auto.
Qed.

Lemma App_decide_signal_rsi_zero : App.decide_signal rsi_zero_row = Buy.
Proof.
  unfold App.decide_signal, rsi_zero_row, scenario_A, get, num. simpl.
  unfold flt, fgt. rdec; reflexivity.
Qed.

Lemma Commodities_decide_signal_rsi_zero :
  Commodities.decide_signal rsi_zero_row = Hold.
Proof.
  unfold Commodities.decide_signal, rsi_zero_row.
  change Commodities.safe_val with App.safe_val.
  rewrite (safe_val_zero scenario_A RSI_14). simpl.
  now rewrite !orb_true_r.
Qed.

(** C4.  On the row Close=100, EMA_20=95, MACD=1.5, RSI_14=0 the rule of the
    specification, and the crypto classifier with it, answers Buy; the
    commodities classifier reads its fields through [safe_val], takes the
    zero for a missing value and answers Hold. *)
Theorem commodities_classifier_misses_rule :
  classify rsi_zero_row = Buy
  /\ App.decide_signal rsi_zero_row = Buy
  /\ Commodities.decide_signal rsi_zero_row = Hold.
Proof.
  split; [| split].
  - rewrite <- App_decide_signal_classify. apply App_decide_signal_rsi_zero.
  - apply App_decide_signal_rsi_zero.
  - apply Commodities_decide_signal_rsi_zero.
Qed.

(** Where no field read by the classifier is zero, the two classifiers
    agree. *)
Lemma decide_signal_agree (row : Series) :
  (forall k, column row k <> Some (Fin 0)) ->
  App.decide_signal row = Commodities.decide_signal row.
Proof.
  intros Hnz.
  assert (Hsv : forall k, Commodities.safe_val row k NaN = get row k NaN).
  { intros k. unfold Commodities.safe_val, get. specialize (Hnz k).
    destruct (column row k) as [[| x] |]; try reflexivity.
    apply py_or_nonzero. intros ->. now apply Hnz. }
  unfold App.decide_signal, Commodities.decide_signal.
  now rewrite !Hsv.
Qed.

(** C5.  The two [compute_confidence] agree on every row, but the two
    [decide_signal] do not: on Close=100, EMA_20=95, MACD=1.5, RSI_14=0 the
    crypto engine answers Buy and the commodities engine Hold. *)
Theorem engines_differ_on_rsi_zero :
  App.decide_signal rsi_zero_row <> Commodities.decide_signal rsi_zero_row
  /\ (forall row, App.compute_confidence row = Commodities.compute_confidence row).
Proof.
  split.
  - rewrite App_decide_signal_rsi_zero, Commodities_decide_signal_rsi_zero.
    discriminate.
  - apply compute_confidence_same.
Qed.

(** ** Proofs: rounding to two decimals *)

Lemma floor_spec (x : R) : IZR (floor x) <= x < IZR (floor x) + 1.
Proof.
  unfold floor. rewrite minus_IZR.
  destruct (archimed x) as [H1 H2]. lra.
Qed.

Lemma floor_unique (x : R) (n : Z) : IZR n <= x < IZR n + 1 -> floor x = n.
Proof.
  intros [H1 H2]. destruct (floor_spec x) as [F1 F2].
  assert (Hlt1 : (n < floor x + 1)%Z).
  { apply lt_IZR. rewrite plus_IZR. lra. }
  assert (Hlt2 : (floor x < n + 1)%Z).
  { apply lt_IZR. rewrite plus_IZR. lra. }
  lia.
Qed.

Lemma floor_mono (x y : R) : x <= y -> (floor x <= floor y)%Z.
Proof.
  intros Hxy. destruct (floor_spec x) as [F1 F2]. destruct (floor_spec y) as [G1 G2].
  assert (H : (floor x < floor y + 1)%Z).
  { apply lt_IZR. rewrite plus_IZR. lra. }
  lia.
Qed.

Lemma round_half_even_cases (x : R) :
  (round_half_even x = floor x /\ x - IZR (floor x) <= 1 / 2)
  \/ (round_half_even x = (floor x + 1)%Z /\ 1 / 2 <= x - IZR (floor x)).
Proof.
  unfold round_half_even.
  destruct (Rlt_dec (x - IZR (floor x)) (1 / 2)); [left; split; [reflexivity | lra] |].
  destruct (Rlt_dec (1 / 2) (x - IZR (floor x))); [right; split; [reflexivity | lra] |].
  destruct (Z.even (floor x)); [left | right]; split; try reflexivity; lra.
Qed.

(** Away from a tie, the nearest integer. *)
Lemma round_half_even_near (x : R) (n : Z) :
  IZR n - 1 / 2 < x < IZR n + 1 / 2 -> round_half_even x = n.
Proof.
  intros [H1 H2]. destruct (floor_spec x) as [F1 F2].
  assert (Hf : (floor x = n \/ floor x = n - 1)%Z).
  { assert ((floor x < n + 1)%Z) by (apply lt_IZR; rewrite plus_IZR; lra).
    assert ((n - 1 < floor x + 1)%Z)
      by (apply lt_IZR; rewrite plus_IZR, minus_IZR; lra).
    lia. }
  unfold round_half_even.
  destruct Hf as [Hf | Hf]; rewrite Hf.
  - destruct (Rlt_dec (x - IZR n) (1 / 2)); [reflexivity | lra].
  - rewrite minus_IZR.
    destruct (Rlt_dec (x - (IZR n - 1)) (1 / 2)); [lra |].
    destruct (Rlt_dec (1 / 2) (x - (IZR n - 1))); [lia | lra].
Qed.

Lemma round_half_even_mono (x y : R) :
  x <= y -> (round_half_even x <= round_half_even y)%Z.
Proof.
  intros Hxy. pose proof (floor_mono x y Hxy) as Hf.
  destruct (Z.eq_dec (floor x) (floor y)) as [He | Hne].
  - unfold round_half_even. rewrite He.
    destruct (Rlt_dec (x - IZR (floor y)) (1 / 2)),
             (Rlt_dec (y - IZR (floor y)) (1 / 2)); try lia; try lra;
    destruct (Rlt_dec (1 / 2) (x - IZR (floor y))),
             (Rlt_dec (1 / 2) (y - IZR (floor y))); try lia; try lra;
    destruct (Z.even (floor y)); lia.
  - destruct (round_half_even_cases x) as [[-> _] | [-> _]],
             (round_half_even_cases y) as [[-> _] | [-> _]]; lia.
Qed.

(** Two values more than one unit apart round to different integers. *)
Lemma round_half_even_strict (x y : R) :
  x + 1 < y -> (round_half_even x < round_half_even y)%Z.
Proof.
  intros Hxy.
  destruct (floor_spec x) as [F1 F2]. destruct (floor_spec y) as [G1 G2].
  assert (Hf : (floor x + 1 <= floor y)%Z).
  { assert ((floor x + 1 < floor y + 1)%Z)
      by (apply lt_IZR; rewrite !plus_IZR; lra).
    lia. }
  destruct (round_half_even_cases x) as [[-> Hx] | [-> Hx]],
           (round_half_even_cases y) as [[-> Hy] | [-> Hy]]; try lia.
  destruct (Z.eq_dec (floor y) (floor x + 1)) as [He | Hne]; [| lia].
  rewrite He, plus_IZR in Hy. lra.
Qed.

Lemma round2_mono (x y : R) : x <= y -> float_le (round2 (Fin x)) (round2 (Fin y)).
Proof.
  intros Hxy. cbn [round2 float_le].
  assert (H : (round_half_even (x * 100) <= round_half_even (y * 100))%Z)
    by (apply round_half_even_mono; lra).
  apply IZR_le in H. lra.
Qed.

Lemma round2_strict (x y : R) :
  x + 0.01 < y -> float_lt (round2 (Fin x)) (round2 (Fin y)).
Proof.
  intros Hxy. cbn [round2 float_lt].
  assert (H : (round_half_even (x * 100) < round_half_even (y * 100))%Z)
    by (apply round_half_even_strict; lra).
  apply IZR_lt in H. lra.
Qed.

Lemma round2_near (x : R) (n : Z) :
  IZR n - 1 / 2 < x * 100 < IZR n + 1 / 2 -> round2 (Fin x) = Fin (IZR n / 100).
Proof.
  intros H. cbn [round2]. now rewrite (round_half_even_near _ n).
Qed.

(** ** Proofs: the confidence scorer *)

Lemma py_div_fin (a b : R) : b <> 0 -> py_div (Fin a) (Fin b) = Ok (Fin (a / b)).
Proof. intros Hb. unfold py_div. destruct (Req_dec_T b 0); [contradiction | reflexivity]. Qed.

Lemma py_div_nan_l (b : R) : b <> 0 -> py_div NaN (Fin b) = Ok NaN.
Proof. intros Hb. unfold py_div. destruct (Req_dec_T b 0); [contradiction | reflexivity]. Qed.

Lemma py_div_zero (a : float) : py_div a (Fin 0) = Raise ZeroDivisionError.
Proof. unfold py_div. destruct (Req_dec_T 0 0); [reflexivity | lra]. Qed.

Lemma py_div_ok (a : float) (b : R) :
  b <> 0 -> exists q, py_div a (Fin b) = Ok q /\ (isnan q = isnan a).
Proof.
  intros Hb. destruct a as [| x].
  - exists NaN. now rewrite py_div_nan_l.
  - exists (Fin (x / b)). now rewrite py_div_fin.
Qed.

Lemma clamp01_sigmoid (x : R) :
  App.clamp01 (App.sigmoid (Fin x)) = Fin (1 / (1 + exp (- x))).
Proof.
  rewrite sigmoid_fin. apply clamp01_id.
  pose proof (sigmoid_range x). lra.
Qed.

(** What each sub-score is on numbers. *)
Lemma trend_score_fin (c e : R) :
  e + 1e-9 <> 0 ->
  App.trend_score (Fin c) (Fin e)
  = Ok (Fin (1 / (1 + exp (- ((c - e) / (e + 1e-9) * 8))))).
Proof.
  intros He. unfold App.trend_score. cbn [isnan orb fsub fadd lift2 eps].
  rewrite py_div_fin by assumption. cbn [bind fmul lift2].
  now rewrite clamp01_sigmoid.
Qed.

Lemma trend_score_raises (c : R) :
  App.trend_score (Fin c) (Fin (- 1e-9)) = Raise ZeroDivisionError.
Proof.
  unfold App.trend_score. cbn [isnan orb fsub fadd lift2 eps].
  replace (- 1e-9 + 1e-9) with 0 by lra.
  now rewrite py_div_zero.
Qed.

Lemma macd_score_fin (m c : R) :
  App.macd_score (Fin m) (Fin c)
  = Ok (Fin (1 / (1 + exp (- (m / (Rabs c * 0.0005 + 1e-9)))))).
Proof.
  unfold App.macd_score. cbn [fabs fmul fadd lift2 eps].
  rewrite py_div_fin by apply eps_denominator. cbn [bind].
  now rewrite clamp01_sigmoid.
Qed.

Lemma macd_score_nan_close (m : float) : App.macd_score m NaN = Ok NaN.
Proof. now destruct m. Qed.

Lemma macd_score_nan_macd (c : float) : App.macd_score NaN c = Ok NaN.
Proof.
  destruct c as [| c]; [reflexivity |].
  unfold App.macd_score. cbn [fabs fmul fadd lift2 eps].
  now rewrite py_div_nan_l by apply eps_denominator.
Qed.

Lemma rsi_score_fin (s : R) :
  App.rsi_score (Fin s) = Ok (App.clamp01 (Fin (1 - Rabs (s - 50) / 60))).
Proof.
  unfold App.rsi_score. cbn [fabs fsub lift2].
  rewrite py_div_fin by lra. reflexivity.
Qed.

Lemma rsi_score_nan : App.rsi_score NaN = Ok NaN.
Proof.
  unfold App.rsi_score. cbn [fabs fsub lift2].
  now rewrite py_div_nan_l by lra.
Qed.

Lemma vol_score_fin (v : R) :
  App.vol_score (Fin v) = Ok (Fin (1 / (1 + exp (- v)))).
Proof. unfold App.vol_score. now rewrite clamp01_sigmoid. Qed.

(** Every sub-score that is a number lies in [0, 1]. *)
Lemma trend_score_range (c e : float) (t : R) :
  App.trend_score c e = Ok (Fin t) -> 0 <= t <= 1.
Proof.
  unfold App.trend_score.
  destruct (isnan c || isnan e).
  - intros [= <-]. lra.
  - destruct (py_div _ _) as [q |]; cbn [bind]; [| discriminate].
    destruct (App.sigmoid (fmul q (Fin 8))) as [| y]; [discriminate |].
    destruct (clamp01_range y) as (z & -> & Hz). now intros [= <-].
Qed.

Lemma macd_score_range (m c : float) (t : R) :
  App.macd_score m c = Ok (Fin t) -> 0 <= t <= 1.
Proof.
  unfold App.macd_score.
  destruct (py_div _ _) as [q |]; cbn [bind]; [| discriminate].
  destruct (App.sigmoid q) as [| y]; [discriminate |].
  destruct (clamp01_range y) as (z & -> & Hz). now intros [= <-].
Qed.

Lemma rsi_score_range (s : float) (t : R) :
  App.rsi_score s = Ok (Fin t) -> 0 <= t <= 1.
Proof.
  unfold App.rsi_score.
  destruct (py_div _ _) as [q |]; cbn [bind]; [| discriminate].
  destruct (fsub (Fin 1) q) as [| y]; [discriminate |].
  destruct (clamp01_range y) as (z & -> & Hz). now intros [= <-].
Qed.

Lemma vol_score_range (v : float) (t : R) :
  App.vol_score v = Ok (Fin t) -> 0 <= t <= 1.
Proof.
  unfold App.vol_score.
  destruct (App.sigmoid v) as [| y]; [discriminate |].
  destruct (clamp01_range y) as (z & -> & Hz). now intros [= <-].
Qed.

(** A confidence that is a number lies in [0, 1]. *)
Lemma compute_confidence_range (row : Series) (c : R) :
  App.compute_confidence row = Ok (Fin c) -> 0 <= c <= 1.
Proof.
  unfold App.compute_confidence.
  destruct (App.trend_score _ _) as [t |]; cbn [bind]; [| discriminate].
  destruct (App.macd_score _ _) as [m |]; cbn [bind]; [| discriminate].
  destruct (App.rsi_score _) as [s |]; cbn [bind]; [| discriminate].
  destruct (App.vol_score _) as [v |]; cbn [bind]; [| discriminate].
  destruct (fadd (Fin 0.50) _) as [| y]; [discriminate |].
  destruct (clamp01_range y) as (z & -> & Hz). now intros [= <-].
Qed.

Lemma safe_val_scenario_A :
  App.safe_val scenario_A Close NaN = Fin 100
  /\ App.safe_val scenario_A EMA_20 NaN = Fin 95
  /\ App.safe_val scenario_A MACD (Fin 0) = Fin 1.5
  /\ App.safe_val scenario_A RSI_14 (Fin 50) = Fin 60
  /\ App.safe_val scenario_A Vol_Ratio (Fin 1) = Fin 1.2
  /\ App.safe_val scenario_A ATR NaN = Fin 2.
Proof.
  unfold App.safe_val, get, scenario_A, num. cbn [column col_Close col_EMA_20
    col_MACD col_RSI_14 col_ATR col_Vol_Ratio].
  repeat split; apply py_or_nonzero; lra.
Qed.

(** C1.  On Close=100, EMA_20=95, MACD=NaN, RSI_14=60, Vol_Ratio=1.2 both
    engines return NaN for the confidence, which is not in [0, 1], and the
    result row carries it: the NaN goes through [safe_val], the momentum
    score, [clamp01] and [round]. *)
Theorem compute_confidence_nan_macd :
  App.compute_confidence macd_nan_row = Ok NaN
  /\ Commodities.compute_confidence macd_nan_row = Ok NaN
  /\ ~ in_unit_interval NaN
  /\ exists o, App.signal_row macd_nan_row = Ok o /\ Confidence o = NaN.
Proof.
  assert (H : App.compute_confidence macd_nan_row = Ok NaN).
  { destruct safe_val_scenario_A as (Hc & He & _ & Hr & Hv & _).
    unfold App.compute_confidence, macd_nan_row.
    rewrite (safe_val_other _ MACD Close), (safe_val_other _ MACD EMA_20),
      (safe_val_other _ MACD RSI_14), (safe_val_other _ MACD Vol_Ratio)
      by discriminate.
    rewrite safe_val_nan, Hc, He, Hr, Hv.
    rewrite trend_score_fin by lra. cbn [bind].
    rewrite macd_score_nan_macd. cbn [bind].
    rewrite rsi_score_fin. cbn [bind].
    rewrite vol_score_fin. cbn [bind].
    reflexivity. }
  split; [exact H | split; [| split]].
  - now rewrite <- compute_confidence_same.
  - simpl. tauto.
  - unfold App.signal_row. cbn [macd_nan_row set_col scenario_A Ticker bind].
    fold scenario_A. fold macd_nan_row. rewrite H. cbn [bind].
    destruct (App.risk_band _ _ _) as [sl tp].
    eexists. split; reflexivity.
Qed.

Lemma safe_val_fin_inv (row : Series) (k : key) (x : R) :
  App.safe_val row k NaN = Fin x -> column row k = Some (Fin x).
Proof.
  unfold App.safe_val, get, py_or.
  destruct (column row k) as [[| y] |]; cbn [truthy]; try discriminate.
  destruct (Req_dec_T y 0); [discriminate | congruence].
Qed.

Lemma trend_score_ok (c e : float) :
  e <> Fin (- 1e-9) -> exists t, App.trend_score c e = Ok t.
Proof.
  intros He. destruct c as [| c]; [now exists (Fin 0.5) |].
  destruct e as [| e]; [exists (Fin 0.5); apply trend_score_nan_ema20 |].
  eexists. apply trend_score_fin.
  intros H0. apply He. f_equal. lra.
Qed.

Lemma macd_score_ok (m c : float) : exists v, App.macd_score m c = Ok v.
Proof.
  destruct c as [| c]; [exists NaN; apply macd_score_nan_close |].
  destruct m as [| m]; [exists NaN; apply macd_score_nan_macd |].
  eexists. apply macd_score_fin.
Qed.

Lemma rsi_score_ok (s : float) : exists v, App.rsi_score s = Ok v.
Proof.
  destruct s as [| s]; [exists NaN; apply rsi_score_nan |].
  eexists. apply rsi_score_fin.
Qed.

(** A row raises nothing unless its [EMA_20] is [-1e-9]. *)
Lemma compute_confidence_ok (row : Series) :
  column row EMA_20 <> Some (Fin (- 1e-9)) ->
  exists v, App.compute_confidence row = Ok v.
Proof.
  intros Hema. unfold App.compute_confidence.
  destruct (trend_score_ok (App.safe_val row Close NaN)
              (App.safe_val row EMA_20 NaN)) as (t & ->).
  { intros He. apply Hema. now apply safe_val_fin_inv. }
  destruct (macd_score_ok (App.safe_val row MACD (Fin 0))
              (App.safe_val row Close NaN)) as (m & ->).
  destruct (rsi_score_ok (App.safe_val row RSI_14 (Fin 50))) as (s & ->).
  cbn [bind App.vol_score]. eexists. reflexivity.
Qed.

(** C6, the defect.  Adding [eps] guards a denominator of zero, not a
    denominator of [-eps]: on Scenario A with [EMA_20 = -1e-9] the trend
    division [(close - ema20) / (ema20 + eps)] raises [ZeroDivisionError],
    in both scorers, and the exception leaves both engines: the run over a
    table holding that row raises it.  The sibling paths are guarded: the
    momentum denominator [|close| * 0.0005 + eps] is never zero, so the
    momentum score never raises, and an [EMA_20] of zero is read as missing
    and gives the trend score 0.5 without a division. *)
Theorem compute_confidence_zero_division :
  App.compute_confidence ema_neg_eps_row = Raise ZeroDivisionError
  /\ Commodities.compute_confidence ema_neg_eps_row = Raise ZeroDivisionError
  /\ App.compute_signals [ema_neg_eps_row] = Raise ZeroDivisionError
  /\ Commodities.generate_signals [ema_neg_eps_row] Commodities.COMMODITY_NAMES
     = Raise ZeroDivisionError
  /\ (forall macd close : float,
        exists v, App.macd_score macd close = Ok v
                  /\ Commodities.macd_score macd close = Ok v)
  /\ App.trend_score (App.safe_val ema_zero_row Close NaN)
                     (App.safe_val ema_zero_row EMA_20 NaN) = Ok (Fin 0.5)
  /\ Commodities.trend_score (Commodities.safe_val ema_zero_row Close NaN)
                             (Commodities.safe_val ema_zero_row EMA_20 NaN)
     = Ok (Fin 0.5).
Proof.
  assert (H : App.compute_confidence ema_neg_eps_row = Raise ZeroDivisionError).
  { destruct safe_val_scenario_A as (Hc & _).
    unfold App.compute_confidence, ema_neg_eps_row.
    rewrite (safe_val_other _ EMA_20 Close) by discriminate.
    rewrite safe_val_nonzero by lra. rewrite Hc.
    now rewrite trend_score_raises. }
  assert (H' : Commodities.compute_confidence ema_neg_eps_row
               = Raise ZeroDivisionError)
    by now rewrite <- compute_confidence_same.
  assert (Hz : App.safe_val ema_zero_row EMA_20 NaN = NaN).
  { unfold ema_zero_row. apply safe_val_zero. }
  destruct score_same as (Ht & Hm & _).
  split; [exact H | split; [exact H' |]].
  split; [| split; [| split; [| split]]].
  - unfold App.compute_signals.
    change (groupby_last (sort_values [ema_neg_eps_row])) with [ema_neg_eps_row].
    cbn [for_each]. unfold App.signal_row at 1.
    change (Ticker ema_neg_eps_row) with (Some "BTC-USD"%string).
    cbn [bind]. now rewrite H.
  - unfold Commodities.generate_signals.
    change (Commodities.dropna [ema_neg_eps_row]) with (Ok [ema_neg_eps_row]).
    cbn [bind].
    change (groupby_last
              (sort_values (map Commodities.normalise_ticker [ema_neg_eps_row])))
      with [ema_neg_eps_row].
    cbn [for_each]. unfold Commodities.signal_row at 1.
    destruct (Commodities.risk_band _ _ _) as [sl tp].
    change (Ticker ema_neg_eps_row) with (Some "BTC-USD"%string).
    cbn [bind]. now rewrite H'.
  - intros macd close. destruct (macd_score_ok macd close) as (v & Hv).
    exists v. split; [exact Hv | now rewrite <- Hm].
  - rewrite Hz. apply trend_score_nan_ema20.
  - rewrite <- Ht. change Commodities.safe_val with App.safe_val.
    rewrite Hz. apply trend_score_nan_ema20.
Qed.

(** The confidence in terms of sub-scores that are numbers: no clamp
    changes it. *)
Lemma compute_confidence_of_scores (row : Series) (t m s v : R) :
  App.trend_score (App.safe_val row Close NaN) (App.safe_val row EMA_20 NaN)
  = Ok (Fin t) ->
  App.macd_score (App.safe_val row MACD (Fin 0)) (App.safe_val row Close NaN)
  = Ok (Fin m) ->
  App.rsi_score (App.safe_val row RSI_14 (Fin 50)) = Ok (Fin s) ->
  App.vol_score (App.safe_val row Vol_Ratio (Fin 1)) = Ok (Fin v) ->
  App.compute_confidence row
  = Ok (Fin (0.5 + 0.5 * (0.45 * t + 0.25 * m + 0.20 * s + 0.10 * v))).
Proof.
  intros Ht Hm Hs Hv.
  pose proof (trend_score_range _ _ _ Ht) as Rt.
  pose proof (macd_score_range _ _ _ Hm) as Rm.
  pose proof (rsi_score_range _ _ Hs) as Rs.
  pose proof (vol_score_range _ _ Hv) as Rv.
  unfold App.compute_confidence. rewrite Ht, Hm, Hs, Hv. cbn [bind].
  unfold App.weighted_sum. cbn [fadd fmul lift2].
  rewrite clamp01_id by lra. do 2 f_equal. lra.
Qed.

(** C8.  When the four sub-scores are numbers they are not negative, no
    clamp changes the confidence, which is half of one plus the weighted
    sum, and the confidence is at least 0.5, also once rounded to two
    decimals. *)
Theorem confidence_at_least_half (row : Series) (t m s v : R) :
  App.trend_score (App.safe_val row Close NaN) (App.safe_val row EMA_20 NaN)
  = Ok (Fin t) ->
  App.macd_score (App.safe_val row MACD (Fin 0)) (App.safe_val row Close NaN)
  = Ok (Fin m) ->
  App.rsi_score (App.safe_val row RSI_14 (Fin 50)) = Ok (Fin s) ->
  App.vol_score (App.safe_val row Vol_Ratio (Fin 1)) = Ok (Fin v) ->
  (0 <= t /\ 0 <= m /\ 0 <= s /\ 0 <= v)
  /\ App.compute_confidence row
     = Ok (Fin (0.5 + 0.5 * (0.45 * t + 0.25 * m + 0.20 * s + 0.10 * v)))
  /\ Commodities.compute_confidence row
     = Ok (Fin (0.5 + 0.5 * (0.45 * t + 0.25 * m + 0.20 * s + 0.10 * v)))
  /\ 0.5 <= 0.5 + 0.5 * (0.45 * t + 0.25 * m + 0.20 * s + 0.10 * v) <= 1
  /\ float_le (Fin 0.5)
       (round2 (Fin (0.5 + 0.5 * (0.45 * t + 0.25 * m + 0.20 * s + 0.10 * v)))).
Proof.
  intros Ht Hm Hs Hv.
  pose proof (trend_score_range _ _ _ Ht) as Rt.
  pose proof (macd_score_range _ _ _ Hm) as Rm.
  pose proof (rsi_score_range _ _ Hs) as Rs.
  pose proof (vol_score_range _ _ Hv) as Rv.
  pose proof (compute_confidence_of_scores row t m s v Ht Hm Hs Hv) as Hc.
  split; [lra | split; [exact Hc | split; [| split]]].
  - now rewrite <- compute_confidence_same.
  - lra.
  - replace (Fin 0.5) with (round2 (Fin 0.5)).
    + apply round2_mono. lra.
    + rewrite (round2_near 0.5 50) by lra. f_equal. lra.
Qed.

Lemma confidence_at_least_half_witness :
  exists c, App.compute_confidence scenario_A = Ok (Fin c) /\ 0.5 <= c <= 1.
Proof.
  destruct safe_val_scenario_A as (Hc & He & Hm & Hr & Hv & _).
  edestruct (confidence_at_least_half scenario_A) as (_ & H & _ & Hb & _).
  - rewrite Hc, He. apply trend_score_fin. lra.
  - rewrite Hm, Hc. apply macd_score_fin.
  - rewrite Hr. rewrite rsi_score_fin. rewrite clamp01_id; [reflexivity |].
    unfold Rabs. destruct (Rcase_abs (60 - 50)); lra.
  - rewrite Hv. apply vol_score_fin.
  - eexists. split; [exact H | exact Hb].
Defined.

(** ** Proofs: the risk band *)

Lemma atr_val_same (close atr : float) :
  App.atr_val close atr = Commodities.atr_val close atr.
Proof. reflexivity. Qed.

Lemma risk_band_same (close a : float) (sg : Signal) :
  App.risk_band close a sg = Commodities.risk_band close a sg.
Proof. reflexivity. Qed.

Lemma py_max_fin (x y : R) : py_max (Fin x) (Fin y) = Fin (Rmax x y).
Proof.
  unfold py_max, fgt, Rmax.
  destruct (Rlt_dec x y), (Rle_dec x y); try reflexivity; try lra.
  f_equal. lra.
Qed.

(** The fallback of 1% of the price, floored by [eps]. *)
Lemma atr_val_fallback (x : R) :
  App.atr_val (Fin x) NaN = Fin (Rmax (Rabs x * 0.01) 1e-9).
Proof.
  unfold App.atr_val. cbn [pd_isna isnan orb fabs fmul lift2 eps].
  apply py_max_fin.
Qed.

Lemma atr_val_given (close : float) (a : R) :
  a <> 0 -> App.atr_val close (Fin a) = Fin a.
Proof.
  intros Ha. unfold App.atr_val, feq. cbn [pd_isna isnan orb].
  destruct (Req_dec_T a 0); [contradiction | reflexivity].
Qed.

Lemma atr_val_pos (r : Series) (x : R) :
  atr_not_negative r ->
  exists a, App.atr_val (Fin x) (App.safe_val r ATR NaN) = Fin a /\ 0 < a.
Proof.
  unfold atr_not_negative, App.safe_val, get, py_or.
  destruct (column r ATR) as [[| a] |]; cbn [truthy]; intros Ha.
  - exists (Rmax (Rabs x * 0.01) 1e-9). split; [apply atr_val_fallback |].
    apply Rlt_le_trans with 1e-9; [lra | apply Rmax_r].
  - destruct (Req_dec_T a 0).
    + exists (Rmax (Rabs x * 0.01) 1e-9). split; [apply atr_val_fallback |].
      apply Rlt_le_trans with 1e-9; [lra | apply Rmax_r].
    + exists a. split; [now apply atr_val_given | lra].
  - exists (Rmax (Rabs x * 0.01) 1e-9). split; [apply atr_val_fallback |].
    apply Rlt_le_trans with 1e-9; [lra | apply Rmax_r].
Qed.

Lemma safe_val_close (r : Series) (x : R) :
  column r Close = Some (Fin x) -> x <> 0 -> App.safe_val r Close NaN = Fin x.
Proof.
  intros Hc Hx. unfold App.safe_val, get. rewrite Hc. now apply py_or_nonzero.
Qed.

(** What a result row holds, in either engine. *)
Lemma emitted_fields (r : Series) (o : SignalRow) :
  emitted r o ->
  let close := App.safe_val r Close NaN in
  let a := App.atr_val close (App.safe_val r ATR NaN) in
  (out_Signal o = App.decide_signal r \/ out_Signal o = Commodities.decide_signal r)
  /\ Live_Price o = round2 close
  /\ SL o = round2 (fst (App.risk_band close a (out_Signal o)))
  /\ TP o = round2 (snd (App.risk_band close a (out_Signal o))).
Proof.
  intros [H | (nm & H)]; cbv zeta.
  - unfold App.signal_row in H.
    destruct (Ticker r); cbn [bind] in H; [| discriminate].
    destruct (App.compute_confidence r); cbn [bind] in H; [| discriminate].
    destruct (App.risk_band _ _ _) as [sl tp] eqn:Hband.
    injection H as <-. cbn [out_Signal Live_Price SL TP].
    rewrite Hband. auto.
  - unfold Commodities.signal_row in H.
    change Commodities.safe_val with App.safe_val in H.
    change Commodities.atr_val with App.atr_val in H.
    change Commodities.risk_band with App.risk_band in H.
    destruct (App.risk_band _ _ _) as [sl tp] eqn:Hband.
    destruct (Ticker r); cbn [bind] in H; [| discriminate].
    destruct (Commodities.compute_confidence r); cbn [bind] in H; [| discriminate].
    injection H as <-. cbn [out_Signal Live_Price SL TP].
    rewrite Hband. auto.
Qed.

(** C3, the counterexample: the row of a coin quoted at 0.004 is a Buy whose
    price, stop loss and take profit all round to 0.0. *)
Lemma penny_row_band_collapses :
  exists o, App.signal_row penny_row = Ok o
            /\ out_Signal o = Buy
            /\ Live_Price o = Fin (0 / 100)
            /\ SL o = Fin (0 / 100)
            /\ TP o = Fin (0 / 100)
            /\ ~ float_lt (Live_Price o) (TP o)
            /\ ~ float_lt (SL o) (Live_Price o).
Proof.
  destruct (compute_confidence_ok penny_row) as (v & Hv).
  { simpl. unfold num. intros H. injection H. lra. }
  assert (Hclose : App.safe_val penny_row Close NaN = Fin 0.004).
  { apply safe_val_close; [reflexivity | lra]. }
  assert (Hsig : App.decide_signal penny_row = Buy).
  { unfold App.decide_signal, penny_row, get, num. simpl.
    unfold flt, fgt. rdec; reflexivity. }
  assert (Habs : Rabs 0.004 = 0.004) by (apply Rabs_pos_eq; lra).
  assert (Hmax : Rmax (0.004 * 0.01) 1e-9 = 0.004 * 0.01) by (apply Rmax_left; lra).
  eexists. split.
  - unfold App.signal_row. cbn [penny_row Ticker bind]. rewrite Hv. cbn [bind].
    rewrite Hsig, Hclose.
    change (App.safe_val _ ATR NaN) with NaN.
    rewrite atr_val_fallback, Habs, Hmax.
    cbn [App.risk_band fsub fadd fmul lift2]. reflexivity.
  - cbn [out_Signal Live_Price SL TP].
    rewrite (round2_near 0.004 0), (round2_near (0.004 - _) 0),
      (round2_near (0.004 + _) 0) by (simpl; lra).
    repeat split; try reflexivity; simpl; lra.
Qed.

Lemma risk_band_order (x a : R) (sg : Signal) :
  0 < a ->
  let sl := round2 (fst (App.risk_band (Fin x) (Fin a) sg)) in
  let tp := round2 (snd (App.risk_band (Fin x) (Fin a) sg)) in
  let price := round2 (Fin x) in
  match sg with
  | Sell => float_le tp price /\ float_le price sl
  | _ => float_le sl price /\ float_le price tp
  end.
Proof.
  intros Ha. cbv zeta.
  destruct sg; cbn [App.risk_band fst snd fsub fadd fmul lift2];
    split; apply round2_mono; lra.
Qed.

Lemma Rabs_le_between (a b : R) : Rabs a <= b -> - b <= a <= b.
Proof. unfold Rabs. destruct (Rcase_abs a); lra. Qed.

(** A rounded result lies within the relative error of the exact one. *)
Lemma rounds_between (rnd : R -> R) (y b : R) :
  rounds rnd -> - b <= y <= b ->
  y - unit_roundoff * b <= rnd y <= y + unit_roundoff * b.
Proof.
  intros Hrnd Hy.
  assert (Hb : Rabs y <= b) by (apply Rabs_le; lra).
  assert (Hu : 0 < unit_roundoff) by (unfold unit_roundoff; lra).
  pose proof (Hrnd y) as He. apply Rabs_le_between in He.
  assert (Hub : unit_roundoff * Rabs y <= unit_roundoff * b)
    by (apply Rmult_le_compat_l; lra).
  lra.
Qed.

Lemma rounds_exact : rounds (fun y => y).
Proof.
  intros y. replace (y - y) with 0 by lra. rewrite Rabs_R0.
  apply Rmult_le_pos; [unfold unit_roundoff; lra | apply Rabs_pos].
Qed.

Lemma rounds_round_away : rounds round_away.
Proof.
  intros y. unfold round_away.
  replace (y * (1 + unit_roundoff) - y) with (unit_roundoff * y) by lra.
  rewrite Rabs_mult, (Rabs_pos_eq unit_roundoff); [lra |].
  unfold unit_roundoff. lra.
Qed.

Lemma rounded_band_exact (x a : R) (sg : Signal) :
  rounded_band (fun y => y) x a sg = App.risk_band (Fin x) (Fin a) sg.
Proof. destruct sg; reflexivity. Qed.

(** The multiples of the volatility, and the ends of the band, once
    rounded. *)
Lemma rounded_multiple (rnd : R -> R) (k v : R) :
  rounds rnd -> 0 <= k -> 0 <= v ->
  k * v - unit_roundoff * (k * v) <= rnd (k * v)
  <= k * v + unit_roundoff * (k * v).
Proof.
  intros Hrnd Hk Hv. apply rounds_between; [exact Hrnd |].
  assert (0 <= k * v) by now apply Rmult_le_pos. lra.
Qed.

Lemma rounded_end (rnd : R -> R) (x t : R) :
  rounds rnd -> Rabs x <= 1e12 -> 0 <= t ->
  (x - t - unit_roundoff * (1e12 + t) <= rnd (x - t)
   <= x - t + unit_roundoff * (1e12 + t))
  /\ (x + t - unit_roundoff * (1e12 + t) <= rnd (x + t)
      <= x + t + unit_roundoff * (1e12 + t)).
Proof.
  intros Hrnd Hx Ht. apply Rabs_le_between in Hx.
  split; apply rounds_between; try exact Hrnd; lra.
Qed.

(** With a volatility of at least 0.0105 and a price of at most [1e12] in
    absolute value, the rounding errors of the band arithmetic cannot bring
    two of the rounded fields together. *)
Lemma rounded_band_strict (rnd : R -> R) (x v : R) (sg : Signal) :
  rounds rnd -> 0.0105 <= v -> Rabs x <= 1e12 ->
  band_around float_lt (Fin x) sg (rounded_band rnd x v sg)
  /\ band_within float_lt (rounded_band rnd x v Hold) (rounded_band rnd x v Buy).
Proof.
  intros Hrnd Hv Hx.
  pose proof (rounded_multiple rnd 2 v Hrnd ltac:(lra) ltac:(lra)) as H2.
  pose proof (rounded_multiple rnd 3 v Hrnd ltac:(lra) ltac:(lra)) as H3.
  assert (P2 : 0 <= rnd (2 * v)) by (unfold unit_roundoff in H2; lra).
  assert (P3 : 0 <= rnd (3 * v)) by (unfold unit_roundoff in H3; lra).
  destruct (rounded_end rnd x v Hrnd Hx ltac:(lra)) as [E1m E1p].
  destruct (rounded_end rnd x (rnd (2 * v)) Hrnd Hx P2) as [E2m E2p].
  destruct (rounded_end rnd x (rnd (3 * v)) Hrnd Hx P3) as [E3m E3p].
  unfold unit_roundoff in *.
  split.
  - destruct sg; cbn [band_around rounded_band fst snd];
      split; apply round2_strict; lra.
  - unfold band_within. cbn [rounded_band fst snd].
    split; apply round2_strict; lra.
Qed.

(** The volatility computed in rounded arithmetic is within the rounding
    errors of the exact one. *)
Lemma rounded_atr_val_near (rnd : R -> R) (x a : R) (atr : float) :
  rounds rnd ->
  App.atr_val (Fin x) atr = Fin a -> 0.011 <= a ->
  0.0105 <= rounded_atr_val rnd x atr.
Proof.
  intros Hrnd Ha Hbig.
  assert (Hfallback : App.atr_val (Fin x) NaN = Fin a ->
                      0.0105 <= Rmax (rnd (Rabs x * rnd 0.01)) (rnd 1e-9)).
  { rewrite atr_val_fallback. intros [= <-].
    assert (Hx : 0.011 <= Rabs x * 0.01).
    { unfold Rmax in Hbig. destruct (Rle_dec (Rabs x * 0.01) 1e-9); lra. }
    pose proof (rounds_between rnd 0.01 0.01 Hrnd ltac:(lra)) as Hc.
    unfold unit_roundoff in Hc.
    assert (Hy : 0.0109 <= Rabs x * rnd 0.01).
    { apply Rle_trans with (Rabs x * 0.0099999); [lra |].
      apply Rmult_le_compat_l; [apply Rabs_pos | lra]. }
    pose proof (rounds_between rnd (Rabs x * rnd 0.01) (Rabs x * rnd 0.01) Hrnd
                  ltac:(lra)) as Hp.
    unfold unit_roundoff in Hp.
    apply Rle_trans with (rnd (Rabs x * rnd 0.01)); [lra | apply Rmax_l]. }
  unfold rounded_atr_val. destruct atr as [| v]; [now apply Hfallback |].
  destruct (Req_dec_T v 0) as [-> | Hv].
  - apply Hfallback. rewrite <- Ha. unfold App.atr_val, feq.
    cbn [pd_isna isnan orb]. now destruct (Req_dec_T 0 0).
  - rewrite atr_val_given in Ha by exact Hv. injection Ha as <-. lra.
Qed.

(** C3, as the code has it.  For a row with a price that is a non-zero
    number and an ATR that is absent, empty or not negative, the effective
    volatility is positive and the rounded fields are ordered, but not
    strictly: for Buy and Hold SL <= Live_Price <= TP, for Sell
    TP <= Live_Price <= SL, and the rounded Hold band lies within the
    rounded Buy band of the same price and volatility.  When the effective
    volatility is at least 0.011 and the price at most [1e12] in absolute
    value, the order is strict and the Hold band lies strictly inside the
    Buy band; and this does not rest on exact arithmetic: it holds of the
    volatility and the band computed from the row with any binary64
    rounding of each arithmetic result. *)
Theorem risk_band_ordering (r : Series) (o : SignalRow) (x : R) :
  emitted r o ->
  column r Close = Some (Fin x) ->
  x <> 0 ->
  atr_not_negative r ->
  exists a,
    App.atr_val (Fin x) (App.safe_val r ATR NaN) = Fin a
    /\ 0 < a
    /\ Live_Price o = round2 (Fin x)
    /\ band_ordered float_le o
    /\ band_within float_le (App.risk_band (Fin x) (Fin a) Hold)
                            (App.risk_band (Fin x) (Fin a) Buy)
    /\ (0.011 <= a -> Rabs x <= 1e12 ->
        band_ordered float_lt o
        /\ band_within float_lt (App.risk_band (Fin x) (Fin a) Hold)
                                (App.risk_band (Fin x) (Fin a) Buy))
    /\ (forall rnd : R -> R,
          rounds rnd -> 0.011 <= a -> Rabs x <= 1e12 ->
          let v := rounded_atr_val rnd x (App.safe_val r ATR NaN) in
          band_around float_lt (Fin x) (out_Signal o)
            (rounded_band rnd x v (out_Signal o))
          /\ band_within float_lt (rounded_band rnd x v Hold)
                                  (rounded_band rnd x v Buy)).
Proof.
  intros Hem Hclose Hx Hatr.
  destruct (atr_val_pos r x Hatr) as (a & Ha & Hpos).
  destruct (emitted_fields r o Hem) as (_ & Hp & Hsl & Htp).
  rewrite (safe_val_close r x Hclose Hx) in Hp, Hsl, Htp.
  rewrite Ha in Hsl, Htp.
  pose proof (risk_band_order x a (out_Signal o) Hpos) as Hord.
  cbv zeta in Hord. rewrite <- Hsl, <- Htp, <- Hp in Hord.
  exists a.
  split; [exact Ha | split; [exact Hpos | split; [exact Hp |]]].
  split; [unfold band_ordered; destruct (out_Signal o); apply Hord |].
  split.
  { unfold band_within. cbn [App.risk_band fst snd fsub fadd fmul lift2].
    split; apply round2_mono; lra. }
  split.
  - intros Hbig Hsmall.
    destruct (rounded_band_strict (fun y => y) x a (out_Signal o)
                rounds_exact ltac:(lra) Hsmall) as [Hstrict Hin].
    rewrite !rounded_band_exact in Hin. rewrite rounded_band_exact in Hstrict.
    split; [| exact Hin].
    unfold band_around in Hstrict. rewrite <- Hsl, <- Htp, <- Hp in Hstrict.
    unfold band_ordered. destruct (out_Signal o); apply Hstrict.
  - intros rnd Hrnd Hbig Hsmall. cbv zeta.
    apply rounded_band_strict; [exact Hrnd | | exact Hsmall].
    now apply (rounded_atr_val_near rnd x a).
Qed.

Lemma risk_band_ordering_witness :
  exists o a,
    App.signal_row scenario_A = Ok o
    /\ App.atr_val (Fin 100) (App.safe_val scenario_A ATR NaN) = Fin a
    /\ 0 < a
    /\ band_ordered float_le o
    /\ band_ordered float_lt o
    /\ band_around float_lt (Fin 100) (out_Signal o)
         (rounded_band round_away 100
            (rounded_atr_val round_away 100 (App.safe_val scenario_A ATR NaN))
            (out_Signal o)).
Proof.
  destruct (compute_confidence_ok scenario_A) as (v & Hv).
  { simpl. unfold num. intros H. injection H. lra. }
  assert (Hrow : exists o, App.signal_row scenario_A = Ok o).
  { unfold App.signal_row. cbn [scenario_A Ticker bind]. fold scenario_A.
    rewrite Hv. cbn [bind].
    destruct (App.risk_band _ _ _). eexists. reflexivity. }
  destruct Hrow as (o & Ho).
  destruct (risk_band_ordering scenario_A o 100)
    as (a & Ha & Hpos & _ & Hle & _ & Hlt & Hrnd).
  - now left.
  - reflexivity.
  - lra.
  - unfold atr_not_negative. simpl. lra.
  - assert (Hsmall : Rabs 100 <= 1e12) by (rewrite Rabs_pos_eq; lra).
    assert (Hbig : 0.011 <= a).
    { pose proof Ha as Ha'.
      destruct safe_val_scenario_A as (_ & _ & _ & _ & _ & Hatr).
      rewrite Hatr, atr_val_given in Ha' by lra. injection Ha' as <-. lra. }
    destruct (Hlt Hbig Hsmall) as [Hstrict _].
    destruct (Hrnd round_away rounds_round_away Hbig Hsmall) as [Haround _].
    exists o, a. auto 10.
Defined.

(** ** Proofs: bounds on the exponential

    [exp z] lies between [1 + z] and [1 / (1 - z)]; squaring [k] times gives
    bounds on [exp (z * 2 ^ k)].  The squares are computed on integers, in
    units of [1 / SCALE], rounded down for the lower bound and up for the
    upper one. *)

Lemma IZR_SCALE_pos : 0 < IZR SCALE.
Proof. unfold SCALE. lra. Qed.

Lemma div_scale_down (a : Z) : IZR (a / SCALE) <= IZR a / IZR SCALE.
Proof.
  pose proof IZR_SCALE_pos as HS.
  assert (H : (SCALE * (a / SCALE) <= a)%Z) by (apply Z.mul_div_le; reflexivity).
  apply IZR_le in H. rewrite mult_IZR in H.
  apply Rmult_le_reg_r with (IZR SCALE); [assumption |].
  unfold Rdiv. rewrite Rmult_assoc, Rinv_l by lra. lra.
Qed.

Lemma div_scale_up (a : Z) : IZR a / IZR SCALE <= IZR (a / SCALE + 1).
Proof.
  pose proof IZR_SCALE_pos as HS.
  assert (H : (a < SCALE * (a / SCALE + 1))%Z).
  { pose proof (Z.mul_succ_div_gt a SCALE eq_refl). lia. }
  apply IZR_lt in H. rewrite mult_IZR in H.
  apply Rmult_le_reg_r with (IZR SCALE); [assumption |].
  unfold Rdiv. rewrite Rmult_assoc, Rinv_l by lra. lra.
Qed.

Lemma exp_double (z : R) : exp (z * 2) = exp z * exp z.
Proof. replace (z * 2) with (z + z) by lra. apply exp_plus. Qed.

Lemma square_down_sound (k : nat) :
  forall (l : Z) (z : R),
    (0 <= l)%Z ->
    IZR l / IZR SCALE <= exp z ->
    IZR (square_down k l) / IZR SCALE <= exp (z * 2 ^ k).
Proof.
  pose proof IZR_SCALE_pos as HS.
  induction k as [| k IH]; intros l z Hl Hle; cbn [square_down pow].
  - now rewrite Rmult_1_r.
  - replace (z * (2 * 2 ^ k)) with (z * 2 * 2 ^ k) by lra.
    apply IH.
    + apply Z.div_pos; [nia | reflexivity].
    + rewrite exp_double.
      apply Rle_trans with (IZR (l * l) / IZR SCALE / IZR SCALE).
      * apply Rmult_le_compat_r; [left; now apply Rinv_0_lt_compat |].
        apply div_scale_down.
      * rewrite mult_IZR.
        replace (IZR l * IZR l / IZR SCALE / IZR SCALE)
          with ((IZR l / IZR SCALE) * (IZR l / IZR SCALE)) by (field; lra).
        assert (H0 : 0 <= IZR l / IZR SCALE).
        { apply Rmult_le_pos; [now apply IZR_le | left; now apply Rinv_0_lt_compat]. }
        apply Rmult_le_compat; assumption.
Qed.

Lemma square_up_sound (k : nat) :
  forall (u : Z) (z : R),
    exp z <= IZR u / IZR SCALE ->
    exp (z * 2 ^ k) <= IZR (square_up k u) / IZR SCALE.
Proof.
  pose proof IZR_SCALE_pos as HS.
  induction k as [| k IH]; intros u z Hle; cbn [square_up pow].
  - now rewrite Rmult_1_r.
  - replace (z * (2 * 2 ^ k)) with (z * 2 * 2 ^ k) by lra.
    apply IH. rewrite exp_double.
    apply Rle_trans with (IZR (u * u) / IZR SCALE / IZR SCALE).
    + rewrite mult_IZR.
      replace (IZR u * IZR u / IZR SCALE / IZR SCALE)
        with ((IZR u / IZR SCALE) * (IZR u / IZR SCALE)) by (field; lra).
      pose proof (exp_pos z).
      apply Rmult_le_compat; lra.
    + apply Rmult_le_compat_r; [left; now apply Rinv_0_lt_compat |].
      apply div_scale_up.
Qed.

Lemma exp_lower_bound (k : nat) (l : Z) (z : R) :
  (0 <= l)%Z ->
  IZR l / IZR SCALE <= 1 + z ->
  IZR (square_down k l) / IZR SCALE <= exp (z * 2 ^ k).
Proof.
  intros Hl Hle. apply square_down_sound; [assumption |].
  pose proof (exp_ineq1_le z). lra.
Qed.

Lemma exp_upper_bound (k : nat) (u : Z) (z : R) :
  z < 1 ->
  1 <= IZR u / IZR SCALE * (1 - z) ->
  exp (z * 2 ^ k) <= IZR (square_up k u) / IZR SCALE.
Proof.
  intros Hz Hle. apply square_up_sound.
  pose proof (exp_ineq1_le (- z)) as H1.
  pose proof (exp_pos z) as Hp.
  rewrite exp_Ropp in H1.
  assert (H2 : exp z * / exp z = 1) by (apply Rinv_r; lra).
  assert (H3 : exp z * (1 - z) <= 1) by nra.
  nra.
Qed.

Lemma exp_mono (x y : R) : x <= y -> exp x <= exp y.
Proof.
  intros [H | ->]; [left; now apply exp_increasing | right; reflexivity].
Qed.

(** The three exponentials of Scenario A. *)
Lemma exp_scenario_trend (y : R) :
  0.42105263 <= y <= 0.42105264 ->
  0.656354 < exp (- y) < 0.656357.
Proof.
  intros [Hlo Hhi]. split.
  - apply Rlt_le_trans with (exp (- 0.42105264)).
    + pose proof (exp_lower_bound 16 999993575246582 (- 0.42105264 / 65536)) as H.
      replace (- 0.42105264 / 65536 * 2 ^ 16) with (- 0.42105264) in H
        by (simpl; lra).
      replace (square_down 16 999993575246582) with 656354662142145%Z in H
        by (vm_compute; reflexivity).
      unfold SCALE in H. 
      assert (H' := H ltac:(lia) ltac:(lra)). lra.
    + apply exp_mono. lra.
  - apply Rle_lt_trans with (exp (- 0.42105263)).
    + apply exp_mono. lra.
    + pose proof (exp_upper_bound 16 999993575288012 (- 0.42105263 / 65536)) as H.
      replace (- 0.42105263 / 65536 * 2 ^ 16) with (- 0.42105263) in H
        by (simpl; lra).
      replace (square_up 16 999993575288012) with 656356444298944%Z in H
        by (vm_compute; reflexivity).
      unfold SCALE in H.
      assert (H' := H ltac:(lra) ltac:(lra)). lra.
Qed.

Lemma exp_scenario_volume : 0.30119 < exp (- (1.2)) < 0.30120.
Proof.
  replace (- (1.2)) with (-1.2) by lra.
  split.
  - pose proof (exp_lower_bound 16 999981689453125 (- 1.2 / 65536)) as H.
    replace (- 1.2 / 65536 * 2 ^ 16) with (- 1.2) in H by (simpl; lra).
    replace (square_down 16 999981689453125) with 301190902862974%Z in H
      by (vm_compute; reflexivity).
    unfold SCALE in H.
    assert (H' := H ltac:(lia) ltac:(lra)). lra.
  - pose proof (exp_upper_bound 16 999981689788395 (- 1.2 / 65536)) as H.
    replace (- 1.2 / 65536 * 2 ^ 16) with (- 1.2) in H by (simpl; lra).
    replace (square_up 16 999981689788395) with 301197520912836%Z in H
      by (vm_compute; reflexivity).
    unfold SCALE in H.
    assert (H' := H ltac:(lra) ltac:(lra)). lra.
Qed.

Lemma exp_scenario_momentum (y : R) : 29 <= y -> 0 < exp (- y) < 1e-9.
Proof.
  intros Hy. split; [apply exp_pos |].
  apply Rle_lt_trans with (exp (- 29)).
  - apply exp_mono. lra.
  - pose proof (exp_upper_bound 16 999557690841151 (- 29 / 65536)) as H.
    replace (- 29 / 65536 * 2 ^ 16) with (- 29) in H by (simpl; lra).
    unfold SCALE in H.
    assert (H' := H ltac:(lra) ltac:(lra)).
    assert (Hc : (square_up 16 999557690841151 < 1000000)%Z)
      by (vm_compute; reflexivity).
    apply IZR_lt in Hc. lra.
Qed.

(** ** Proofs: Scenario A *)

Lemma div_between (n d lo hi : R) :
  0 < d -> lo * d <= n <= hi * d -> lo <= n / d <= hi.
Proof.
  intros Hd [H1 H2].
  assert (H : n / d * d = n) by (field; lra).
  split; apply Rmult_le_reg_r with d; lra.
Qed.

Lemma sigmoid_between (E lo hi : R) :
  0 < E -> lo * (1 + E) < 1 -> 1 < hi * (1 + E) -> lo < 1 / (1 + E) < hi.
Proof.
  intros HE H1 H2.
  assert (H : 1 / (1 + E) * (1 + E) = 1) by (field; lra).
  split; apply Rmult_lt_reg_r with (1 + E); lra.
Qed.

Lemma scenario_A_scores :
  exists t m s v,
    App.trend_score (Fin 100) (Fin 95) = Ok (Fin t)
    /\ App.macd_score (Fin 1.5) (Fin 100) = Ok (Fin m)
    /\ App.rsi_score (Fin 60) = Ok (Fin s)
    /\ App.vol_score (Fin 1.2) = Ok (Fin v)
    /\ 0.60373 < t < 0.60374
    /\ 1 - 1e-9 < m < 1
    /\ 0.83333 < s < 0.83334
    /\ 0.76852 < v < 0.76853.
Proof.
  exists (1 / (1 + exp (- ((100 - 95) / (95 + 1e-9) * 8)))),
         (1 / (1 + exp (- (1.5 / (Rabs 100 * 0.0005 + 1e-9))))),
         (1 - Rabs (60 - 50) / 60),
         (1 / (1 + exp (- (1.2)))).
  assert (Habs100 : Rabs 100 = 100) by (apply Rabs_pos_eq; lra).
  assert (Habs10 : Rabs (60 - 50) = 10)
    by (replace (60 - 50) with 10 by lra; apply Rabs_pos_eq; lra).
  assert (Bt : 0.60373 < 1 / (1 + exp (- ((100 - 95) / (95 + 1e-9) * 8))) < 0.60374).
  { assert (Hy : 0.42105263 <= (100 - 95) / (95 + 1e-9) * 8 <= 0.42105264).
    { replace ((100 - 95) / (95 + 1e-9) * 8) with (40 / (95 + 1e-9))
        by (field; lra).
      apply div_between; lra. }
    destruct (exp_scenario_trend _ Hy) as [E1 E2].
    apply sigmoid_between; lra. }
  assert (Bm : 1 - 1e-9 < 1 / (1 + exp (- (1.5 / (Rabs 100 * 0.0005 + 1e-9)))) < 1).
  { rewrite Habs100.
    assert (Hq : 29 <= 1.5 / (100 * 0.0005 + 1e-9) <= 30)
      by (apply div_between; lra).
    destruct (exp_scenario_momentum _ (proj1 Hq)) as [E1 E2].
    apply sigmoid_between; lra. }
  assert (Bs : 0.83333 < 1 - Rabs (60 - 50) / 60 < 0.83334)
    by (rewrite Habs10; lra).
  assert (Bv : 0.76852 < 1 / (1 + exp (- (1.2))) < 0.76853).
  { destruct exp_scenario_volume as [E1 E2]. apply sigmoid_between; lra. }
  split; [apply trend_score_fin; lra |].
  split; [apply macd_score_fin |].
  split; [rewrite rsi_score_fin, clamp01_id; [reflexivity | lra] |].
  split; [apply vol_score_fin |].
  auto.
Qed.

(** C7.  Scenario A: the four sub-scores are 0.6037, 1.0, 0.8333 and 0.7685
    to four decimals and the weighted sum is 0.7652; the crypto engine emits
    Confidence 0.88, Signal Buy, SL 96.00 and TP 106.00. *)
Theorem scenario_A_result :
  exists t m s v conf,
    App.trend_score (Fin 100) (Fin 95) = Ok (Fin t)
    /\ App.macd_score (Fin 1.5) (Fin 100) = Ok (Fin m)
    /\ App.rsi_score (Fin 60) = Ok (Fin s)
    /\ App.vol_score (Fin 1.2) = Ok (Fin v)
    /\ Rabs (t - 0.6037) < 0.00005
    /\ Rabs (m - 1.0) < 0.00005
    /\ Rabs (s - 0.8333) < 0.00005
    /\ Rabs (v - 0.7685) < 0.00005
    /\ (exists w, App.weighted_sum (Fin t) (Fin m) (Fin s) (Fin v) = Fin w
                  /\ Rabs (w - 0.7652) < 0.00005)
    /\ App.compute_confidence scenario_A = Ok (Fin conf)
    /\ Rabs (conf - 0.8826) < 0.00005
    /\ App.decide_signal scenario_A = Buy
    /\ App.signal_row scenario_A
       = Ok {| out_Ticker := "BTC-USD"; out_Name := "Bitcoin";
               Live_Price := Fin 100;
               Confidence := Fin 0.88;
               out_Signal := Buy;
               SL := Fin 96;
               TP := Fin 106 |}.
Proof.
  destruct scenario_A_scores as (t & m & s & v & Ht & Hm & Hs & Hv & Bt & Bm & Bs & Bv).
  destruct safe_val_scenario_A as (Hc & He & Hmacd & Hr & Hvol & Hatr).
  assert (Hconf : App.compute_confidence scenario_A
            = Ok (Fin (0.5 + 0.5 * (0.45 * t + 0.25 * m + 0.20 * s + 0.10 * v)))).
  { apply compute_confidence_of_scores.
    - now rewrite Hc, He.
    - now rewrite Hmacd, Hc.
    - now rewrite Hr.
    - now rewrite Hvol. }
  assert (Hsig : App.decide_signal scenario_A = Buy).
  { unfold App.decide_signal, scenario_A, get, num. simpl.
    unfold flt, fgt. rdec; reflexivity. }
  exists t, m, s, v, (0.5 + 0.5 * (0.45 * t + 0.25 * m + 0.20 * s + 0.10 * v)).
  do 4 (split; [assumption |]).
  do 4 (split; [apply Rabs_def1; lra |]).
  split.
  { exists (0.45 * t + 0.25 * m + 0.20 * s + 0.10 * v). split; [reflexivity |].
    apply Rabs_def1; lra. }
  split; [exact Hconf |].
  split; [apply Rabs_def1; lra |].
  split; [exact Hsig |].
  - unfold App.signal_row. cbn [scenario_A Ticker bind]. fold scenario_A.
    rewrite Hconf. cbn [bind]. rewrite Hsig, Hc, Hatr.
    rewrite atr_val_given by lra.
    cbn [App.risk_band fsub fadd fmul lift2].
    rewrite (round2_near 100 10000), (round2_near (100 - 2 * 2) 9600),
      (round2_near (100 + 3 * 2) 10600), (round2_near _ 88) by lra.
    do 2 f_equal; f_equal; lra.
Qed.

(** ** Proofs: the routes *)

Lemma write_file_other (fs : filesystem) (path p : string) (f : file) :
  String.eqb p path = false -> write_file fs path f p = fs p.
Proof. intros H. unfold write_file. now rewrite H. Qed.

Lemma write_file_twice (fs : filesystem) (path : string) (f : file) (p : string) :
  write_file (write_file fs path f) path f p = write_file fs path f p.
Proof. unfold write_file. now destruct (String.eqb p path). Qed.

Lemma App_route_idempotent (fs : filesystem) :
  let run := App.api_compute_signals in
  snd (run (fst (run fs))) = snd (run fs)
  /\ forall p, fst (run (fst (run fs))) p = fst (run fs) p.
Proof.
  cbv zeta. unfold App.api_compute_signals.
  destruct (fs App.PROCESSED_FILE) as [f |] eqn:Hin; cbn [fst snd].
  - destruct (df <- read_indicators fs App.PROCESSED_FILE ;; App.compute_signals df)
      as [rows | e] eqn:Hrun; cbn [fst snd].
    + assert (Hsame : write_file fs App.SIGNALS_FILE (SignalsCsv rows) App.PROCESSED_FILE
                      = fs App.PROCESSED_FILE)
        by (apply write_file_other; reflexivity).
      unfold read_indicators in *. rewrite Hsame, Hin in *. rewrite Hrun.
      cbn [fst snd]. split; [reflexivity | apply write_file_twice].
    + rewrite Hin, Hrun. cbn [fst snd]. auto.
  - rewrite Hin. cbn [fst snd]. auto.
Qed.

Lemma Commodities_route_idempotent (fs : filesystem) :
  let run := Commodities.compute_commodities_signals in
  snd (run (fst (run fs))) = snd (run fs)
  /\ forall p, fst (run (fst (run fs))) p = fst (run fs) p.
Proof.
  cbv zeta. unfold Commodities.compute_commodities_signals.
  destruct (fs Commodities.COM_PROCESSED_FILE) as [f |] eqn:Hin; cbn [fst snd].
  - destruct (df <- read_indicators fs Commodities.COM_PROCESSED_FILE ;;
              Commodities.generate_signals df Commodities.COMMODITY_NAMES)
      as [rows | e] eqn:Hrun; cbn [fst snd].
    + assert (Hsame : write_file fs Commodities.COM_SIGNALS_FILE (SignalsCsv rows)
                        Commodities.COM_PROCESSED_FILE
                      = fs Commodities.COM_PROCESSED_FILE)
        by (apply write_file_other; reflexivity).
      unfold read_indicators in *. rewrite Hsame, Hin in *. rewrite Hrun.
      cbn [fst snd]. split; [reflexivity | apply write_file_twice].
    + rewrite Hin, Hrun. cbn [fst snd]. auto.
  - rewrite Hin. cbn [fst snd]. auto.
Qed.

(** ** Proofs: the engine on the world *)

Lemma nth_error_snoc {A : Type} (l : list A) (v : A) :
  nth_error (l ++ [v]) (List.length l) = Some v.
Proof.
  rewrite nth_error_app2 by lia. now rewrite Nat.sub_diag.
Qed.

Lemma update_snoc {A : Type} (l : list A) (v v' : A) :
  update (l ++ [v]) (List.length l) v' = l ++ [v'].
Proof.
  induction l as [| u l IH]; [reflexivity |].
  cbn [app List.length update]. now rewrite IH.
Qed.

(** One step of a computation on the world. *)
Lemma bind_lift {A B : Type} (m : result A) (k : A -> St B) (w : world) :
  (x <~ lift m ;; k x) w
  = match m with
    | Ok a => k a w
    | Raise e => (Raise e, w)
    end.
Proof. unfold st_bind, lift. now destruct m. Qed.

Lemma bind_new_frame {B : Type} (v : DataFrame) (k : ref -> St B) (w : world) :
  (p <~ new_frame v ;; k p) w
  = k (List.length (frames w)) (mkWorld (files w) (frames w ++ [v]) (dicts w)).
Proof. reflexivity. Qed.

Lemma bind_indicators {B : Type} (p : ref) (k : list Series -> St B) (w : world)
  (df : list Series) :
  nth_error (frames w) p = Some (Indicators df) ->
  (cur <~ indicators p ;; k cur) w = k df w.
Proof. intros H. unfold st_bind, indicators. now rewrite H. Qed.

Lemma bind_set_rows {B : Type} (p : ref) (df : list Series) (k : unit -> St B)
  (w : world) :
  (u <~ set_rows p df ;; k u) w
  = k tt (mkWorld (files w) (update (frames w) p (Indicators df)) (dicts w)).
Proof. reflexivity. Qed.

Lemma st_for_each_lift {A B : Type} (body : A -> St B) (f : A -> result B)
  (rows : list A) (w : world) :
  (forall r, body r w = (f r, w)) ->
  st_for_each body rows w = (for_each f rows, w).
Proof.
  intros Hbody. induction rows as [| r rows IH]; [reflexivity |].
  cbn [st_for_each for_each]. unfold st_bind at 1. rewrite Hbody.
  destruct (f r) as [o | e]; cbn [bind]; [| reflexivity].
  unfold st_bind. rewrite IH.
  now destruct (for_each f rows).
Qed.

Lemma Commodities_signal_row_world (name_map : ref) (d : list (string * string))
  (r : Series) (w : world) :
  nth_error (dicts w) name_map = Some d ->
  CommoditiesObjects.signal_row name_map r w = (Commodities.signal_row d r, w).
Proof.
  intros Hd. unfold CommoditiesObjects.signal_row, Commodities.signal_row.
  destruct (Commodities.risk_band _ _ _) as [sl tp].
  unfold st_bind, lift, dict_lookup, ret.
  destruct (Ticker r) as [t |]; cbn [bind]; [| reflexivity].
  rewrite Hd.
  now destruct (Commodities.compute_confidence r).
Qed.

Lemma App_signal_row_world (names : ref) (r : Series) (w : world) :
  nth_error (dicts w) names = Some App.TICKER_NAMES ->
  AppObjects.signal_row names r w = (App.signal_row r, w).
Proof.
  intros Hd. unfold AppObjects.signal_row, App.signal_row.
  unfold st_bind, lift, dict_lookup, ret.
  destruct (Ticker r) as [t |]; cbn [bind]; [| reflexivity].
  destruct (App.compute_confidence r) as [c | e]; cbn [bind]; [| reflexivity].
  destruct (App.risk_band _ _ _) as [sl tp].
  now rewrite Hd.
Qed.

(** What [generate_signals] does to the world: it adds frames, and returns
    the table of the engine in the last of them. *)
Lemma generate_signals_steps (w : world) (df name_map : ref) (t : list Series)
  (d : list (string * string)) :
  nth_error (frames w) df = Some (Indicators t) ->
  nth_error (dicts w) name_map = Some d ->
  CommoditiesObjects.generate_signals df name_map w
  = match Commodities.dropna t with
    | Raise e => (Raise e, w)
    | Ok kept =>
        let table := map Commodities.normalise_ticker kept in
        let made := ((frames w ++ [Indicators table])
                       ++ [Indicators (sort_values table)])
                      ++ [Indicators (latest_snapshot table)] in
        match for_each (Commodities.signal_row d) (latest_snapshot table) with
        | Ok rows => (Ok (List.length made),
                      mkWorld (files w) (made ++ [Signals rows]) (dicts w))
        | Raise e => (Raise e, mkWorld (files w) made (dicts w))
        end
    end.
Proof.
  intros Hdf Hd. unfold CommoditiesObjects.generate_signals.
  rewrite (bind_indicators _ _ _ t Hdf), bind_lift.
  destruct (Commodities.dropna t) as [kept | e]; [| reflexivity].
  cbv zeta. unfold latest_snapshot.
  rewrite bind_new_frame.
  rewrite (bind_indicators _ _ _ kept) by (cbn [frames]; apply nth_error_snoc).
  rewrite bind_set_rows. cbn [files frames dicts]. rewrite update_snoc.
  rewrite (bind_indicators _ _ _ (map Commodities.normalise_ticker kept))
    by (cbn [frames]; apply nth_error_snoc).
  rewrite bind_set_rows. cbn [files frames dicts]. rewrite update_snoc.
  rewrite (bind_indicators _ _ _ (map Commodities.normalise_ticker kept))
    by (cbn [frames]; apply nth_error_snoc).
  rewrite bind_new_frame. cbn [files frames dicts].
  rewrite (bind_indicators _ _ _ (sort_values (map Commodities.normalise_ticker kept)))
    by (cbn [frames]; apply nth_error_snoc).
  rewrite bind_new_frame. cbn [files frames dicts].
  rewrite (bind_indicators _ _ _
             (groupby_last (sort_values (map Commodities.normalise_ticker kept))))
    by (cbn [frames]; apply nth_error_snoc).
  unfold st_bind.
  rewrite (st_for_each_lift _ (Commodities.signal_row d))
    by (intros r; now apply Commodities_signal_row_world).
  now destruct (for_each _ _) as [rows | e].
Qed.

Lemma generate_signals_world (w : world) (df name_map : ref) (t : list Series)
  (d : list (string * string)) :
  nth_error (frames w) df = Some (Indicators t) ->
  nth_error (dicts w) name_map = Some d ->
  let res := CommoditiesObjects.generate_signals df name_map w in
  returns res (Commodities.generate_signals t d)
  /\ files (snd res) = files w
  /\ dicts (snd res) = dicts w
  /\ exists new, frames (snd res) = frames w ++ new.
Proof.
  intros Hdf Hd. cbv zeta.
  rewrite (generate_signals_steps w df name_map t d Hdf Hd).
  unfold Commodities.generate_signals.
  destruct (Commodities.dropna t) as [kept | e]; cbn [bind].
  - cbv zeta. fold (latest_snapshot (map Commodities.normalise_ticker kept)).
    destruct (for_each _ _) as [rows | e]; unfold returns;
      cbn [fst snd files frames dicts].
    + split; [apply nth_error_snoc |].
      split; [reflexivity | split; [reflexivity |]].
      eexists. rewrite <- !app_assoc. reflexivity.
    + split; [reflexivity |].
      split; [reflexivity | split; [reflexivity |]].
      eexists. rewrite <- !app_assoc. reflexivity.
  - unfold returns. cbn [fst snd]. split; [reflexivity |].
    split; [reflexivity | split; [reflexivity |]].
    exists []. now rewrite app_nil_r.
Qed.

Lemma bind_to_csv {B : Type} (p : ref) (path : string) (k : unit -> St B)
  (w : world) (v : DataFrame) :
  nth_error (frames w) p = Some v ->
  (u <~ to_csv p path ;; k u) w
  = k tt (mkWorld (write_file (files w) path (csv_of_frame v)) (frames w) (dicts w)).
Proof. intros H. unfold st_bind, to_csv. now rewrite H. Qed.

(** The steps of the crypto route. *)
Lemma api_compute_signals_steps (w : world) (names : ref) :
  nth_error (dicts w) names = Some App.TICKER_NAMES ->
  AppObjects.api_compute_signals names w
  = match files w App.PROCESSED_FILE with
    | None => (Raise HTTPException404, w)
    | Some (SignalsCsv rows0) =>
        (Raise KeyError, mkWorld (files w) (frames w ++ [Signals rows0]) (dicts w))
    | Some (IndicatorsCsv t) =>
        let made := ((frames w ++ [Indicators t])
                       ++ [Indicators (sort_values t)])
                      ++ [Indicators (latest_snapshot t)] in
        match App.compute_signals t with
        | Ok rows =>
            (Ok (List.length rows),
             mkWorld (write_file (files w) App.SIGNALS_FILE (SignalsCsv rows))
                     (made ++ [Signals rows]) (dicts w))
        | Raise e => (Raise e, mkWorld (files w) made (dicts w))
        end
    end.
Proof.
  intros Hd. unfold AppObjects.api_compute_signals.
  destruct (files w App.PROCESSED_FILE) as [[t | rows0] |]; [| | reflexivity].
  - cbv zeta. unfold App.compute_signals, latest_snapshot.
    rewrite bind_new_frame. cbn [frame_of_csv].
    rewrite (bind_indicators _ _ _ t) by (cbn [frames]; apply nth_error_snoc).
    rewrite bind_new_frame. cbn [files frames dicts].
    rewrite (bind_indicators _ _ _ (sort_values t))
      by (cbn [frames]; apply nth_error_snoc).
    rewrite bind_new_frame. cbn [files frames dicts].
    rewrite (bind_indicators _ _ _ (groupby_last (sort_values t)))
      by (cbn [frames]; apply nth_error_snoc).
    unfold st_bind at 1.
    rewrite (st_for_each_lift _ App.signal_row)
      by (intros r; now apply App_signal_row_world).
    destruct (for_each _ _) as [rows | e]; [| reflexivity].
    rewrite bind_new_frame. cbn [files frames dicts].
    rewrite (bind_to_csv _ _ _ _ (Signals rows))
      by (cbn [frames]; apply nth_error_snoc).
    reflexivity.
  - rewrite bind_new_frame. cbn [frame_of_csv].
    unfold st_bind, indicators. cbn [frames].
    now rewrite nth_error_snoc.
Qed.

(** The steps of the commodities route. *)
Lemma compute_commodities_signals_steps (w : world) (names : ref) :
  nth_error (dicts w) names = Some Commodities.COMMODITY_NAMES ->
  CommoditiesObjects.compute_commodities_signals names w
  = match files w Commodities.COM_PROCESSED_FILE with
    | None => (Raise HTTPException404, w)
    | Some (SignalsCsv rows0) =>
        (Raise KeyError, mkWorld (files w) (frames w ++ [Signals rows0]) (dicts w))
    | Some (IndicatorsCsv t) =>
        match Commodities.dropna t with
        | Raise e =>
            (Raise e, mkWorld (files w) (frames w ++ [Indicators t]) (dicts w))
        | Ok kept =>
            let table := map Commodities.normalise_ticker kept in
            let made := (((frames w ++ [Indicators t]) ++ [Indicators table])
                           ++ [Indicators (sort_values table)])
                          ++ [Indicators (latest_snapshot table)] in
            match for_each (Commodities.signal_row Commodities.COMMODITY_NAMES)
                    (latest_snapshot table) with
            | Ok rows =>
                (Ok (List.length rows),
                 mkWorld (write_file (files w) Commodities.COM_SIGNALS_FILE
                            (SignalsCsv rows))
                         (made ++ [Signals rows]) (dicts w))
            | Raise e => (Raise e, mkWorld (files w) made (dicts w))
            end
        end
    end.
Proof.
  intros Hd. unfold CommoditiesObjects.compute_commodities_signals.
  destruct (files w Commodities.COM_PROCESSED_FILE) as [[t | rows0] |];
    [| | reflexivity].
  - rewrite bind_new_frame. cbn [frame_of_csv]. unfold st_bind at 1.
    rewrite (generate_signals_steps _ _ _ t Commodities.COMMODITY_NAMES)
      by (cbn [frames dicts]; first [apply nth_error_snoc | exact Hd]).
    cbn [files frames dicts].
    destruct (Commodities.dropna t) as [kept | e]; [| reflexivity].
    cbv zeta. destruct (for_each _ _) as [rows | e]; [| reflexivity].
    rewrite (bind_to_csv _ _ _ _ (Signals rows))
      by (cbn [frames]; apply nth_error_snoc).
    unfold len. cbn [files frames dicts csv_of_frame].
    now rewrite nth_error_snoc.
  - rewrite bind_new_frame. cbn [frame_of_csv]. unfold st_bind at 1.
    unfold CommoditiesObjects.generate_signals, st_bind, indicators.
    cbn [frames]. now rewrite nth_error_snoc.
Qed.

(** The crypto route on the world and on the file system. *)
Lemma App_route_world (w : world) (names : ref) :
  nth_error (dicts w) names = Some App.TICKER_NAMES ->
  let res := AppObjects.api_compute_signals names w in
  fst res = snd (App.api_compute_signals (files w))
  /\ (forall p, files (snd res) p = fst (App.api_compute_signals (files w)) p)
  /\ dicts (snd res) = dicts w
  /\ exists new, frames (snd res) = frames w ++ new.
Proof.
  intros Hd. cbv zeta. rewrite (api_compute_signals_steps w names Hd).
  unfold App.api_compute_signals, read_indicators.
  destruct (files w App.PROCESSED_FILE) as [[t | rows0] |]; cbn [bind fst snd].
  - cbv zeta. destruct (App.compute_signals t) as [rows | e];
      cbn [fst snd files frames dicts];
      (split; [reflexivity | split; [reflexivity | split; [reflexivity |]]]);
      eexists; rewrite <- !app_assoc; reflexivity.
  - split; [reflexivity | split; [reflexivity | split; [reflexivity |]]].
    eexists. reflexivity.
  - split; [reflexivity | split; [reflexivity | split; [reflexivity |]]].
    exists []. now rewrite app_nil_r.
Qed.

Lemma Commodities_route_world (w : world) (names : ref) :
  nth_error (dicts w) names = Some Commodities.COMMODITY_NAMES ->
  let res := CommoditiesObjects.compute_commodities_signals names w in
  fst res = snd (Commodities.compute_commodities_signals (files w))
  /\ (forall p, files (snd res) p
                = fst (Commodities.compute_commodities_signals (files w)) p)
  /\ dicts (snd res) = dicts w
  /\ exists new, frames (snd res) = frames w ++ new.
Proof.
  intros Hd. cbv zeta. rewrite (compute_commodities_signals_steps w names Hd).
  unfold Commodities.compute_commodities_signals, read_indicators,
    Commodities.generate_signals.
  destruct (files w Commodities.COM_PROCESSED_FILE) as [[t | rows0] |];
    cbn [bind fst snd].
  - destruct (Commodities.dropna t) as [kept | e]; cbn [bind fst snd].
    + cbv zeta. fold (latest_snapshot (map Commodities.normalise_ticker kept)).
      destruct (for_each _ _) as [rows | e];
        cbn [fst snd files frames dicts];
        (split; [reflexivity | split; [reflexivity | split; [reflexivity |]]]);
        eexists; rewrite <- !app_assoc; reflexivity.
    + split; [reflexivity | split; [reflexivity | split; [reflexivity |]]].
      eexists. reflexivity.
  - split; [reflexivity | split; [reflexivity | split; [reflexivity |]]].
    eexists. reflexivity.
  - split; [reflexivity | split; [reflexivity | split; [reflexivity |]]].
    exists []. now rewrite app_nil_r.
Qed.

(** A route on the file system reads one file and writes another: it gives
    the same on file systems that hold the same files, and leaves every
    file but the one it writes. *)
Lemma App_route_ext (fs fs' : filesystem) :
  (forall p, fs p = fs' p) ->
  snd (App.api_compute_signals fs) = snd (App.api_compute_signals fs')
  /\ forall p, fst (App.api_compute_signals fs) p
               = fst (App.api_compute_signals fs') p.
Proof.
  intros Hfs. unfold App.api_compute_signals, read_indicators.
  rewrite <- (Hfs App.PROCESSED_FILE).
  destruct (fs App.PROCESSED_FILE) as [f |]; cbn [fst snd]; [| auto].
  destruct (df <- match f with
                  | IndicatorsCsv df => Ok df
                  | SignalsCsv _ => Raise KeyError
                  end ;; App.compute_signals df) as [rows | e];
    cbn [fst snd]; [| auto].
  split; [reflexivity |].
  intros p. unfold write_file. now destruct (String.eqb p App.SIGNALS_FILE).
Qed.

Lemma App_route_writes (fs : filesystem) (p : string) :
  p <> App.SIGNALS_FILE -> fst (App.api_compute_signals fs) p = fs p.
Proof.
  intros Hp. apply String.eqb_neq in Hp. unfold App.api_compute_signals.
  destruct (fs App.PROCESSED_FILE); [| reflexivity].
  destruct (df <- read_indicators fs App.PROCESSED_FILE ;; App.compute_signals df);
    [| reflexivity].
  now apply write_file_other.
Qed.

Lemma Commodities_route_ext (fs fs' : filesystem) :
  (forall p, fs p = fs' p) ->
  snd (Commodities.compute_commodities_signals fs)
  = snd (Commodities.compute_commodities_signals fs')
  /\ forall p, fst (Commodities.compute_commodities_signals fs) p
               = fst (Commodities.compute_commodities_signals fs') p.
Proof.
  intros Hfs. unfold Commodities.compute_commodities_signals, read_indicators.
  rewrite <- (Hfs Commodities.COM_PROCESSED_FILE).
  destruct (fs Commodities.COM_PROCESSED_FILE) as [f |]; cbn [fst snd]; [| auto].
  destruct (df <- match f with
                  | IndicatorsCsv df => Ok df
                  | SignalsCsv _ => Raise KeyError
                  end ;; Commodities.generate_signals df Commodities.COMMODITY_NAMES)
    as [rows | e]; cbn [fst snd]; [| auto].
  split; [reflexivity |].
  intros p. unfold write_file.
  now destruct (String.eqb p Commodities.COM_SIGNALS_FILE).
Qed.

Lemma Commodities_route_writes (fs : filesystem) (p : string) :
  p <> Commodities.COM_SIGNALS_FILE ->
  fst (Commodities.compute_commodities_signals fs) p = fs p.
Proof.
  intros Hp. apply String.eqb_neq in Hp.
  unfold Commodities.compute_commodities_signals.
  destruct (fs Commodities.COM_PROCESSED_FILE); [| reflexivity].
  destruct (df <- read_indicators fs Commodities.COM_PROCESSED_FILE ;;
            Commodities.generate_signals df Commodities.COMMODITY_NAMES);
    [| reflexivity].
  now apply write_file_other.
Qed.

(** From one call to two. *)
Lemma route_idempotent_intro (run : St nat)
  (pure : filesystem -> filesystem * result nat) (out : string) (w : world) :
  (forall w', dicts w' = dicts w ->
     fst (run w') = snd (pure (files w'))
     /\ (forall p, files (snd (run w')) p = fst (pure (files w')) p)
     /\ dicts (snd (run w')) = dicts w'
     /\ exists new, frames (snd (run w')) = frames w' ++ new) ->
  (forall fs, snd (pure (fst (pure fs))) = snd (pure fs)
              /\ forall p, fst (pure (fst (pure fs))) p = fst (pure fs) p) ->
  (forall fs fs', (forall p, fs p = fs' p) ->
     snd (pure fs) = snd (pure fs')
     /\ forall p, fst (pure fs) p = fst (pure fs') p) ->
  (forall fs p, p <> out -> fst (pure fs) p = fs p) ->
  route_idempotent run pure out w.
Proof.
  intros Hworld Hidem Hext Hwrites.
  unfold route_idempotent, first_run, second_run.
  destruct (Hworld w eq_refl) as (A1 & F1 & D1 & N1).
  destruct (Hworld (snd (run w)) D1) as (A2 & F2 & D2 & N2).
  destruct (Hext _ _ F1) as (E1 & E2).
  destruct (Hidem (files w)) as (I1 & I2).
  assert (Hsame : forall p, files (snd (run (snd (run w)))) p = files (snd (run w)) p).
  { intros p. now rewrite F2, E2, I2, F1. }
  split; [exact A1 |].
  split; [now rewrite A2, E1, I1, A1 |].
  split; [exact F1 | split; [exact Hsame |]].
  split.
  - split; [exact D1 | split; [exact N1 |]].
    intros p Hp. rewrite F1. apply Hwrites. congruence.
  - split; [exact D2 | split; [exact N2 |]].
    intros p _. apply Hsame.
Qed.

Lemma grown_frame (path : option string) (w w' : world) (p : ref) (v : DataFrame) :
  grown path w w' -> nth_error (frames w) p = Some v ->
  nth_error (frames w') p = Some v.
Proof.
  intros (_ & (new & ->) & _) Hp.
  rewrite nth_error_app1; [exact Hp |].
  apply nth_error_Some. congruence.
Qed.

(** C9.  The engine on the world of files, frames and dicts.  For every
    table and name map, held by the caller as objects, [generate_signals]
    returns the table of the engine in a new frame, and a second run on the
    world the first run left returns the same table (the same rows, with
    the same values, in the same order) or raises the same exception: the
    runs add frames and change nothing else, so the caller's frame, which
    is not the frame line 63 assigns to, and the name map are as they were.
    A second call of either route answers what the first call answered and
    leaves every file as the first call left it; the routes read the
    indicators file only and write the signals file only, and change no
    object of the world. *)
Theorem engine_idempotent (w : world)
  (df name_map ticker_names commodity_names : ref)
  (t : list Series) (d : list (string * string)) :
  nth_error (frames w) df = Some (Indicators t) ->
  nth_error (dicts w) name_map = Some d ->
  nth_error (dicts w) ticker_names = Some App.TICKER_NAMES ->
  nth_error (dicts w) commodity_names = Some Commodities.COMMODITY_NAMES ->
  (let run := CommoditiesObjects.generate_signals df name_map in
   returns (first_run run w) (Commodities.generate_signals t d)
   /\ returns (second_run run w) (Commodities.generate_signals t d)
   /\ grown None w (snd (first_run run w))
   /\ grown None (snd (first_run run w)) (snd (second_run run w))
   /\ nth_error (frames (snd (second_run run w))) df = Some (Indicators t)
   /\ nth_error (dicts (snd (second_run run w))) name_map = Some d)
  /\ route_idempotent (AppObjects.api_compute_signals ticker_names)
       App.api_compute_signals App.SIGNALS_FILE w
  /\ route_idempotent (CommoditiesObjects.compute_commodities_signals commodity_names)
       Commodities.compute_commodities_signals Commodities.COM_SIGNALS_FILE w.
Proof.
  intros Hdf Hd Hticker Hcommodity.
  split; [| split].
  - cbv zeta. unfold first_run, second_run.
    destruct (generate_signals_world w df name_map t d Hdf Hd)
      as (R1 & F1 & D1 & N1).
    set (w1 := snd (CommoditiesObjects.generate_signals df name_map w)) in *.
    assert (G1 : grown None w w1).
    { split; [exact D1 | split; [exact N1 |]]. intros p _. now rewrite F1. }
    assert (Hdf1 : nth_error (frames w1) df = Some (Indicators t))
      by now apply (grown_frame None w).
    assert (Hd1 : nth_error (dicts w1) name_map = Some d) by now rewrite D1.
    destruct (generate_signals_world w1 df name_map t d Hdf1 Hd1)
      as (R2 & F2 & D2 & N2).
    set (w2 := snd (CommoditiesObjects.generate_signals df name_map w1)) in *.
    assert (G2 : grown None w1 w2).
    { split; [exact D2 | split; [exact N2 |]]. intros p _. now rewrite F2. }
    split; [exact R1 | split; [exact R2 | split; [exact G1 | split; [exact G2 |]]]].
    split; [now apply (grown_frame None w1) | now rewrite D2].
  - apply route_idempotent_intro.
    + intros w' Hw'. apply (App_route_world w' ticker_names). now rewrite Hw'.
    + apply App_route_idempotent.
    + apply App_route_ext.
    + apply App_route_writes.
  - apply route_idempotent_intro.
    + intros w' Hw'. apply (Commodities_route_world w' commodity_names).
      now rewrite Hw'.
    + apply Commodities_route_idempotent.
    + apply Commodities_route_ext.
    + apply Commodities_route_writes.
Qed.

Lemma engine_idempotent_witness :
  returns (first_run (CommoditiesObjects.generate_signals 0%nat 1%nat) sample_world)
          (Commodities.generate_signals [scenario_A] Commodities.COMMODITY_NAMES)
  /\ returns (second_run (CommoditiesObjects.generate_signals 0%nat 1%nat) sample_world)
             (Commodities.generate_signals [scenario_A] Commodities.COMMODITY_NAMES)
  /\ route_idempotent (AppObjects.api_compute_signals 0%nat)
       App.api_compute_signals App.SIGNALS_FILE sample_world
  /\ route_idempotent (CommoditiesObjects.compute_commodities_signals 1%nat)
       Commodities.compute_commodities_signals Commodities.COM_SIGNALS_FILE
       sample_world.
Proof.
  destruct (engine_idempotent sample_world 0%nat 1%nat 0%nat 1%nat [scenario_A]
              Commodities.COMMODITY_NAMES eq_refl eq_refl eq_refl eq_refl)
    as ((R1 & R2 & _) & HA & HC).
  auto.
Defined.

(** ** Proofs: the stable sort *)

Section StableSortFacts.

Context {A : Type} (leb : A -> A -> bool).

Hypothesis leb_total : forall a b, leb a b = true \/ leb b a = true.
Hypothesis leb_trans :
  forall a b c, leb a b = true -> leb b c = true -> leb a c = true.

Lemma insert_perm (x : A) (l : list A) : Permutation (insert leb x l) (x :: l).
Proof.
  induction l as [| y l IH]; cbn [insert]; [reflexivity |].
  destruct (leb x y); [reflexivity |].
  rewrite IH. apply perm_swap.
Qed.

Lemma stable_sort_perm (l : list A) : Permutation (stable_sort leb l) l.
Proof.
  induction l as [| x l IH]; cbn [stable_sort]; [reflexivity |].
  rewrite insert_perm. now constructor.
Qed.

Lemma insert_sorted (x : A) (l : list A) :
  sorted_by leb l -> sorted_by leb (insert leb x l).
Proof.
  induction 1 as [| y l Hs IH Hall]; cbn [insert].
  - repeat constructor.
  - destruct (leb x y) eqn:Hxy.
    + constructor; [now constructor |].
      constructor; [exact Hxy |].
      eapply Forall_impl; [| exact Hall].
      intros z Hz. now apply leb_trans with y.
    + constructor; [exact IH |].
      apply Permutation_Forall with (x :: l).
      * symmetry. apply insert_perm.
      * constructor; [| exact Hall].
        destruct (leb_total x y) as [H | H]; [congruence | exact H].
Qed.

Lemma stable_sort_sorted (l : list A) : sorted_by leb (stable_sort leb l).
Proof.
unfold sorted_by.
  induction l as [| x l IH]; cbn [stable_sort]; [constructor |].
  now apply insert_sorted.
Qed.

(** Sorting and then keeping the elements of a class [P] is keeping them
    and then sorting, by any order that is [leb] within the class. *)
Variable P : A -> bool.
Variable leb' : A -> A -> bool.
Hypothesis leb_agree :
  forall a b, P a = true -> P b = true -> leb' a b = leb a b.

Lemma insert_in_front (x : A) (l : list A) :
  Forall (fun z => leb' x z = true) l -> insert leb' x l = x :: l.
Proof.
  destruct 1 as [| z l Hz _]; cbn [insert]; [reflexivity |].
  now rewrite Hz.
Qed.

Lemma filter_insert_out (x : A) (l : list A) :
  P x = false -> filter P (insert leb x l) = filter P l.
Proof.
  intros Hx. induction l as [| y l IH]; cbn [insert filter].
  - now rewrite Hx.
  - destruct (leb x y); cbn [filter]; rewrite ?Hx, ?IH; reflexivity.
Qed.

Lemma filter_insert_in (x : A) (l : list A) :
  P x = true -> sorted_by leb l ->
  filter P (insert leb x l) = insert leb' x (filter P l).
Proof.
  intros Hx. induction 1 as [| y l Hs IH Hall]; cbn [insert filter].
  - now rewrite Hx.
  - destruct (leb x y) eqn:Hxy; cbn [filter]; rewrite ?Hx.
    + destruct (P y) eqn:Hy.
      * cbn [insert]. now rewrite (leb_agree x y Hx Hy), Hxy.
      * symmetry. apply insert_in_front.
        apply Forall_forall. intros z Hz.
        apply filter_In in Hz. destruct Hz as [Hin Hpz].
        rewrite (leb_agree x z Hx Hpz).
        apply leb_trans with y; [exact Hxy |].
        rewrite Forall_forall in Hall. now apply Hall.
    + destruct (P y) eqn:Hy.
      * cbn [insert]. rewrite (leb_agree x y Hx Hy), Hxy. now rewrite IH.
      * exact IH.
Qed.

Lemma filter_stable_sort (l : list A) :
  filter P (stable_sort leb l) = stable_sort leb' (filter P l).
Proof.
  induction l as [| x l IH]; cbn [stable_sort filter]; [reflexivity |].
  destruct (P x) eqn:Hx.
  - rewrite filter_insert_in by (assumption || apply stable_sort_sorted).
    cbn [stable_sort]. now rewrite IH.
  - now rewrite filter_insert_out.
Qed.

End StableSortFacts.

Lemma stable_sort_trivial {A : Type} (l : list A) :
  stable_sort (fun _ _ => true) l = l.
Proof.
  induction l as [| x l IH]; cbn [stable_sort]; [reflexivity |].
  rewrite IH. now destruct l.
Qed.

(** ** Proofs: the order of the keys *)

Section CompareFacts.

Context {A : Type} (cmp : A -> A -> comparison).

Hypothesis cmp_antisym : forall a b, cmp a b = CompOpp (cmp b a).
Hypothesis cmp_eq : forall a b c, cmp a b = Eq -> cmp a c = cmp b c.
Hypothesis cmp_lt : forall a b c, cmp a b = Lt -> cmp b c = Lt -> cmp a c = Lt.

Lemma not_gt_total (a b : A) :
  not_gt (cmp a b) = true \/ not_gt (cmp b a) = true.
Proof.
  rewrite (cmp_antisym b a). destruct (cmp a b); simpl; auto.
Qed.

Lemma not_gt_trans (a b c : A) :
  not_gt (cmp a b) = true -> not_gt (cmp b c) = true -> not_gt (cmp a c) = true.
Proof.
  destruct (cmp a b) eqn:Hab; [| | discriminate]; intros _.
  - now rewrite (cmp_eq a b c Hab).
  - destruct (cmp b c) eqn:Hbc; [| | discriminate]; intros _.
    + pose proof (cmp_eq b c a Hbc) as H.
      rewrite (cmp_antisym b a), (cmp_antisym c a), Hab in H.
      destruct (cmp a c); simpl in *; congruence.
    + now rewrite (cmp_lt a b c Hab Hbc).
Qed.

End CompareFacts.

Lemma str_compare_refl (s : string) : String_as_OT.compare s s = Eq.
Proof.
  destruct (String_as_OT.compare_spec s s) as [_ | H | H]; [reflexivity | |];
    exfalso; eapply (StrictOrder_Irreflexive (R := String_as_OT.lt)); exact H.
Qed.

Lemma str_compare_eq (a b : string) : String_as_OT.compare a b = Eq -> a = b.
Proof.
  destruct (String_as_OT.compare_spec a b); [auto | discriminate | discriminate].
Qed.

Lemma str_compare_lt_trans (a b c : string) :
  String_as_OT.compare a b = Lt -> String_as_OT.compare b c = Lt ->
  String_as_OT.compare a c = Lt.
Proof.
  intros Hab Hbc.
  exact (StrictOrder_Transitive (R := String_as_OT.lt) a b c Hab Hbc).
Qed.

Lemma str_compare_antisym (a b : string) :
  String_as_OT.compare a b = CompOpp (String_as_OT.compare b a).
Proof.
  destruct (String_as_OT.compare_spec a b) as [-> | Hab | Hba].
  - now rewrite str_compare_refl.
  - destruct (String_as_OT.compare b a) eqn:Hc; [| | reflexivity].
    + apply str_compare_eq in Hc. subst b.
      exfalso. eapply (StrictOrder_Irreflexive (R := String_as_OT.lt)); exact Hab.
    + exfalso. eapply (StrictOrder_Irreflexive (R := String_as_OT.lt)).
      exact (str_compare_lt_trans a b a Hab Hc).
  - unfold String_as_OT.lt in Hba. now rewrite Hba.
Qed.

Lemma key_compare_refl (a : option string) : key_compare a a = Eq.
Proof. destruct a; [apply str_compare_refl | reflexivity]. Qed.

Lemma key_compare_eq (a b : option string) : key_compare a b = Eq -> a = b.
Proof.
  destruct a, b; cbn [key_compare]; try discriminate; [| reflexivity].
  intros H. f_equal. now apply str_compare_eq.
Qed.

Lemma key_compare_antisym (a b : option string) :
  key_compare a b = CompOpp (key_compare b a).
Proof. destruct a, b; try reflexivity. apply str_compare_antisym. Qed.

Lemma key_compare_lt_trans (a b c : option string) :
  key_compare a b = Lt -> key_compare b c = Lt -> key_compare a c = Lt.
Proof.
  destruct a, b, c; cbn [key_compare]; try discriminate; try reflexivity.
  apply str_compare_lt_trans.
Qed.

Lemma row_compare_antisym (a b : Series) :
  row_compare a b = CompOpp (row_compare b a).
Proof.
  unfold row_compare.
  rewrite (key_compare_antisym (Ticker a) (Ticker b)),
    (key_compare_antisym (Date a) (Date b)).
  destruct (key_compare (Ticker b) (Ticker a)); reflexivity.
Qed.

Lemma row_compare_eq (a b c : Series) :
  row_compare a b = Eq -> row_compare a c = row_compare b c.
Proof.
  unfold row_compare.
  destruct (key_compare (Ticker a) (Ticker b)) eqn:Ht; try discriminate.
  intros Hd. apply key_compare_eq in Ht, Hd. now rewrite Ht, Hd.
Qed.

Lemma row_compare_lt (a b c : Series) :
  row_compare a b = Lt -> row_compare b c = Lt -> row_compare a c = Lt.
Proof.
  unfold row_compare.
  destruct (key_compare (Ticker a) (Ticker b)) eqn:Hab; try discriminate;
    destruct (key_compare (Ticker b) (Ticker c)) eqn:Hbc; try discriminate;
    intros H1 H2.
  - apply key_compare_eq in Hab, Hbc. rewrite Hab, Hbc, key_compare_refl.
    exact (key_compare_lt_trans _ _ _ H1 H2).
  - apply key_compare_eq in Hab. now rewrite Hab, Hbc.
  - apply key_compare_eq in Hbc. now rewrite <- Hbc, Hab.
  - now rewrite (key_compare_lt_trans _ _ _ Hab Hbc).
Qed.

Lemma row_leb_total (a b : Series) : row_leb a b = true \/ row_leb b a = true.
Proof. apply not_gt_total. apply row_compare_antisym. Qed.

Lemma row_leb_trans (a b c : Series) :
  row_leb a b = true -> row_leb b c = true -> row_leb a c = true.
Proof.
  apply (not_gt_trans row_compare);
    [apply row_compare_antisym | apply row_compare_eq | apply row_compare_lt].
Qed.

Lemma date_leb_total (a b : Series) : date_leb a b = true \/ date_leb b a = true.
Proof.
  apply (not_gt_total (fun a b => key_compare (Date a) (Date b))).
  intros; apply key_compare_antisym.
Qed.

Lemma date_leb_trans (a b c : Series) :
  date_leb a b = true -> date_leb b c = true -> date_leb a c = true.
Proof.
  apply (not_gt_trans (fun a b => key_compare (Date a) (Date b))).
  - intros; apply key_compare_antisym.
  - intros x y z H. apply key_compare_eq in H. now rewrite H.
  - intros x y z. apply key_compare_lt_trans.
Qed.

Lemma str_leb_total (a b : string) : str_leb a b = true \/ str_leb b a = true.
Proof. apply not_gt_total. apply str_compare_antisym. Qed.

(** Within one ticker, the order of the rows is the order of their dates. *)
Lemma row_leb_same_ticker (t : string) (a b : Series) :
  has_ticker t a = true -> has_ticker t b = true -> date_leb a b = row_leb a b.
Proof.
  unfold has_ticker, date_leb, row_leb, row_compare.
  destruct (Ticker a) as [ta |]; [| discriminate].
  destruct (Ticker b) as [tb |]; [| discriminate].
  intros Ha Hb. apply String.eqb_eq in Ha, Hb. subst ta tb.
  cbn [key_compare]. now rewrite str_compare_refl.
Qed.

(** The rows of one ticker come out of [sort_values] in the order of their
    dates, rows of one date in the order they had. *)
Lemma sort_values_group (t : string) (df : list Series) :
  filter (has_ticker t) (sort_values df)
  = stable_sort date_leb (filter (has_ticker t) df).
Proof.
  apply filter_stable_sort.
  - apply row_leb_total.
  - apply row_leb_trans.
  - apply row_leb_same_ticker.
Qed.

(** ** Proofs: the latest-snapshot selector *)

Lemma find_app {A : Type} (f : A -> bool) (l1 l2 : list A) :
  find f (l1 ++ l2) = match find f l1 with
                      | Some v => Some v
                      | None => find f l2
                      end.
Proof.
  induction l1 as [| x l1 IH]; cbn [app find]; [reflexivity |].
  now destruct (f x).
Qed.

Lemma fold_left_last_cell {A : Type} (valid : A -> bool) (cells : list A) :
  forall held, fold_left (last_cell valid) cells held = last_valid valid cells held.
Proof.
  unfold last_valid.
  induction cells as [| c cells IH]; intros held; cbn [fold_left rev]; [reflexivity |].
  rewrite IH, find_app. cbn [find]. unfold last_cell.
  destruct (find valid (rev cells)); [reflexivity |].
  now destruct (valid c).
Qed.

Lemma last_valid_last {A : Type} (valid : A -> bool) (cells : list A) (d : A) :
  valid (last cells d) = true -> last_valid valid cells d = last cells d.
Proof.
  unfold last_valid.
  destruct cells as [| c cells] using rev_ind; [reflexivity |].
  rewrite last_last, rev_app_distr. cbn [rev app find].
  now intros ->.
Qed.

Lemma last_map {A B : Type} (f : A -> B) (l : list A) (d : A) :
  last (map f l) (f d) = f (last l d).
Proof.
  induction l as [| x l IH]; [reflexivity |].
  cbn [map]. destruct l as [| y l]; [reflexivity |].
  exact IH.
Qed.

Lemma agg_last_Ticker (g : list Series) :
  forall r, Ticker (fold_left agg_last g r) = Ticker r.
Proof.
  induction g as [| x g IH]; intros r; cbn [fold_left]; [reflexivity |].
  now rewrite IH.
Qed.

Lemma agg_last_Date (g : list Series) :
  forall r, Date (fold_left agg_last g r) = last_valid notna_str (map Date g) (Date r).
Proof.
  intros r. rewrite <- fold_left_last_cell. revert r.
  induction g as [| x g IH]; intros r; cbn [fold_left map]; [reflexivity |].
  now rewrite IH.
Qed.

Lemma agg_last_column (k : key) (g : list Series) :
  forall r, column (fold_left agg_last g r) k
            = last_valid notna (map (fun x => column x k) g) (column r k).
Proof.
  intros r. rewrite <- fold_left_last_cell. revert r.
  induction g as [| x g IH]; intros r; cbn [fold_left map]; [reflexivity |].
  rewrite IH. now destruct k.
Qed.

Lemma tickers_In (t : string) (df : list Series) :
  In t (tickers df) <-> In (Some t) (map Ticker df).
Proof.
  induction df as [| r df IH]; cbn [tickers map In]; [tauto |].
  destruct (Ticker r) as [t' |]; cbn [In]; rewrite IH; intuition congruence.
Qed.

Lemma group_keys_In (t : string) (df : list Series) :
  In t (group_keys df) <-> In (Some t) (map Ticker df).
Proof.
  unfold group_keys. split; intros H.
  - apply tickers_In. apply (nodup_In string_dec).
    eapply Permutation_in; [apply stable_sort_perm | exact H].
  - eapply Permutation_in; [symmetry; apply stable_sort_perm |].
    apply (nodup_In string_dec). now apply tickers_In.
Qed.

Lemma group_keys_NoDup (df : list Series) : NoDup (group_keys df).
Proof.
  unfold group_keys.
  apply Permutation_NoDup with (nodup string_dec (tickers df)).
  - symmetry. apply stable_sort_perm.
  - apply NoDup_nodup.
Qed.

Lemma has_ticker_iff (t : string) (r : Series) :
  has_ticker t r = true <-> Ticker r = Some t.
Proof.
  unfold has_ticker. destruct (Ticker r) as [t' |].
  - rewrite String.eqb_eq. split; congruence.
  - split; discriminate.
Qed.

Lemma group_nonempty (t : string) (df : list Series) :
  In (Some t) (map Ticker df) ->
  exists r g, filter (has_ticker t) df = r :: g /\ Ticker r = Some t.
Proof.
  intros Hin. apply in_map_iff in Hin. destruct Hin as (x & Hx & Hin).
  assert (Hf : In x (filter (has_ticker t) df)).
  { apply filter_In. split; [assumption | now apply has_ticker_iff]. }
  destruct (filter (has_ticker t) df) as [| r g] eqn:Hg; [destruct Hf |].
  exists r, g. split; [reflexivity |].
  apply has_ticker_iff.
  assert (Hr : In r (filter (has_ticker t) df)) by (rewrite Hg; now left).
  now apply filter_In in Hr.
Qed.

(** The rows that [last] makes of the group of [t'], seen from ticker [t]. *)
Lemma group_last_filter (t t' : string) (df : list Series) :
  filter (has_ticker t) (group_last (filter (has_ticker t') df))
  = if String.eqb t t' then group_last (filter (has_ticker t') df) else [].
Proof.
  destruct (filter (has_ticker t') df) as [| r g] eqn:Hg.
  - cbn [group_last filter]. now destruct (String.eqb t t').
  - cbn [group_last filter].
    assert (Hr : Ticker r = Some t').
    { apply has_ticker_iff.
      assert (H : In r (filter (has_ticker t') df)) by (rewrite Hg; now left).
      now apply filter_In in H. }
    unfold has_ticker at 1. rewrite agg_last_Ticker, Hr.
    now destruct (String.eqb t t').
Qed.

Lemma flat_map_filter_key (t : string) (df : list Series) (keys : list string) :
  NoDup keys ->
  filter (has_ticker t)
    (flat_map (fun t' => group_last (filter (has_ticker t') df)) keys)
  = if in_dec string_dec t keys
    then group_last (filter (has_ticker t) df) else [].
Proof.
  induction 1 as [| k keys Hk Hnd IH]; [reflexivity |].
  cbn [flat_map]. rewrite filter_app, group_last_filter, IH.
  destruct (String.eqb_spec t k) as [-> | Hne].
  - destruct (in_dec string_dec k keys) as [Hin | _]; [contradiction |].
    destruct (in_dec string_dec k (k :: keys)) as [_ | Hout];
      [apply app_nil_r | exfalso; apply Hout; now left].
  - cbn [app].
    destruct (in_dec string_dec t keys) as [Hin | Hout],
             (in_dec string_dec t (k :: keys)) as [Hin' | Hout'];
      try reflexivity.
    + exfalso. apply Hout'. now right.
    + destruct Hin' as [-> | Hin']; [now contradiction Hne | contradiction].
Qed.

Lemma groupby_last_group (t : string) (df : list Series) :
  In (Some t) (map Ticker df) ->
  filter (has_ticker t) (groupby_last df) = group_last (filter (has_ticker t) df).
Proof.
  intros Hin. unfold groupby_last.
  rewrite flat_map_filter_key by apply group_keys_NoDup.
  destruct (in_dec string_dec t (group_keys df)) as [_ | Hout]; [reflexivity |].
  exfalso. apply Hout. now apply group_keys_In.
Qed.

Lemma groupby_last_tickers (df : list Series) :
  map Ticker (groupby_last df) = map Some (group_keys df).
Proof.
  unfold groupby_last.
  assert (H : forall t, In t (group_keys df) -> In (Some t) (map Ticker df))
    by (intros t; apply group_keys_In).
  induction (group_keys df) as [| k keys IH]; [reflexivity |].
  cbn [flat_map map]. rewrite map_app, IH by (intros t Ht; apply H; now right).
  destruct (group_nonempty k df) as (r & g & -> & Hr); [apply H; now left |].
  cbn [group_last map app]. now rewrite agg_last_Ticker, Hr.
Qed.

Lemma sort_values_tickers (t : string) (df : list Series) :
  In (Some t) (map Ticker (sort_values df)) <-> In (Some t) (map Ticker df).
Proof.
  split; apply Permutation_in; apply Permutation_map;
    [| symmetry]; apply stable_sort_perm.
Qed.

Lemma Series_ext (a b : Series) :
  Ticker a = Ticker b -> Date a = Date b ->
  (forall k, column a k = column b k) -> a = b.
Proof.
  intros Ht Hd Hc. destruct a, b. cbn in Ht, Hd. subst.
  pose proof (Hc Close) as H1. pose proof (Hc EMA_20) as H2.
  pose proof (Hc MACD) as H3. pose proof (Hc RSI_14) as H4.
  pose proof (Hc ATR) as H5. pose proof (Hc Vol_Ratio) as H6.
  cbn in H1, H2, H3, H4, H5, H6. now subst.
Qed.

Lemma complete_cells (r : Series) :
  complete r = true ->
  notna_str (Date r) = true /\ forall k, notna (column r k) = true.
Proof.
  unfold complete. rewrite !andb_true_iff.
  intros ((((((Hd & H1) & H2) & H3) & H4) & H5) & H6).
  split; [assumption |]. now intros [].
Qed.

Lemma last_In {A : Type} (l : list A) (d : A) : In (last l d) (d :: l).
Proof.
  destruct l as [| x l _] using rev_ind; [now left |].
  rewrite last_last. right. apply in_or_app. right. now left.
Qed.

(** A group whose last row is complete yields that row. *)
Lemma group_last_complete (r0 : Series) (g : list Series) :
  Ticker (last g r0) = Ticker r0 ->
  complete (last g r0) = true ->
  fold_left agg_last g r0 = last g r0.
Proof.
  intros Ht Hc. apply complete_cells in Hc. destruct Hc as [Hd Hk].
  apply Series_ext.
  - now rewrite agg_last_Ticker.
  - rewrite agg_last_Date, last_valid_last; rewrite last_map; [reflexivity | exact Hd].
  - intros k. rewrite agg_last_column.
    rewrite last_valid_last; rewrite (last_map (fun x => column x k)); [reflexivity |].
    apply Hk.
Qed.

(** C2, the counterexample: of two snapshots of one ticker, the later one
    with an empty [MACD] cell, the selector makes a row that is neither. *)
Lemma latest_snapshot_merges_rows :
  latest_snapshot [snapshot_day1; snapshot_day2] = [snapshot_merged]
  /\ last (stable_sort date_leb [snapshot_day1; snapshot_day2]) snapshot_day1
     = snapshot_day2
  /\ ~ In snapshot_merged [snapshot_day1; snapshot_day2].
Proof.
  split; [reflexivity | split; [reflexivity |]].
  intros [H | [H | []]]; discriminate H.
Qed.

(** C2, as the code has it.  The selector returns one row for each ticker
    of the table and no other row.  With the rows of a ticker in the order
    of their dates, rows of one date in the order they had, each cell of the
    returned row is the last cell of its column that is not empty, and the
    column's first cell when all are empty; the returned row is the last row
    of the group when that row has no empty cell. *)
Theorem latest_snapshot_spec (df : list Series) :
  NoDup (map Ticker (latest_snapshot df))
  /\ (forall key, In key (map Ticker (latest_snapshot df))
                  <-> exists t, key = Some t /\ In (Some t) (map Ticker df))
  /\ forall t,
       In (Some t) (map Ticker df) ->
       exists r0 g o,
         stable_sort date_leb (filter (has_ticker t) df) = r0 :: g
         /\ filter (has_ticker t) (latest_snapshot df) = [o]
         /\ Ticker o = Some t
         /\ Date o = last_valid notna_str (map Date g) (Date r0)
         /\ (forall k, column o k
                       = last_valid notna (map (fun x => column x k) g) (column r0 k))
         /\ (complete (last g r0) = true -> o = last g r0).
Proof.
  unfold latest_snapshot.
  split; [| split].
  - rewrite groupby_last_tickers.
    apply Finite.Injective_map_NoDup; [| apply group_keys_NoDup].
    intros x y H. now injection H.
  - intros key. rewrite groupby_last_tickers, in_map_iff. split.
    + intros (t & <- & Ht). exists t. split; [reflexivity |].
      now apply sort_values_tickers, group_keys_In.
    + intros (t & -> & Ht). exists t. split; [reflexivity |].
      now apply group_keys_In, sort_values_tickers.
  - intros t Hin.
    rewrite groupby_last_group by now apply sort_values_tickers.
    rewrite sort_values_group.
    destruct (group_nonempty t df Hin) as (x & xs & Hg & _).
    pose proof (stable_sort_perm date_leb (filter (has_ticker t) df)) as Hperm.
    assert (Hall : forall r, In r (stable_sort date_leb (filter (has_ticker t) df)) ->
                             Ticker r = Some t).
    { intros r Hr. apply has_ticker_iff.
      apply (Permutation_in _ Hperm) in Hr. now apply filter_In in Hr. }
    destruct (stable_sort date_leb (filter (has_ticker t) df)) as [| r0 g] eqn:Hs.
    { rewrite Hg in Hperm. apply Permutation_nil in Hperm. discriminate. }
    exists r0, g, (fold_left agg_last g r0).
    split; [reflexivity | split; [reflexivity |]].
    split; [rewrite agg_last_Ticker; apply Hall; now left |].
    split; [apply agg_last_Date |].
    split; [intros k; apply agg_last_column |].
    intros Hc. apply group_last_complete; [| exact Hc].
    rewrite (Hall r0) by now left.
    apply Hall. apply last_In.
Qed.

Lemma latest_snapshot_spec_witness :
  exists r0 g o,
    stable_sort date_leb
      (filter (has_ticker "BTC-USD") [snapshot_day2; snapshot_day1]) = r0 :: g
    /\ filter (has_ticker "BTC-USD") (latest_snapshot [snapshot_day2; snapshot_day1])
       = [o]
    /\ Ticker o = Some "BTC-USD"%string
    /\ Date o = last_valid notna_str (map Date g) (Date r0)
    /\ (forall k, column o k
                  = last_valid notna (map (fun x => column x k) g) (column r0 k))
    /\ (complete (last g r0) = true -> o = last g r0).
Proof.
  apply (proj2 (proj2 (latest_snapshot_spec [snapshot_day2; snapshot_day1]))).
  simpl. now left.
Defined.

(** ** The order [sort_values] leaves a table in *)

Lemma sort_values_perm (df : list Series) : Permutation (sort_values df) df.
Proof. apply stable_sort_perm. Qed.

Lemma sort_values_sorted (df : list Series) :
  sorted_by row_leb (sort_values df).
Proof.
  apply stable_sort_sorted; [apply row_leb_total | apply row_leb_trans].
Qed.

Lemma date_sort_sorted (g : list Series) :
  sorted_by date_leb (stable_sort date_leb g).
Proof.
  apply stable_sort_sorted; [apply date_leb_total | apply date_leb_trans].
Qed.

(** Rows of one date keep the order they had. *)
Lemma date_sort_stable (d : option string) (g : list Series) :
  filter (date_is d) (stable_sort date_leb g) = filter (date_is d) g.
Proof.
  rewrite (filter_stable_sort date_leb date_leb_total date_leb_trans
             (date_is d) (fun _ _ => true)).
  - apply stable_sort_trivial.
  - intros a b Ha Hb. unfold date_is in Ha, Hb. unfold date_leb.
    destruct (key_compare (Date a) d) eqn:Ea; try discriminate.
    destruct (key_compare (Date b) d) eqn:Eb; try discriminate.
    apply key_compare_eq in Ea, Eb. subst d. rewrite Eb.
    now rewrite key_compare_refl.
Qed.

(** ** Further properties of the scorer and the classifier *)

Lemma safe_val_col (row : Series) (k : key) (d : float) (x : R) :
  column row k = Some (Fin x) -> x <> 0 -> App.safe_val row k d = Fin x.
Proof.
  intros Hc Hx. unfold App.safe_val, get. rewrite Hc. now apply py_or_nonzero.
Qed.

Lemma safe_val_col_zero (row : Series) (k : key) (d : float) :
  column row k = Some (Fin 0) -> App.safe_val row k d = d.
Proof.
  intros Hc. unfold App.safe_val, get. rewrite Hc. apply py_or_zero.
Qed.

Lemma safe_val_col_none (row : Series) (k : key) (d : float) :
  column row k = None -> App.safe_val row k d = d.
Proof.
  intros Hc. unfold App.safe_val, get. rewrite Hc. apply py_or_same.
Qed.

Lemma safe_val_col_nan (row : Series) (k : key) (d : float) :
  column row k = Some NaN -> App.safe_val row k d = NaN.
Proof.
  intros Hc. unfold App.safe_val, get. now rewrite Hc.
Qed.

(** With a default that is a number, [safe_val] is NaN only on a NaN cell. *)
Lemma safe_val_default_fin (row : Series) (k : key) (d : R) :
  nan_cell row k = false -> exists x, App.safe_val row k (Fin d) = Fin x.
Proof.
  unfold nan_cell. intros Hn.
  destruct (column row k) as [[| x] |] eqn:Hc; [discriminate | |].
  - destruct (Req_dec_T x 0) as [-> | Hx].
    + exists d. now apply safe_val_col_zero.
    + exists x. now apply safe_val_col.
  - exists d. now apply safe_val_col_none.
Qed.

Lemma safe_val_nan_cell (row : Series) (k : key) (d : float) :
  nan_cell row k = true -> App.safe_val row k d = NaN.
Proof.
  unfold nan_cell. intros Hn. apply safe_val_col_nan.
  destruct (column row k) as [[| x] |]; try discriminate. reflexivity.
Qed.

(** Without a price, [safe_val] gives NaN for it. *)
Lemma safe_val_no_price (row : Series) :
  match column row Close with
  | Some (Fin x) => x = 0
  | _ => True
  end ->
  App.safe_val row Close NaN = NaN.
Proof.
  destruct (column row Close) as [[| x] |] eqn:Hc; intros H.
  - now apply safe_val_col_nan.
  - subst x. now apply safe_val_col_zero.
  - now apply safe_val_col_none.
Qed.

Lemma compute_confidence_scores (row : Series) (t m s v : float) :
  App.trend_score (App.safe_val row Close NaN) (App.safe_val row EMA_20 NaN) = Ok t ->
  App.macd_score (App.safe_val row MACD (Fin 0)) (App.safe_val row Close NaN) = Ok m ->
  App.rsi_score (App.safe_val row RSI_14 (Fin 50)) = Ok s ->
  App.vol_score (App.safe_val row Vol_Ratio (Fin 1)) = Ok v ->
  App.compute_confidence row
  = Ok (App.clamp01 (fadd (Fin 0.50) (fmul (Fin 0.50) (App.weighted_sum t m s v)))).
Proof.
  intros Ht Hm Hs Hv. unfold App.compute_confidence.
  now rewrite Ht, Hm, Hs, Hv.
Qed.

Lemma confidence_nan_score (t m s v : float) :
  t = NaN \/ m = NaN \/ s = NaN \/ v = NaN ->
  App.clamp01 (fadd (Fin 0.50) (fmul (Fin 0.50) (App.weighted_sum t m s v))) = NaN.
Proof.
  intros H. destruct t, m, s, v; try reflexivity.
  destruct H as [H | [H | [H | H]]]; discriminate H.
Qed.

Lemma rsi_score_number (x : R) : exists s, App.rsi_score (Fin x) = Ok (Fin s).
Proof.
  rewrite rsi_score_fin.
  destruct (clamp01_range (1 - Rabs (x - 50) / 60)) as (c & -> & _).
  now exists c.
Qed.

(** A confidence that is a number comes from four sub-scores that are
    numbers. *)
Lemma compute_confidence_inv (row : Series) (c : R) :
  App.compute_confidence row = Ok (Fin c) ->
  exists t m s v,
    App.trend_score (App.safe_val row Close NaN) (App.safe_val row EMA_20 NaN)
    = Ok (Fin t)
    /\ App.macd_score (App.safe_val row MACD (Fin 0)) (App.safe_val row Close NaN)
       = Ok (Fin m)
    /\ App.rsi_score (App.safe_val row RSI_14 (Fin 50)) = Ok (Fin s)
    /\ App.vol_score (App.safe_val row Vol_Ratio (Fin 1)) = Ok (Fin v)
    /\ c = 0.5 + 0.5 * (0.45 * t + 0.25 * m + 0.20 * s + 0.10 * v).
Proof.
  intros H. pose proof H as H0. unfold App.compute_confidence in H.
  destruct (App.trend_score _ _) as [t |] eqn:Ht; cbn [bind] in H; [| discriminate].
  destruct (App.macd_score _ _) as [m |] eqn:Hm; cbn [bind] in H; [| discriminate].
  destruct (App.rsi_score _) as [s |] eqn:Hs; cbn [bind] in H; [| discriminate].
  destruct (App.vol_score _) as [v |] eqn:Hv; cbn [bind] in H; [| discriminate].
  destruct t as [| t]; [now rewrite confidence_nan_score in H by auto |].
  destruct m as [| m]; [now rewrite confidence_nan_score in H by auto |].
  destruct s as [| s]; [now rewrite confidence_nan_score in H by auto |].
  destruct v as [| v]; [now rewrite confidence_nan_score in H by auto |].
  exists t, m, s, v. repeat split.
  rewrite (compute_confidence_of_scores row t m s v Ht Hm Hs Hv) in H0.
  now injection H0.
Qed.

Lemma trend_score_number (c e : float) :
  e <> Fin (- 1e-9) -> exists t, App.trend_score c e = Ok (Fin t).
Proof.
  intros He. destruct c as [| c]; [now exists 0.5 |].
  destruct e as [| e]; [exists 0.5; apply trend_score_nan_ema20 |].
  eexists. apply trend_score_fin.
  intros H0. apply He. f_equal. lra.
Qed.

Lemma vol_score_nan : App.vol_score NaN = Ok NaN.
Proof. reflexivity. Qed.

(** Without a price the confidence is NaN, whatever the other cells hold. *)
Lemma compute_confidence_no_price (row : Series) :
  App.safe_val row Close NaN = NaN -> App.compute_confidence row = Ok NaN.
Proof.
  intros Hc.
  destruct (rsi_score_ok (App.safe_val row RSI_14 (Fin 50))) as (s & Hs).
  rewrite (compute_confidence_scores row (Fin 0.5) NaN s
             (App.clamp01 (App.sigmoid (App.safe_val row Vol_Ratio (Fin 1))))).
  - now rewrite confidence_nan_score by auto.
  - now rewrite Hc.
  - rewrite Hc. apply macd_score_nan_close.
  - exact Hs.
  - reflexivity.
Qed.

(** X1.  What [compute_confidence] answers is decided by the cells of the
    row: NaN without a price (no [Close], an empty one, or zero); else
    [ZeroDivisionError] for [EMA_20 = -1e-9]; else NaN for an empty [MACD],
    [RSI_14] or [Vol_Ratio] cell; else a number between 0.5 and 1. *)
Theorem confidence_outcome (row : Series) :
  match confidence_case_of row with
  | Raises => App.compute_confidence row = Raise ZeroDivisionError
  | GivesNaN => App.compute_confidence row = Ok NaN
  | GivesNumber =>
      exists c, App.compute_confidence row = Ok (Fin c) /\ 0.5 <= c <= 1
  end.
Proof.
  unfold confidence_case_of.
  destruct (column row Close) as [[| x] |] eqn:Hclose;
    try (apply compute_confidence_no_price, safe_val_no_price;
         now rewrite Hclose).
  destruct (Req_dec_T x 0) as [Hx | Hx].
  { apply compute_confidence_no_price, safe_val_no_price. now rewrite Hclose. }
  pose proof (safe_val_col row Close NaN x Hclose Hx) as Hc.
  assert (Hrest :
    App.safe_val row EMA_20 NaN <> Fin (- 1e-9) ->
    match (if nan_cell row MACD || nan_cell row RSI_14 || nan_cell row Vol_Ratio
           then GivesNaN else GivesNumber) with
    | Raises => App.compute_confidence row = Raise ZeroDivisionError
    | GivesNaN => App.compute_confidence row = Ok NaN
    | GivesNumber =>
        exists c, App.compute_confidence row = Ok (Fin c) /\ 0.5 <= c <= 1
    end).
  { intros Hema.
    destruct (trend_score_number (Fin x) _ Hema) as (t & Ht).
    destruct (nan_cell row MACD) eqn:Nm; cbn [orb].
    { destruct (rsi_score_ok (App.safe_val row RSI_14 (Fin 50))) as (s & Hs).
      rewrite (compute_confidence_scores row (Fin t) NaN s
                 (App.clamp01 (App.sigmoid (App.safe_val row Vol_Ratio (Fin 1))))).
      - now rewrite confidence_nan_score by auto.
      - now rewrite Hc.
      - rewrite (safe_val_nan_cell row MACD) by assumption.
        apply macd_score_nan_macd.
      - exact Hs.
      - reflexivity. }
    destruct (safe_val_default_fin row MACD 0 Nm) as (m & Hm).
    destruct (nan_cell row RSI_14) eqn:Nr; cbn [orb].
    { rewrite (compute_confidence_scores row (Fin t)
                 (Fin (1 / (1 + exp (- (m / (Rabs x * 0.0005 + 1e-9)))))) NaN
                 (App.clamp01 (App.sigmoid (App.safe_val row Vol_Ratio (Fin 1))))).
      - now rewrite confidence_nan_score by auto.
      - now rewrite Hc.
      - rewrite Hm, Hc. apply macd_score_fin.
      - rewrite (safe_val_nan_cell row RSI_14) by assumption. apply rsi_score_nan.
      - reflexivity. }
    destruct (safe_val_default_fin row RSI_14 50 Nr) as (s0 & Hs0).
    destruct (rsi_score_number s0) as (s & Hs).
    destruct (nan_cell row Vol_Ratio) eqn:Nv.
    { rewrite (compute_confidence_scores row (Fin t)
                 (Fin (1 / (1 + exp (- (m / (Rabs x * 0.0005 + 1e-9)))))) (Fin s) NaN).
      - now rewrite confidence_nan_score by auto.
      - now rewrite Hc.
      - rewrite Hm, Hc. apply macd_score_fin.
      - now rewrite Hs0.
      - now rewrite (safe_val_nan_cell row Vol_Ratio) by assumption. }
    destruct (safe_val_default_fin row Vol_Ratio 1 Nv) as (v & Hv).
    exists (0.5 + 0.5 * (0.45 * t
                          + 0.25 * (1 / (1 + exp (- (m / (Rabs x * 0.0005 + 1e-9)))))
                          + 0.20 * s + 0.10 * (1 / (1 + exp (- v))))).
    split.
    - apply compute_confidence_of_scores.
      + now rewrite Hc.
      + rewrite Hm, Hc. apply macd_score_fin.
      + now rewrite Hs0.
      + rewrite Hv. apply vol_score_fin.
    - pose proof (trend_score_range _ _ _ Ht) as Rt.
      pose proof (rsi_score_range _ _ Hs) as Rs.
      pose proof (sigmoid_range (m / (Rabs x * 0.0005 + 1e-9))) as Rm.
      pose proof (sigmoid_range v) as Rv.
      lra. }
  destruct (column row EMA_20) as [[| e] |] eqn:Hema.
  - apply Hrest. now rewrite (safe_val_col_nan row EMA_20).
  - destruct (Req_dec_T e (- 1e-9)) as [He | He].
    + unfold App.compute_confidence.
      rewrite Hc, (safe_val_col row EMA_20 NaN e Hema) by (subst e; lra).
      subst e. now rewrite trend_score_raises.
    + apply Hrest. destruct (Req_dec_T e 0) as [-> | He0].
      * now rewrite (safe_val_col_zero row EMA_20).
      * rewrite (safe_val_col row EMA_20 NaN e Hema He0). congruence.
  - apply Hrest. now rewrite (safe_val_col_none row EMA_20).
Qed.

Lemma sigmoid_above_half (z : R) : 0 < z -> 1 / 2 < 1 / (1 + exp (- z)).
Proof.
  intros Hz.
  assert (He : exp (- z) < 1) by (rewrite <- exp_0; apply exp_increasing; lra).
  pose proof (exp_pos (- z)).
  apply sigmoid_between with (hi := 2); lra.
Qed.

Lemma sigmoid_below_half (z : R) : z < 0 -> 1 / (1 + exp (- z)) < 1 / 2.
Proof.
  intros Hz.
  assert (He : 1 < exp (- z)) by (rewrite <- exp_0; apply exp_increasing; lra).
  apply sigmoid_between with (lo := 0); lra.
Qed.

Lemma sigmoid_mono (a b : R) :
  a <= b -> 1 / (1 + exp (- a)) <= 1 / (1 + exp (- b)).
Proof.
  intros Hab.
  assert (He : exp (- b) <= exp (- a)) by (apply exp_mono; lra).
  pose proof (exp_pos (- a)). pose proof (exp_pos (- b)).
  unfold Rdiv. rewrite !Rmult_1_l.
  apply Rinv_le_contravar; lra.
Qed.

(** What a Buy and a Sell of the crypto classifier say of the cells. *)
Lemma decide_signal_Buy (row : Series) :
  App.decide_signal row = Buy ->
  exists x e m s,
    column row Close = Some (Fin x) /\ column row EMA_20 = Some (Fin e)
    /\ column row MACD = Some (Fin m) /\ column row RSI_14 = Some (Fin s)
    /\ e < x /\ 0 < m /\ s < 70.
Proof.
  rewrite App_decide_signal_classify. unfold classify.
  change (col_Close row) with (column row Close).
  change (col_EMA_20 row) with (column row EMA_20).
  change (col_MACD row) with (column row MACD).
  change (col_RSI_14 row) with (column row RSI_14).
  destruct (column row Close) as [[| x] |]; try discriminate.
  destruct (column row EMA_20) as [[| e] |]; try discriminate.
  destruct (column row MACD) as [[| m] |]; try discriminate.
  destruct (column row RSI_14) as [[| s] |]; try discriminate.
  cbn [present]. intros H. exists x, e, m, s.
  destruct (Rlt_dec e x), (Rlt_dec 0 m), (Rlt_dec s 70), (Rlt_dec x e),
    (Rlt_dec m 0), (Rlt_dec 30 s); try discriminate; auto 10.
Qed.

Lemma decide_signal_Sell (row : Series) :
  App.decide_signal row = Sell ->
  exists x e m s,
    column row Close = Some (Fin x) /\ column row EMA_20 = Some (Fin e)
    /\ column row MACD = Some (Fin m) /\ column row RSI_14 = Some (Fin s)
    /\ x < e /\ m < 0 /\ 30 < s.
Proof.
  rewrite App_decide_signal_classify. unfold classify.
  change (col_Close row) with (column row Close).
  change (col_EMA_20 row) with (column row EMA_20).
  change (col_MACD row) with (column row MACD).
  change (col_RSI_14 row) with (column row RSI_14).
  destruct (column row Close) as [[| x] |]; try discriminate.
  destruct (column row EMA_20) as [[| e] |]; try discriminate.
  destruct (column row MACD) as [[| m] |]; try discriminate.
  destruct (column row RSI_14) as [[| s] |]; try discriminate.
  cbn [present]. intros H. exists x, e, m, s.
  destruct (Rlt_dec e x), (Rlt_dec 0 m), (Rlt_dec s 70), (Rlt_dec x e),
    (Rlt_dec m 0), (Rlt_dec 30 s); try discriminate; auto 10.
Qed.

(** The trend score against the side of the average the price is on, for an
    average that is not negative. *)
Lemma trend_score_side (row : Series) (x e t : R) :
  column row Close = Some (Fin x) -> x <> 0 ->
  column row EMA_20 = Some (Fin e) -> 0 <= e ->
  App.trend_score (App.safe_val row Close NaN) (App.safe_val row EMA_20 NaN)
  = Ok (Fin t) ->
  (e < x -> 1 / 2 <= t) /\ (x < e -> t <= 1 / 2).
Proof.
  intros Hc Hx He Hpos Ht.
  rewrite (safe_val_col row Close NaN x Hc Hx) in Ht.
  destruct (Req_dec_T e 0) as [-> | He0].
  - rewrite (safe_val_col_zero row EMA_20 NaN He), trend_score_nan_ema20 in Ht.
    injection Ht as <-. lra.
  - rewrite (safe_val_col row EMA_20 NaN e He He0), trend_score_fin in Ht by lra.
    injection Ht as <-.
    assert (Hd : 0 < / (e + 1e-9)) by (apply Rinv_0_lt_compat; lra).
    split; intros Hside.
    + left. apply sigmoid_above_half. unfold Rdiv.
      apply Rmult_lt_0_compat; [| lra].
      apply Rmult_lt_0_compat; lra.
    + left. apply sigmoid_below_half. unfold Rdiv.
      assert (H0 : 0 < (e - x) * / (e + 1e-9)) by (apply Rmult_lt_0_compat; lra).
      lra.
Qed.

Lemma macd_score_side (row : Series) (x m t : R) :
  column row Close = Some (Fin x) -> x <> 0 ->
  column row MACD = Some (Fin m) -> m <> 0 ->
  App.macd_score (App.safe_val row MACD (Fin 0)) (App.safe_val row Close NaN)
  = Ok (Fin t) ->
  (0 < m -> 1 / 2 < t) /\ (m < 0 -> t < 1 / 2).
Proof.
  intros Hc Hx Hm Hm0 Ht.
  rewrite (safe_val_col row Close NaN x Hc Hx),
    (safe_val_col row MACD (Fin 0) m Hm Hm0), macd_score_fin in Ht.
  injection Ht as <-.
  assert (Hd : 0 < / (Rabs x * 0.0005 + 1e-9)).
  { apply Rinv_0_lt_compat. pose proof (Rabs_pos x). lra. }
  split; intros Hside.
  - apply sigmoid_above_half. unfold Rdiv. now apply Rmult_lt_0_compat.
  - apply sigmoid_below_half. unfold Rdiv.
    assert (H0 : 0 < (- m) * / (Rabs x * 0.0005 + 1e-9))
      by (apply Rmult_lt_0_compat; lra).
    lra.
Qed.

(** X2.  The confidence measures how bullish the row is, not how sure the
    decision is: with an [EMA_20] that is not negative, a confidence that is
    a number is above 0.675 on a Buy and below 0.825 on a Sell. *)
Theorem signal_confidence_bounds (row : Series) (e c : R) :
  column row EMA_20 = Some (Fin e) ->
  0 <= e ->
  App.compute_confidence row = Ok (Fin c) ->
  match App.decide_signal row with
  | Buy => 0.675 < c <= 1
  | Sell => 0.5 <= c < 0.825
  | Hold => 0.5 <= c <= 1
  end.
Proof.
  intros He Hpos Hconf.
  destruct (compute_confidence_inv row c Hconf) as (t & m & s & v & Ht & Hm & Hs & Hv & ->).
  pose proof (trend_score_range _ _ _ Ht) as Rt.
  pose proof (macd_score_range _ _ _ Hm) as Rm.
  pose proof (rsi_score_range _ _ Hs) as Rs.
  pose proof (vol_score_range _ _ Hv) as Rv.
  assert (Hprice : forall x, column row Close = Some (Fin x) -> x <> 0).
  { intros x Hc ->.
    rewrite (safe_val_col_zero row Close NaN Hc), macd_score_nan_close in Hm.
    discriminate. }
  destruct (App.decide_signal row) eqn:Hsig.
  - destruct (decide_signal_Buy row Hsig)
      as (x & e' & mm & ss & Hc & He' & Hmm & _ & Hxe & Hm0 & _).
    rewrite He in He'. injection He' as <-.
    destruct (trend_score_side row x e t Hc (Hprice x Hc) He Hpos Ht) as [Ht1 _].
    destruct (macd_score_side row x mm m Hc (Hprice x Hc) Hmm) as [Hm1 _];
      [lra | assumption |].
    specialize (Ht1 Hxe). specialize (Hm1 Hm0). lra.
  - destruct (decide_signal_Sell row Hsig)
      as (x & e' & mm & ss & Hc & He' & Hmm & _ & Hxe & Hm0 & _).
    rewrite He in He'. injection He' as <-.
    destruct (trend_score_side row x e t Hc (Hprice x Hc) He Hpos Ht) as [_ Ht1].
    destruct (macd_score_side row x mm m Hc (Hprice x Hc) Hmm) as [_ Hm1];
      [lra | assumption |].
    specialize (Ht1 Hxe). specialize (Hm1 Hm0). lra.
  - lra.
Qed.

Lemma decide_signal_scenario_A : App.decide_signal scenario_A = Buy.
Proof.
  unfold App.decide_signal, scenario_A, get, num. simpl.
  unfold flt, fgt. rdec; reflexivity.
Qed.

Lemma compute_confidence_scenario_A :
  exists c, App.compute_confidence scenario_A = Ok (Fin c).
Proof.
  destruct scenario_A_scores as (t & m & s & v & Ht & Hm & Hs & Hv & _).
  destruct safe_val_scenario_A as (Hc & He & Hmacd & Hr & Hvol & _).
  eexists. apply (compute_confidence_of_scores scenario_A t m s v).
  - now rewrite Hc, He.
  - now rewrite Hmacd, Hc.
  - now rewrite Hr.
  - now rewrite Hvol.
Qed.

Lemma signal_confidence_bounds_witness :
  exists c, App.compute_confidence scenario_A = Ok (Fin c) /\ 0.675 < c <= 1.
Proof.
  destruct compute_confidence_scenario_A as (c & Hc).
  exists c. split; [exact Hc |].
  pose proof (signal_confidence_bounds scenario_A 95 c eq_refl ltac:(lra) Hc) as H.
  rewrite decide_signal_scenario_A in H. exact H.
Defined.

Lemma safe_val_macd_num (row : Series) (m : R) :
  App.safe_val (set_col MACD (num m) row) MACD (Fin 0) = Fin m.
Proof.
  destruct (Req_dec_T m 0) as [-> | Hm].
  - apply safe_val_zero.
  - now apply safe_val_nonzero.
Qed.

(** X3.  The confidence does not decrease when [MACD] grows, the other
    cells staying as they are. *)
Theorem confidence_monotone_in_macd (row : Series) (m1 m2 c1 c2 : R) :
  m1 <= m2 ->
  App.compute_confidence (set_col MACD (num m1) row) = Ok (Fin c1) ->
  App.compute_confidence (set_col MACD (num m2) row) = Ok (Fin c2) ->
  c1 <= c2.
Proof.
  intros Hm H1 H2.
  destruct (compute_confidence_inv _ _ H1)
    as (t1 & a1 & s1 & v1 & Ht1 & Ha1 & Hs1 & Hv1 & ->).
  destruct (compute_confidence_inv _ _ H2)
    as (t2 & a2 & s2 & v2 & Ht2 & Ha2 & Hs2 & Hv2 & ->).
  rewrite (safe_val_other _ MACD Close), (safe_val_other _ MACD EMA_20)
    in Ht1, Ht2 by discriminate.
  rewrite (safe_val_other _ MACD RSI_14) in Hs1, Hs2 by discriminate.
  rewrite (safe_val_other _ MACD Vol_Ratio) in Hv1, Hv2 by discriminate.
  rewrite (safe_val_other _ MACD Close), safe_val_macd_num in Ha1, Ha2
    by discriminate.
  assert (Et : t1 = t2) by congruence.
  assert (Es : s1 = s2) by congruence.
  assert (Ev : v1 = v2) by congruence.
  subst t2 s2 v2.
  destruct (App.safe_val row Close NaN) as [| x].
  { rewrite macd_score_nan_close in Ha1. discriminate. }
  rewrite macd_score_fin in Ha1, Ha2.
  injection Ha1 as <-. injection Ha2 as <-.
  assert (Hd : 0 < / (Rabs x * 0.0005 + 1e-9)).
  { apply Rinv_0_lt_compat. pose proof (Rabs_pos x). lra. }
  assert (Hq : m1 / (Rabs x * 0.0005 + 1e-9) <= m2 / (Rabs x * 0.0005 + 1e-9)).
  { unfold Rdiv. apply Rmult_le_compat_r; lra. }
  pose proof (sigmoid_mono _ _ Hq). lra.
Qed.

Lemma confidence_monotone_in_macd_witness :
  exists c1 c2,
    App.compute_confidence (set_col MACD (num 1.5) scenario_A) = Ok (Fin c1)
    /\ App.compute_confidence (set_col MACD (num 2) scenario_A) = Ok (Fin c2)
    /\ c1 <= c2.
Proof.
  assert (H : forall m, exists c,
             App.compute_confidence (set_col MACD (num m) scenario_A) = Ok (Fin c)).
  { intros m.
    destruct scenario_A_scores as (t & _ & s & v & Ht & _ & Hs & Hv & _).
    destruct safe_val_scenario_A as (Hc & He & _ & Hr & Hvol & _).
    eexists.
    apply (compute_confidence_of_scores _ t
             (1 / (1 + exp (- (m / (Rabs 100 * 0.0005 + 1e-9))))) s v).
    - rewrite (safe_val_other _ MACD Close), (safe_val_other _ MACD EMA_20)
        by discriminate.
      now rewrite Hc, He.
    - rewrite (safe_val_other _ MACD Close), safe_val_macd_num, Hc by discriminate.
      apply macd_score_fin.
    - rewrite (safe_val_other _ MACD RSI_14) by discriminate. now rewrite Hr.
    - rewrite (safe_val_other _ MACD Vol_Ratio) by discriminate. now rewrite Hvol. }
  destruct (H 1.5) as (c1 & H1). destruct (H 2) as (c2 & H2).
  exists c1, c2. split; [exact H1 | split; [exact H2 |]].
  exact (confidence_monotone_in_macd scenario_A 1.5 2 c1 c2 ltac:(lra) H1 H2).
Defined.

Lemma safe_val_get_or_nan (row : Series) (k : key) :
  Commodities.safe_val row k NaN = get row k NaN
  \/ Commodities.safe_val row k NaN = NaN.
Proof.
  unfold Commodities.safe_val, py_or.
  destruct (truthy (get row k NaN)); auto.
Qed.

(** X4.  The commodities classifier never contradicts the crypto one: on
    every row it answers the same, or Hold. *)
Theorem commodities_agrees_or_holds (row : Series) :
  Commodities.decide_signal row = App.decide_signal row
  \/ Commodities.decide_signal row = Hold.
Proof.
  unfold Commodities.decide_signal, App.decide_signal.
  destruct (safe_val_get_or_nan row Close) as [-> | ->];
    [| right; reflexivity].
  destruct (safe_val_get_or_nan row EMA_20) as [-> | ->];
    [| right; cbn [pd_isna isnan]; now rewrite orb_true_r].
  destruct (safe_val_get_or_nan row MACD) as [-> | ->];
    [| right; cbn [pd_isna isnan]; now rewrite !orb_true_r].
  destruct (safe_val_get_or_nan row RSI_14) as [-> | ->];
    [| right; cbn [pd_isna isnan]; now rewrite !orb_true_r].
  now left.
Qed.

(** ** The loop over the selected rows *)

Lemma for_each_Ok {A B : Type} (body : A -> result B) (rows : list A) (os : list B) :
  for_each body rows = Ok os <-> Forall2 (fun r o => body r = Ok o) rows os.
Proof.
  revert os. induction rows as [| r rows IH]; intros os; cbn [for_each].
  - split.
    + intros [= <-]. constructor.
    + intros H. inversion H. reflexivity.
  - split.
    + destruct (body r) as [o |] eqn:Hr; cbn [bind]; [| discriminate].
      destruct (for_each body rows) as [os' |]; cbn [bind]; [| discriminate].
      intros [= <-]. constructor; [assumption | now apply IH].
    + intros H. inversion H as [| r' o rows' os' Hr Hrest]; subst.
      rewrite Hr. cbn [bind]. apply IH in Hrest. now rewrite Hrest.
Qed.

Lemma for_each_Raise {A B : Type} (body : A -> result B) (rows : list A) (e : exn) :
  for_each body rows = Raise e -> exists r, In r rows /\ body r = Raise e.
Proof.
  induction rows as [| r rows IH]; cbn [for_each]; [discriminate |].
  destruct (body r) as [o |] eqn:Hr; cbn [bind].
  - destruct (for_each body rows) as [os |]; cbn [bind]; [discriminate |].
    intros [= <-]. destruct (IH eq_refl) as (r' & Hin & Hr').
    exists r'. split; [now right | assumption].
  - intros [= <-]. exists r. split; [now left | assumption].
Qed.

Lemma for_each_first_Raise {A B : Type} (body : A -> result B) (rows : list A) :
  (exists r, In r rows /\ exists e, body r = Raise e) ->
  exists e, for_each body rows = Raise e.
Proof.
  induction rows as [| r rows IH]; intros (r' & Hin & e & Hr'); [destruct Hin |].
  cbn [for_each]. destruct (body r) as [o |] eqn:Hr; cbn [bind].
  - destruct Hin as [-> | Hin]; [congruence |].
    destruct IH as (e' & ->); [now exists r'; eauto |].
    now exists e'.
  - now exists e0.
Qed.

Lemma Forall2_map_eq {A B C : Type} (f : A -> C) (g : B -> C)
  (l : list A) (l' : list B) :
  Forall2 (fun a b => g b = f a) l l' -> map g l' = map f l.
Proof.
  induction 1 as [| a b l l' Hab _ IH]; cbn [map]; [reflexivity |].
  now rewrite Hab, IH.
Qed.

Lemma py_div_exn (a b : float) (e : exn) :
  py_div a b = Raise e -> e = ZeroDivisionError.
Proof.
  unfold py_div. destruct b as [| y]; [discriminate |].
  destruct (Req_dec_T y 0); [congruence |].
  destruct a; discriminate.
Qed.

(** [compute_confidence] raises nothing but [ZeroDivisionError]. *)
Lemma compute_confidence_exn (row : Series) (e : exn) :
  App.compute_confidence row = Raise e -> e = ZeroDivisionError.
Proof.
  unfold App.compute_confidence.
  destruct (App.trend_score _ _) as [t | e'] eqn:Ht; cbn [bind].
  - destruct (macd_score_ok (App.safe_val row MACD (Fin 0))
                (App.safe_val row Close NaN)) as (m & ->).
    destruct (rsi_score_ok (App.safe_val row RSI_14 (Fin 50))) as (s & ->).
    discriminate.
  - intros [= <-]. unfold App.trend_score in Ht.
    destruct (isnan _ || isnan _); [discriminate |].
    destruct (py_div _ _) as [q | e''] eqn:Hq; cbn [bind] in Ht; [discriminate |].
    injection Ht as <-. now apply py_div_exn in Hq.
Qed.

(** The crypto loop body fails on a division by zero only, and keeps the
    stripped ticker. *)
Lemma App_signal_row_Ok (r : Series) (t : string) :
  Ticker r = Some t ->
  (exists v, App.compute_confidence r = Ok v) ->
  exists o, App.signal_row r = Ok o /\ out_Ticker o = strip t.
Proof.
  intros Ht (v & Hv). unfold App.signal_row. rewrite Ht, Hv. cbn [bind].
  destruct (App.risk_band _ _ _) as [sl tp]. eexists. split; reflexivity.
Qed.

Lemma App_signal_row_inv (r : Series) (o : SignalRow) :
  App.signal_row r = Ok o ->
  exists t v, Ticker r = Some t /\ App.compute_confidence r = Ok v
              /\ out_Ticker o = strip t /\ Confidence o = round2 v.
Proof.
  unfold App.signal_row.
  destruct (Ticker r) as [t |]; cbn [bind]; [| discriminate].
  destruct (App.compute_confidence r) as [v |]; cbn [bind]; [| discriminate].
  destruct (App.risk_band _ _ _) as [sl tp]. intros [= <-].
  exists t, v. auto.
Qed.

Lemma App_signal_row_Raise (r : Series) (t : string) (e : exn) :
  Ticker r = Some t -> App.signal_row r = Raise e ->
  e = ZeroDivisionError /\ App.compute_confidence r = Raise ZeroDivisionError.
Proof.
  intros Ht. unfold App.signal_row. rewrite Ht. cbn [bind].
  destruct (App.compute_confidence r) as [v | e'] eqn:Hv; cbn [bind].
  - destruct (App.risk_band _ _ _). discriminate.
  - intros [= <-]. pose proof (compute_confidence_exn r e' Hv). subst e'. auto.
Qed.

Lemma latest_snapshot_Ticker (df : list Series) (r : Series) :
  In r (latest_snapshot df) -> exists t, Ticker r = Some t.
Proof.
  intros Hin. apply (in_map Ticker) in Hin.
  unfold latest_snapshot in Hin. rewrite groupby_last_tickers in Hin.
  apply in_map_iff in Hin. destruct Hin as (t & <- & _). now exists t.
Qed.

Lemma group_keys_sorted (df : list Series) : sorted_by str_leb (group_keys df).
Proof.
  apply stable_sort_sorted; [apply str_leb_total |].
  apply (not_gt_trans String_as_OT.compare).
  - apply str_compare_antisym.
  - intros a b c H. apply str_compare_eq in H. now subst.
  - apply str_compare_lt_trans.
Qed.

Lemma group_keys_sort_values (df : list Series) :
  Permutation (group_keys (sort_values df)) (nodup string_dec (tickers df)).
Proof.
  apply NoDup_Permutation.
  - apply group_keys_NoDup.
  - apply NoDup_nodup.
  - intros t. rewrite group_keys_In, sort_values_tickers, nodup_In.
    symmetry. apply tickers_In.
Qed.

Lemma signal_rows_tickers (latest : list Series) (rows : list SignalRow) :
  Forall2 (fun r o => App.signal_row r = Ok o) latest rows ->
  forall keys, map Ticker latest = map Some keys ->
               map out_Ticker rows = map strip keys.
Proof.
  induction 1 as [| r o latest rows Hr _ IH]; intros keys Hk.
  - destruct keys; [reflexivity | discriminate].
  - destruct keys as [| k keys]; [discriminate |].
    cbn [map] in *. injection Hk as Hk1 Hk2.
    destruct (App_signal_row_inv r o Hr) as (t & v & Ht & _ & Ho & _).
    rewrite Ho, (IH keys Hk2). congruence.
Qed.

Lemma Forall2_In_left {A B : Type} (R : A -> B -> Prop) (l : list A) (l' : list B) :
  Forall2 R l l' -> forall a, In a l -> exists b, In b l' /\ R a b.
Proof.
  induction 1 as [| x y l l' Hxy _ IH]; intros a Hin; [destruct Hin |].
  destruct Hin as [<- | Hin].
  - exists y. split; [now left | assumption].
  - destruct (IH a Hin) as (b & Hb & Hab). exists b. split; [now right | assumption].
Qed.

Lemma Forall2_In_right {A B : Type} (R : A -> B -> Prop) (l : list A) (l' : list B) :
  Forall2 R l l' -> forall b, In b l' -> exists a, In a l /\ R a b.
Proof.
  induction 1 as [| x y l l' Hxy _ IH]; intros b Hin; [destruct Hin |].
  destruct Hin as [<- | Hin].
  - exists x. split; [now left | assumption].
  - destruct (IH b Hin) as (a & Ha & Hab). exists a. split; [now right | assumption].
Qed.

Lemma compute_signals_rows_aux (df : list Series) (rows : list SignalRow) :
  App.compute_signals df = Ok rows ->
  List.length rows = List.length (nodup string_dec (tickers df))
  /\ Forall2 (fun r o => App.signal_row r = Ok o) (latest_snapshot df) rows.
Proof.
  unfold App.compute_signals. fold (latest_snapshot df). intros H.
  apply for_each_Ok in H. split; [| exact H].
  rewrite <- (Forall2_length H).
  rewrite <- (Permutation_length (group_keys_sort_values df)).
  rewrite <- (length_map Ticker (latest_snapshot df)).
  unfold latest_snapshot. rewrite groupby_last_tickers. apply length_map.
Qed.

(** X5.  When the crypto engine returns a table, it has one row for each
    distinct ticker of the snapshot table, in ascending order of the
    tickers, carrying the ticker stripped of its surrounding blanks; each
    row is made from the selected row of its ticker. *)
Theorem compute_signals_rows (df : list Series) (rows : list SignalRow) :
  App.compute_signals df = Ok rows ->
  exists keys,
    NoDup keys
    /\ sorted_by str_leb keys
    /\ (forall t, In t keys <-> In (Some t) (map Ticker df))
    /\ map out_Ticker rows = map strip keys
    /\ List.length rows = List.length (nodup string_dec (tickers df))
    /\ Forall2 (fun r o => App.signal_row r = Ok o) (latest_snapshot df) rows.
Proof.
  unfold App.compute_signals. fold (latest_snapshot df). intros H.
  apply for_each_Ok in H.
  exists (group_keys (sort_values df)).
  assert (Hk : map Ticker (latest_snapshot df)
               = map Some (group_keys (sort_values df)))
    by apply groupby_last_tickers.
  split; [apply group_keys_NoDup |].
  split; [apply group_keys_sorted |].
  split; [intros t; rewrite group_keys_In; apply sort_values_tickers |].
  split; [now apply (signal_rows_tickers (latest_snapshot df)) |].
  apply compute_signals_rows_aux.
  unfold App.compute_signals. fold (latest_snapshot df). now apply for_each_Ok.
Qed.

Lemma compute_signals_rows_witness :
  exists rows keys,
    App.compute_signals [scenario_A] = Ok rows
    /\ NoDup keys
    /\ map out_Ticker rows = map strip keys
    /\ List.length rows = 1%nat.
Proof.
  destruct compute_confidence_scenario_A as (c & Hc).
  destruct (App_signal_row_Ok scenario_A "BTC-USD" eq_refl) as (o & Ho & _);
    [now exists (Fin c) |].
  assert (H : App.compute_signals [scenario_A] = Ok [o]).
  { unfold App.compute_signals.
    change (groupby_last (sort_values [scenario_A])) with [scenario_A].
    cbn [for_each]. rewrite Ho. reflexivity. }
  destruct (compute_signals_rows [scenario_A] [o] H)
    as (keys & Hnd & _ & _ & Hmap & Hlen & _).
  exists [o], keys. auto.
Defined.

(** X6.  The crypto route is all or nothing.  Given an indicators table,
    either every selected row has a confidence and the route writes the
    signals file and answers the number of distinct tickers, or some
    selected row divides by zero and the route raises [ZeroDivisionError]
    and leaves every file as it was: the rows of the other tickers are not
    written either. *)
Theorem api_compute_signals_all_or_nothing (fs : filesystem) (df : list Series) :
  fs App.PROCESSED_FILE = Some (IndicatorsCsv df) ->
  ((forall r, In r (latest_snapshot df) -> exists v, App.compute_confidence r = Ok v)
   /\ exists rows,
        App.compute_signals df = Ok rows
        /\ App.api_compute_signals fs
           = (write_file fs App.SIGNALS_FILE (SignalsCsv rows),
              Ok (List.length (nodup string_dec (tickers df)))))
  \/ ((exists r, In r (latest_snapshot df)
                 /\ App.compute_confidence r = Raise ZeroDivisionError)
      /\ App.compute_signals df = Raise ZeroDivisionError
      /\ App.api_compute_signals fs = (fs, Raise ZeroDivisionError)).
Proof.
  intros Hfile. unfold App.api_compute_signals, read_indicators.
  rewrite Hfile. cbn [bind].
  destruct (App.compute_signals df) as [rows | e] eqn:Hrun.
  - left.
    destruct (compute_signals_rows_aux df rows Hrun) as [Hlen Hall].
    split.
    + intros r Hin.
      destruct (Forall2_In_left _ _ _ Hall r Hin) as (o & _ & Ho).
      destruct (App_signal_row_inv r o Ho) as (t & v & _ & Hv & _).
      now exists v.
    + exists rows. split; [reflexivity |]. now rewrite Hlen.
  - right. unfold App.compute_signals in Hrun. fold (latest_snapshot df) in Hrun.
    destruct (for_each_Raise _ _ _ Hrun) as (r & Hin & Hr).
    destruct (latest_snapshot_Ticker df r Hin) as (t & Ht).
    destruct (App_signal_row_Raise r t e Ht Hr) as [-> Hc].
    split; [now exists r |]. split; reflexivity.
Qed.

Lemma api_compute_signals_all_or_nothing_witness :
  ((forall r, In r (latest_snapshot [scenario_A]) ->
              exists v, App.compute_confidence r = Ok v)
   /\ exists rows,
        App.compute_signals [scenario_A] = Ok rows
        /\ App.api_compute_signals (crypto_fs [scenario_A])
           = (write_file (crypto_fs [scenario_A]) App.SIGNALS_FILE (SignalsCsv rows),
              Ok (List.length (nodup string_dec (tickers [scenario_A])))))
  \/ ((exists r, In r (latest_snapshot [scenario_A])
                 /\ App.compute_confidence r = Raise ZeroDivisionError)
      /\ App.compute_signals [scenario_A] = Raise ZeroDivisionError
      /\ App.api_compute_signals (crypto_fs [scenario_A])
         = (crypto_fs [scenario_A], Raise ZeroDivisionError)).
Proof.
  apply (api_compute_signals_all_or_nothing (crypto_fs [scenario_A]) [scenario_A]).
  reflexivity.
Defined.

(** ** The commodities table *)

Lemma Commodities_signal_row_inv (nm : list (string * string)) (r : Series)
  (o : SignalRow) :
  Commodities.signal_row nm r = Ok o ->
  let close := App.safe_val r Close NaN in
  let a := App.atr_val close (App.safe_val r ATR NaN) in
  exists t,
    Ticker r = Some t
    /\ out_Ticker o = t
    /\ out_Name o = dict_get nm t t
    /\ out_Signal o = Commodities.decide_signal r
    /\ Live_Price o = round2 close
    /\ SL o = round2 (fst (App.risk_band close a (Commodities.decide_signal r)))
    /\ TP o = round2 (snd (App.risk_band close a (Commodities.decide_signal r))).
Proof.
  unfold Commodities.signal_row.
  change Commodities.safe_val with App.safe_val.
  change Commodities.atr_val with App.atr_val.
  change Commodities.risk_band with App.risk_band.
  cbv zeta.
  destruct (App.risk_band _ _ _) as [sl tp].
  destruct (Ticker r) as [t |]; cbn [bind]; [| discriminate].
  destruct (Commodities.compute_confidence r); cbn [bind]; [| discriminate].
  intros [= <-]. exists t. cbn. auto 10.
Qed.

Lemma last_valid_valid {A : Type} (valid : A -> bool) (cells : list A) (d : A) :
  valid d = true -> valid (last_valid valid cells d) = true.
Proof.
  intros Hd. unfold last_valid.
  destruct (find valid (rev cells)) as [v |] eqn:Hf; [| exact Hd].
  now apply find_some in Hf.
Qed.

(** A column with no empty cell has none after [last]. *)
Lemma groupby_last_notna (k : key) (df : list Series) :
  (forall r, In r df -> notna (column r k) = true) ->
  forall o, In o (groupby_last df) -> notna (column o k) = true.
Proof.
  intros Hall o Hin. unfold groupby_last in Hin.
  apply in_flat_map in Hin. destruct Hin as (t & _ & Hin).
  destruct (filter (has_ticker t) df) as [| r0 g] eqn:Hg; [destruct Hin |].
  destruct Hin as [<- | []].
  rewrite agg_last_column. apply last_valid_valid.
  apply Hall.
  assert (H : In r0 (filter (has_ticker t) df)) by (rewrite Hg; now left).
  now apply filter_In in H.
Qed.

(** The tickers of the commodities table. *)
Lemma generate_signals_tickers (df : list Series) (name_map : list (string * string))
  (rows : list SignalRow) :
  Commodities.generate_signals df name_map = Ok rows ->
  NoDup (map out_Ticker rows)
  /\ sorted_by str_leb (map out_Ticker rows)
  /\ (forall t, In t (map out_Ticker rows)
                <-> exists r t0, In r df /\ Ticker r = Some t0
                                 /\ notna (col_Close r) = true
                                 /\ t = upper (strip t0)).
Proof.
  unfold Commodities.generate_signals, Commodities.dropna.
  destruct (forallb _ df); cbn [bind]; [| discriminate].
  set (df1 := filter (fun r => notna_str (Ticker r) && notna (col_Close r)) df).
  set (df2 := map Commodities.normalise_ticker df1).
  fold (latest_snapshot df2). intros H. apply for_each_Ok in H.
  assert (Hk : map out_Ticker rows = group_keys (sort_values df2)).
  { assert (Hm : map Ticker (latest_snapshot df2)
                 = map Some (group_keys (sort_values df2)))
      by apply groupby_last_tickers.
    revert Hm. generalize (group_keys (sort_values df2)).
    induction H as [| r o latest rows' Hr _ IH]; intros keys Hm.
    - destruct keys; [reflexivity | discriminate].
    - destruct keys as [| k keys]; [discriminate |].
      cbn [map] in *. injection Hm as Hm1 Hm2.
      destruct (Commodities_signal_row_inv _ _ _ Hr) as (t & Ht & Ho & _).
      rewrite Ho, (IH keys Hm2). congruence. }
  split; [rewrite Hk; apply group_keys_NoDup |].
  split; [rewrite Hk; apply group_keys_sorted |].
  intros t.
  { rewrite Hk, group_keys_In, sort_values_tickers.
    unfold df2. rewrite map_map, in_map_iff. split.
    + intros (r & Hr & Hin). unfold df1 in Hin. apply filter_In in Hin.
      destruct Hin as (Hin & Hkeep). apply andb_true_iff in Hkeep.
      destruct Hkeep as (_ & Hclose).
      cbn [Commodities.normalise_ticker Ticker] in Hr.
      destruct (Ticker r) as [t0 |] eqn:Ht0; [| discriminate].
      injection Hr as <-. exists r, t0. auto.
    + intros (r & t0 & Hin & Ht0 & Hclose & ->). exists r. split.
      * cbn [Commodities.normalise_ticker Ticker]. now rewrite Ht0.
      * unfold df1. apply filter_In. split; [assumption |].
        now rewrite Ht0, Hclose.
  }
Qed.

Lemma Commodities_signal_row_Ok (nm : list (string * string)) (r : Series) (t : string) :
  Ticker r = Some t ->
  (exists v, App.compute_confidence r = Ok v) ->
  exists o, Commodities.signal_row nm r = Ok o.
Proof.
  intros Ht (v & Hv). unfold Commodities.signal_row.
  rewrite <- compute_confidence_same, Ht, Hv.
  destruct (Commodities.risk_band _ _ _) as [sl tp].
  cbn [bind]. eexists. reflexivity.
Qed.

(** X7.  When the commodities engine returns a table, its tickers are
    distinct and in ascending order, and they are the upper-cased, stripped
    tickers of the rows that have a ticker and a close.  Row by row, the
    table is made from the selected rows of the kept, normalised table.
    Each row takes its name from the name map, or its own ticker when the
    map has none, and its price from the close of the latest row of its
    ticker (the last in the order of the dates, rows of one date in the
    order they had), which is a number: rounded when it is not zero; when
    it is zero the price, stop loss and take profit are NaN and the
    decision is Hold. *)
Theorem generate_signals_rows (df : list Series) (name_map : list (string * string))
  (rows : list SignalRow) :
  Commodities.generate_signals df name_map = Ok rows ->
  NoDup (map out_Ticker rows)
  /\ sorted_by str_leb (map out_Ticker rows)
  /\ (forall t, In t (map out_Ticker rows)
                <-> exists r t0, In r df /\ Ticker r = Some t0
                                 /\ notna (col_Close r) = true
                                 /\ t = upper (strip t0))
  /\ exists kept,
       Commodities.dropna df = Ok kept
       /\ Forall2 (fun r o => Commodities.signal_row name_map r = Ok o)
            (latest_snapshot (map Commodities.normalise_ticker kept)) rows
       /\ forall o, In o rows ->
            out_Name o = dict_get name_map (out_Ticker o) (out_Ticker o)
            /\ exists r0 g x,
                 stable_sort date_leb
                   (filter (has_ticker (out_Ticker o))
                      (map Commodities.normalise_ticker kept)) = r0 :: g
                 /\ column (last g r0) Close = Some (Fin x)
                 /\ ((x <> 0 /\ Live_Price o = round2 (Fin x))
                     \/ (x = 0 /\ Live_Price o = NaN /\ SL o = NaN /\ TP o = NaN
                         /\ out_Signal o = Hold)).
Proof.
  intros Hgen.
  destruct (generate_signals_tickers df name_map rows Hgen) as (Hnd & Hsorted & Hin_iff).
  split; [exact Hnd | split; [exact Hsorted | split; [exact Hin_iff |]]].
  revert Hgen.
  unfold Commodities.generate_signals, Commodities.dropna.
  destruct (forallb _ df); cbn [bind]; [| discriminate].
  set (df1 := filter (fun r => notna_str (Ticker r) && notna (col_Close r)) df).
  set (df2 := map Commodities.normalise_ticker df1).
  fold (latest_snapshot df2). intros H. apply for_each_Ok in H.
  exists df1. split; [reflexivity | split; [exact H |]].
  fold df2. intros o Hin.
  destruct (Forall2_In_right _ _ _ H o Hin) as (r & Hr & Ho).
  destruct (Commodities_signal_row_inv _ _ _ Ho)
    as (t & Ht & Hot & Hname & Hsig & Hp & Hsl & Htp).
  split; [now rewrite Hot |].
  rewrite Hot.
  assert (Hall : forall r', In r' df2 -> notna (column r' Close) = true).
  { intros r' Hr'. unfold df2 in Hr'. apply in_map_iff in Hr'.
    destruct Hr' as (r1 & <- & Hr1). unfold df1 in Hr1.
    apply filter_In in Hr1. destruct Hr1 as (_ & Hkeep).
    apply andb_true_iff in Hkeep. apply Hkeep. }
  assert (Hkey : In (Some t) (map Ticker (sort_values df2))).
  { apply group_keys_In.
    assert (Hk : In (Ticker r) (map Ticker (latest_snapshot df2)))
      by now apply in_map.
    unfold latest_snapshot in Hk. rewrite groupby_last_tickers, Ht in Hk.
    apply in_map_iff in Hk. destruct Hk as (t' & [= ->] & Hk). exact Hk. }
  assert (Hgroup : In r (group_last (stable_sort date_leb
                                       (filter (has_ticker t) df2)))).
  { rewrite <- sort_values_group, <- groupby_last_group by exact Hkey.
    apply filter_In. split; [exact Hr | now apply has_ticker_iff]. }
  pose proof (stable_sort_perm date_leb (filter (has_ticker t) df2)) as Hperm.
  destruct (stable_sort date_leb (filter (has_ticker t) df2)) as [| r0 g];
    [destruct Hgroup |].
  destruct Hgroup as [<- | []].
  assert (Hlast : notna (column (last g r0) Close) = true).
  { apply Hall.
    assert (Hl : In (last g r0) (filter (has_ticker t) df2))
      by (apply (Permutation_in _ Hperm), last_In).
    now apply filter_In in Hl. }
  assert (Hcell : column (fold_left agg_last g r0) Close = column (last g r0) Close).
  { rewrite agg_last_column.
    rewrite <- (last_map (fun x => column x Close)) in Hlast |- *.
    now apply last_valid_last. }
  destruct (column (last g r0) Close) as [[| x] |] eqn:Hc; try discriminate.
  exists r0, g, x. split; [reflexivity | split; [exact Hc |]].
  destruct (Req_dec_T x 0) as [Hx | Hx].
  - right. subst x.
    assert (Hnan : App.safe_val (fold_left agg_last g r0) Close NaN = NaN)
      by now apply safe_val_col_zero.
    assert (Hhold : Commodities.decide_signal (fold_left agg_last g r0) = Hold).
    { unfold Commodities.decide_signal.
      change Commodities.safe_val with App.safe_val. now rewrite Hnan. }
    rewrite Hnan, Hhold in *.
    cbn [App.risk_band fst snd fsub fadd lift2 round2] in Hp, Hsl, Htp.
    auto 10.
  - left. rewrite (safe_val_col _ Close NaN x Hcell Hx) in Hp. auto.
Qed.

Lemma generate_signals_rows_witness :
  exists o r0 g,
    Commodities.generate_signals [scenario_A] Commodities.COMMODITY_NAMES = Ok [o]
    /\ out_Ticker o = "BTC-USD"%string
    /\ out_Name o = "BTC-USD"%string
    /\ stable_sort date_leb
         (filter (has_ticker (out_Ticker o))
            (map Commodities.normalise_ticker [scenario_A])) = r0 :: g
    /\ column (last g r0) Close = Some (Fin 100)
    /\ Live_Price o = round2 (Fin 100).
Proof.
  destruct compute_confidence_scenario_A as (c & Hc).
  destruct (Commodities_signal_row_Ok Commodities.COMMODITY_NAMES scenario_A
              "BTC-USD" eq_refl) as (o & Ho); [now exists (Fin c) |].
  assert (H : Commodities.generate_signals [scenario_A] Commodities.COMMODITY_NAMES
              = Ok [o]).
  { unfold Commodities.generate_signals.
    change (Commodities.dropna [scenario_A]) with (Ok [scenario_A]).
    cbn [bind].
    change (groupby_last (sort_values (map Commodities.normalise_ticker [scenario_A])))
      with [scenario_A].
    cbn [for_each]. rewrite Ho. reflexivity. }
  destruct (Commodities_signal_row_inv _ _ _ Ho) as (t & Ht & Hot & _).
  assert (Hticker : out_Ticker o = "BTC-USD"%string)
    by (rewrite Hot; injection Ht as <-; reflexivity).
  destruct (generate_signals_rows _ _ _ H) as (_ & _ & _ & kept & Hkept & _ & Hrows).
  injection Hkept as <-.
  destruct (Hrows o (or_introl eq_refl)) as (Hname & r0 & g & x & Hs & Hx & Hprice).
  rewrite Hticker in Hs, Hname.
  change (stable_sort date_leb
            (filter (has_ticker "BTC-USD")
               (map Commodities.normalise_ticker [scenario_A])))
    with [scenario_A] in Hs.
  injection Hs as <- <-.
  cbn [last] in Hx. injection Hx as <-.
  exists o, scenario_A, []. rewrite Hticker.
  split; [exact H | split; [reflexivity | split; [exact Hname |]]].
  split; [reflexivity | split; [reflexivity |]].
  destruct Hprice as [(_ & Hp) | (H0 & _)]; [exact Hp | lra].
Defined.

(** ** Strings *)

Lemma upper_ascii_idem (c : ascii) : upper_ascii (upper_ascii c) = upper_ascii c.
Proof. destruct c as [[] [] [] [] [] [] [] []]; reflexivity. Qed.

Lemma isspace_upper_ascii (c : ascii) : isspace (upper_ascii c) = isspace c.
Proof. destruct c as [[] [] [] [] [] [] [] []]; reflexivity. Qed.

Lemma dash_upper_ascii (c : ascii) :
  Ascii.eqb (upper_ascii c) "-" = Ascii.eqb c "-".
Proof. destruct c as [[] [] [] [] [] [] [] []]; reflexivity. Qed.

Lemma isspace_not_dash (c : ascii) : isspace c = true -> Ascii.eqb c "-" = false.
Proof. destruct c as [[] [] [] [] [] [] [] []]; try reflexivity; discriminate. Qed.

Lemma upper_idem (s : string) : upper (upper s) = upper s.
Proof.
  induction s as [| c s IH]; cbn [upper]; [reflexivity |].
  now rewrite upper_ascii_idem, IH.
Qed.

Lemma upper_lstrip (s : string) : upper (lstrip s) = lstrip (upper s).
Proof.
  induction s as [| c s IH]; cbn [upper lstrip]; [reflexivity |].
  rewrite isspace_upper_ascii. now destruct (isspace c).
Qed.

Lemma upper_rstrip (s : string) : upper (rstrip s) = rstrip (upper s).
Proof.
  induction s as [| c s IH]; cbn [upper rstrip]; [reflexivity |].
  rewrite <- IH, isspace_upper_ascii.
  destruct (rstrip s) as [| d t]; [| reflexivity].
  cbn [upper]. now destruct (isspace c).
Qed.

Lemma upper_strip (s : string) : upper (strip s) = strip (upper s).
Proof. unfold strip. now rewrite upper_rstrip, upper_lstrip. Qed.

Lemma upper_split_dash_head (s : string) :
  upper (split_dash_head s) = split_dash_head (upper s).
Proof.
  induction s as [| c s IH]; cbn [upper split_dash_head]; [reflexivity |].
  rewrite dash_upper_ascii. destruct (Ascii.eqb c "-"); [reflexivity |].
  cbn [upper]. now rewrite IH.
Qed.

Lemma rstrip_cons (c : ascii) (s : string) :
  rstrip (String c s)
  = match rstrip s with
    | EmptyString => if isspace c then EmptyString else String c EmptyString
    | t => String c t
    end.
Proof. reflexivity. Qed.

Lemma rstrip_idem (s : string) : rstrip (rstrip s) = rstrip s.
Proof.
  induction s as [| c s IH]; [reflexivity |]. rewrite rstrip_cons.
  destruct (rstrip s) as [| d t] eqn:Hr.
  - destruct (isspace c) eqn:Hc; [reflexivity |].
    cbn [rstrip]. now rewrite Hc.
  - rewrite rstrip_cons, IH. reflexivity.
Qed.

Lemma lstrip_shape (s : string) :
  lstrip s = EmptyString
  \/ exists c t, lstrip s = String c t /\ isspace c = false.
Proof.
  induction s as [| c s IH]; [now left |]. cbn [lstrip].
  destruct (isspace c) eqn:Hc; [exact IH |].
  right. now exists c, s.
Qed.

Lemma rstrip_head (c : ascii) (s : string) :
  isspace c = false -> exists t, rstrip (String c s) = String c t.
Proof.
  intros Hc. cbn [rstrip]. destruct (rstrip s) as [| d t].
  - rewrite Hc. now exists EmptyString.
  - now exists (String d t).
Qed.

Lemma strip_idem (s : string) : strip (strip s) = strip s.
Proof.
  unfold strip. destruct (lstrip_shape s) as [-> | (c & t & -> & Hc)];
    [reflexivity |].
  destruct (rstrip_head c t Hc) as (t' & Ht').
  rewrite Ht'. cbn [lstrip]. rewrite Hc, <- Ht'. apply rstrip_idem.
Qed.

(** The query of a lookup route is read up to case and surrounding blanks. *)
Lemma query_normal (q : string) : upper (strip (upper (strip q))) = upper (strip q).
Proof.
  rewrite (upper_strip q), strip_idem, upper_strip, upper_idem. reflexivity.
Qed.

Lemma contains_dash_upper (s : string) : contains_dash (upper s) = contains_dash s.
Proof.
  induction s as [| c s IH]; cbn [upper contains_dash]; [reflexivity |].
  now rewrite dash_upper_ascii, IH.
Qed.

Lemma contains_dash_split (s : string) : contains_dash (split_dash_head s) = false.
Proof.
  induction s as [| c s IH]; cbn [split_dash_head]; [reflexivity |].
  destruct (Ascii.eqb c "-") eqn:Hc; [reflexivity |].
  cbn [contains_dash]. now rewrite Hc, IH.
Qed.

Lemma contains_dash_lstrip (s : string) : contains_dash (lstrip s) = contains_dash s.
Proof.
  induction s as [| c s IH]; cbn [lstrip]; [reflexivity |].
  destruct (isspace c) eqn:Hc; [| reflexivity].
  cbn [contains_dash]. now rewrite (isspace_not_dash c Hc), IH.
Qed.

Lemma contains_dash_rstrip (s : string) : contains_dash (rstrip s) = contains_dash s.
Proof.
  induction s as [| c s IH]; cbn [rstrip]; [reflexivity |].
  cbn [contains_dash]. rewrite <- IH.
  destruct (rstrip s) as [| d t]; [| reflexivity].
  destruct (isspace c) eqn:Hc; cbn [contains_dash].
  - now rewrite (isspace_not_dash c Hc).
  - reflexivity.
Qed.

Lemma contains_dash_strip (s : string) : contains_dash (strip s) = contains_dash s.
Proof. unfold strip. now rewrite contains_dash_rstrip, contains_dash_lstrip. Qed.

Lemma Symbol_no_dash (t : option string) (q : string) :
  contains_dash q = true -> String.eqb (AppLookup.Symbol t) q = false.
Proof.
  intros Hq. apply String.eqb_neq. intros <-.
  unfold AppLookup.Symbol in Hq.
  now rewrite contains_dash_upper, contains_dash_split in Hq.
Qed.

(** ** The lookup routes *)

Lemma filter_none {A : Type} (f : A -> bool) (l : list A) :
  (forall x, In x l -> f x = false) -> filter f l = [].
Proof.
  induction l as [| x l IH]; intros H; cbn [filter]; [reflexivity |].
  rewrite (H x) by now left. apply IH. intros y Hy. apply H. now right.
Qed.

(** X8.  The crypto lookups compare the query with the part of the ticker
    before its first dash, so a query that holds a dash is never answered,
    not even the ticker as the table spells it: both routes raise 404. *)
Theorem crypto_lookup_rejects_dash (indicators : option (list Series))
  (signals : option (list SignalRow)) (q : string) :
  contains_dash q = true ->
  AppLookup.get_indicators indicators q = Raise HTTPException404
  /\ AppLookup.get_signal signals q = Raise HTTPException404.
Proof.
  intros Hq.
  assert (Hd : contains_dash (upper (strip q)) = true)
    by now rewrite contains_dash_upper, contains_dash_strip.
  split.
  - destruct indicators as [df |]; [| reflexivity].
    unfold AppLookup.get_indicators.
    rewrite filter_none; [reflexivity |].
    intros r _. now apply Symbol_no_dash.
  - destruct signals as [df |]; [| reflexivity].
    unfold AppLookup.get_signal.
    rewrite filter_none; [reflexivity |].
    intros o _. now apply Symbol_no_dash.
Qed.

Lemma crypto_lookup_rejects_dash_witness :
  AppLookup.get_indicators (Some [scenario_A]) "BTC-USD" = Raise HTTPException404
  /\ AppLookup.get_signal None "BTC-USD" = Raise HTTPException404.
Proof.
  apply (crypto_lookup_rejects_dash (Some [scenario_A]) None "BTC-USD").
  reflexivity.
Defined.

(** X9.  The four lookup routes read the query up to case and surrounding
    blanks: a query and its upper-cased, stripped form get the same
    answer. *)
Theorem lookup_query_normalised (q : string)
  (indicators : option (list Series)) (signals : option (list SignalRow)) :
  AppLookup.get_indicators indicators (upper (strip q))
  = AppLookup.get_indicators indicators q
  /\ AppLookup.get_signal signals (upper (strip q))
     = AppLookup.get_signal signals q
  /\ CommoditiesLookup.get_commodity_indicators indicators (upper (strip q))
     = CommoditiesLookup.get_commodity_indicators indicators q
  /\ CommoditiesLookup.get_commodity_signal signals (upper (strip q))
     = CommoditiesLookup.get_commodity_signal signals q.
Proof.
  unfold AppLookup.get_indicators, AppLookup.get_signal,
    CommoditiesLookup.get_commodity_indicators,
    CommoditiesLookup.get_commodity_signal.
  rewrite query_normal. auto.
Qed.

Lemma round_half_even_IZR (n : Z) : round_half_even (IZR n) = n.
Proof. apply round_half_even_near. lra. Qed.

(** Rounding what is rounded changes nothing. *)
Lemma round2_idem (v : float) : round2 (round2 v) = round2 v.
Proof.
  destruct v as [| x]; [reflexivity |]. cbn [round2].
  replace (IZR (round_half_even (x * 100)) / 100 * 100)
    with (IZR (round_half_even (x * 100))) by (field; lra).
  now rewrite round_half_even_IZR.
Qed.

Lemma dict_get_find (d : list (string * string)) (k default : string) :
  dict_get d k default = match dict_find d k with
                         | Some v => v
                         | None => default
                         end.
Proof.
  induction d as [| [k' v] d IH]; cbn [dict_get dict_find]; [reflexivity |].
  now destruct (String.eqb k k').
Qed.

Lemma App_signal_row_fields (r : Series) (o : SignalRow) :
  App.signal_row r = Ok o ->
  exists t,
    Ticker r = Some t
    /\ out_Ticker o = strip t
    /\ out_Name o = dict_get App.TICKER_NAMES (upper (split_dash_head (strip t)))
                      (upper (split_dash_head (strip t)))
    /\ round2 (Live_Price o) = Live_Price o
    /\ round2 (Confidence o) = Confidence o
    /\ round2 (SL o) = SL o
    /\ round2 (TP o) = TP o.
Proof.
  unfold App.signal_row.
  destruct (Ticker r) as [t |]; cbn [bind]; [| discriminate].
  destruct (App.compute_confidence r) as [v |]; cbn [bind]; [| discriminate].
  destruct (App.risk_band _ _ _) as [sl tp]. intros [= <-].
  exists t. cbn. rewrite !round2_idem. auto 10.
Qed.

(** X10.  A row the crypto engine made for a ticker is found again by
    [get_signal] under the ticker's symbol (what precedes its first dash,
    upper-cased), provided the symbol has no blank at its ends: the record
    carries the same ticker, decision and numbers, rounding them again
    changing nothing, and the name the table of names gives the symbol; for
    a symbol the table does not know, the stored name, which is the symbol
    itself, is answered as an empty cell. *)
Theorem get_signal_finds_emitted (rows : list SignalRow) (r : Series)
  (o : SignalRow) (t : string) :
  App.signal_row r = Ok o ->
  Ticker r = Some t ->
  In o rows ->
  strip (upper (split_dash_head (strip t))) = upper (split_dash_head (strip t)) ->
  exists recs,
    AppLookup.get_signal (Some rows) (upper (split_dash_head (strip t))) = Ok recs
    /\ In {| rec_Ticker := strip t;
             rec_Coin_Name :=
               dict_find App.TICKER_NAMES (upper (split_dash_head (strip t)));
             rec_Live_Price := Live_Price o;
             rec_Confidence := Confidence o;
             rec_Signal := out_Signal o;
             rec_SL := SL o;
             rec_TP := TP o |} recs
    /\ out_Name o
       = match dict_find App.TICKER_NAMES (upper (split_dash_head (strip t))) with
         | Some name => name
         | None => upper (split_dash_head (strip t))
         end.
Proof.
  intros Hrow Ht Hin Hsym.
  destruct (App_signal_row_fields r o Hrow)
    as (t' & Ht' & Hticker & Hname & Hp & Hc & Hsl & Htp).
  rewrite Ht in Ht'. injection Ht' as <-.
  set (sym := upper (split_dash_head (strip t))) in *.
  assert (Hq : upper (strip sym) = sym).
  { rewrite Hsym. unfold sym. apply upper_idem. }
  unfold AppLookup.get_signal. rewrite Hq.
  assert (Hkeep : In o (filter (fun o0 => String.eqb (AppLookup.Symbol (Some (out_Ticker o0))) sym)
                          rows)).
  { apply filter_In. split; [exact Hin |].
    unfold AppLookup.Symbol, astype_str. rewrite Hticker. apply String.eqb_refl. }
  destruct (filter _ rows) as [| o1 kept] eqn:Hf; [destruct Hkeep |].
  eexists. split; [reflexivity |]. split.
  - apply in_map_iff. exists o. split; [| exact Hkeep].
    unfold AppLookup.Symbol, astype_str.
    rewrite Hticker, Hp, Hc, Hsl, Htp. reflexivity.
  - rewrite Hname. apply dict_get_find.
Qed.

Lemma get_signal_finds_emitted_witness :
  exists o recs,
    App.signal_row scenario_A = Ok o
    /\ AppLookup.get_signal (Some [o]) "BTC" = Ok recs
    /\ In {| rec_Ticker := "BTC-USD";
             rec_Coin_Name := Some "Bitcoin"%string;
             rec_Live_Price := Live_Price o;
             rec_Confidence := Confidence o;
             rec_Signal := out_Signal o;
             rec_SL := SL o;
             rec_TP := TP o |} recs.
Proof.
  destruct compute_confidence_scenario_A as (c & Hc).
  destruct (App_signal_row_Ok scenario_A "BTC-USD" eq_refl) as (o & Ho & _);
    [now exists (Fin c) |].
  destruct (get_signal_finds_emitted [o] scenario_A o "BTC-USD" Ho eq_refl)
    as (recs & Hrecs & Hin & _); [now left | reflexivity |].
  exists o, recs. auto.
Defined.

Lemma upper_length (s : string) : String.length (upper s) = String.length s.
Proof.
  induction s as [| c s IH]; cbn [upper String.length]; [reflexivity |].
  now rewrite IH.
Qed.

Lemma lstrip_length (s : string) :
  (String.length (lstrip s) <= String.length s)%nat
  /\ (String.length (lstrip s) = String.length s -> lstrip s = s).
Proof.
  induction s as [| c s [IH1 IH2]]; [split; auto |].
  cbn [lstrip]. destruct (isspace c); [| split; auto].
  cbn [String.length]. split; [lia | intros H; lia].
Qed.

Lemma rstrip_length (s : string) :
  (String.length (rstrip s) <= String.length s)%nat
  /\ (String.length (rstrip s) = String.length s -> rstrip s = s).
Proof.
  induction s as [| c s [IH1 IH2]]; [split; auto |].
  rewrite rstrip_cons. destruct (rstrip s) as [| d t] eqn:Hr.
  - destruct (isspace c); cbn [String.length] in *.
    + split; [lia | intros H; lia].
    + split; [lia |]. intros H.
      assert (Hs : String.length s = 0%nat) by lia.
      destruct s; [reflexivity | discriminate].
  - cbn [String.length] in *. split; [lia |].
    intros H. f_equal. apply IH2. lia.
Qed.

Lemma strip_length_fixed (s : string) :
  String.length (strip s) = String.length s -> strip s = s.
Proof.
  unfold strip. intros H.
  destruct (lstrip_length s) as [L1 L2].
  destruct (rstrip_length (lstrip s)) as [R1 R2].
  assert (Hl : lstrip s = s) by (apply L2; lia).
  rewrite Hl in *. apply R2. exact H.
Qed.

(** A ticker with a blank at an end matches no query. *)
Lemma padded_never_matches (t q : string) :
  strip t <> t -> String.eqb (upper t) (upper (strip q)) = false.
Proof.
  intros Hpad. apply String.eqb_neq. intros Heq. apply Hpad.
  apply strip_length_fixed.
  assert (H1 : strip (upper t) = upper t).
  { rewrite Heq, upper_strip. apply strip_idem. }
  rewrite <- (upper_length (strip t)), upper_strip, H1.
  apply upper_length.
Qed.

Lemma filter_map_invisible {A B : Type} (keep : A -> bool) (f : A -> B)
  (p : B -> bool) (l : list A) :
  (forall x, keep x = false -> p (f x) = false) ->
  filter p (map f (filter keep l)) = filter p (map f l).
Proof.
  intros H. induction l as [| x l IH]; [reflexivity |].
  cbn [filter map]. destruct (keep x) eqn:Hk.
  - cbn [map filter]. now rewrite IH.
  - rewrite (H x Hk). exact IH.
Qed.

(** X11.  [get_commodity_indicators] strips the query but not the tickers of
    the table, so the rows whose ticker has a blank at either end are
    invisible to it: whatever the query, the answer is the one it gives
    with those rows removed from the table.  ([generate_signals] strips the
    tickers, and so gives these rows a signal.) *)
Theorem get_commodity_indicators_skips_padded (df : list Series) (q : string) :
  CommoditiesLookup.get_commodity_indicators (Some (filter unpadded df)) q
  = CommoditiesLookup.get_commodity_indicators (Some df) q.
Proof.
  unfold CommoditiesLookup.get_commodity_indicators.
  rewrite (filter_map_invisible unpadded CommoditiesLookup.upper_ticker); [reflexivity |].
  intros r Hpad. unfold unpadded in Hpad. apply String.eqb_neq in Hpad.
  cbn [CommoditiesLookup.upper_ticker Ticker astype_str].
  now apply padded_never_matches.
Qed.

(** ** The news script: [clean_text] *)

Lemma News_space_is_space (c : ascii) :
  Ascii.eqb c " " = true -> News.py_isspace c = true.
Proof. intros H. apply Ascii.eqb_eq in H. now subst. Qed.

Lemma News_alnum_not_space (c : ascii) :
  News.is_alnum c = true -> News.py_isspace c = false /\ Ascii.eqb c " " = false.
Proof.
  destruct c as [[] [] [] [] [] [] [] []]; try discriminate; split; reflexivity.
Qed.

Lemma replace_special_plain (s : string) : News.plain (News.replace_special s) = true.
Proof.
  induction s as [| c s IH]; [reflexivity |].
  cbn [News.replace_special News.plain]. rewrite IH, andb_true_r.
  destruct (News.is_alnum c || News.py_isspace c) eqn:Hc; [exact Hc | reflexivity].
Qed.

Lemma collapse_spaces_spaced (s : string) :
  News.plain s = true ->
  forall in_run, News.spaced_from in_run (News.collapse_spaces in_run s) = true.
Proof.
  induction s as [| c s IH]; intros Hp in_run; [reflexivity |].
  cbn [News.plain] in Hp. apply andb_true_iff in Hp. destruct Hp as [Hc Hp].
  cbn [News.collapse_spaces]. destruct (News.py_isspace c) eqn:Hs.
  - destruct in_run; [now apply IH |].
    cbn [News.spaced_from]. cbn. now apply IH.
  - rewrite orb_false_r in Hc. destruct (News_alnum_not_space c Hc) as [_ He].
    cbn [News.spaced_from]. rewrite He, Hc. now apply IH.
Qed.

Lemma spaced_lstrip_fixed (s : string) :
  News.spaced_from true s = true -> News.py_lstrip s = s.
Proof.
  destruct s as [| c s]; [reflexivity |]. cbn [News.spaced_from News.py_lstrip].
  destruct (Ascii.eqb c " ") eqn:He; [discriminate |].
  intros H. apply andb_true_iff in H. destruct H as [Hc _].
  destruct (News_alnum_not_space c Hc) as [-> _]. reflexivity.
Qed.

Lemma spaced_lstrip (s : string) :
  News.spaced_from false s = true -> News.spaced_from true (News.py_lstrip s) = true.
Proof.
  destruct s as [| c s]; [reflexivity |]. cbn [News.spaced_from News.py_lstrip].
  destruct (Ascii.eqb c " ") eqn:He.
  - rewrite (News_space_is_space c He). cbn [negb andb]. intros H.
    now rewrite (spaced_lstrip_fixed s H).
  - intros H. pose proof H as H'. apply andb_true_iff in H'. destruct H' as [Hc _].
    destruct (News_alnum_not_space c Hc) as [-> _].
    cbn [News.spaced_from]. now rewrite He.
Qed.

Lemma py_rstrip_cons (c : ascii) (s : string) :
  News.py_rstrip (String c s)
  = match News.py_rstrip s with
    | EmptyString => if News.py_isspace c then EmptyString else String c EmptyString
    | t => String c t
    end.
Proof. reflexivity. Qed.

Lemma tidy_from_cons (a : bool) (c : ascii) (s : string) :
  News.tidy_from a (String c s)
  = if Ascii.eqb c " " then negb a && News.tidy_from true s
    else News.is_alnum c && News.tidy_from false s.
Proof. reflexivity. Qed.

Lemma spaced_rstrip (s : string) :
  forall a, News.spaced_from a s = true ->
            match News.py_rstrip s with
            | EmptyString => True
            | t => News.tidy_from a t = true
            end.
Proof.
  induction s as [| c s IH]; intros a H; [exact I |].
  rewrite py_rstrip_cons. cbn [News.spaced_from] in H.
  destruct (Ascii.eqb c " ") eqn:He.
  - apply andb_true_iff in H. destruct H as [Ha H].
    specialize (IH true H). rewrite (News_space_is_space c He).
    destruct (News.py_rstrip s) as [| d t]; [exact I |].
    now rewrite tidy_from_cons, He, Ha, IH.
  - apply andb_true_iff in H. destruct H as [Hc H].
    specialize (IH false H). destruct (News_alnum_not_space c Hc) as [-> _].
    destruct (News.py_rstrip s) as [| d t].
    + cbn [News.tidy_from]. now rewrite He, Hc.
    + now rewrite tidy_from_cons, He, Hc, IH.
Qed.

(** X12.  Whatever the text, [clean_text] returns words of ASCII letters and
    digits separated by single spaces: no other character, no space at
    either end, no two spaces in a row. *)
Theorem clean_text_tidy (text : option string) :
  News.tidy (News.clean_text text) = true.
Proof.
  destruct text as [text |]; [| reflexivity].
  unfold News.clean_text, News.py_strip.
  pose proof (collapse_spaces_spaced _ (replace_special_plain
                 (News.remove_links News.Scan text)) false) as H.
  apply spaced_lstrip in H. apply spaced_rstrip in H.
  unfold News.tidy. destruct (News.py_rstrip _); [reflexivity | exact H].
Qed.

Lemma remove_links_none (s : string) :
  News.has_link s = false -> News.remove_links News.Scan s = s.
Proof.
  induction s as [| c s IH]; [reflexivity |].
  intros H. change (News.has_link (String c s))
    with (News.starts_link (String c s) || News.has_link s) in H.
  apply orb_false_iff in H. destruct H as [H1 H2].
  change (News.remove_links News.Scan (String c s))
    with (if News.starts_link (String c s)
          then News.remove_links (News.Skip 2) s
          else String c (News.remove_links News.Scan s)).
  now rewrite H1, IH.
Qed.

Lemma tidy_from_unchanged (s : string) :
  forall a, News.tidy_from a s = true ->
            News.replace_special s = s
            /\ News.collapse_spaces a s = s
            /\ News.py_rstrip s = s.
Proof.
  induction s as [| c s IH]; intros a H; [auto |].
  cbn [News.tidy_from] in H. rewrite py_rstrip_cons.
  cbn [News.replace_special News.collapse_spaces].
  destruct (Ascii.eqb c " ") eqn:He.
  - apply andb_true_iff in H. destruct H as [Ha H].
    destruct (IH true H) as (R1 & R2 & R3).
    rewrite (News_space_is_space c He), orb_true_r, R1, R2, R3.
    destruct a; [discriminate |].
    apply Ascii.eqb_eq in He. subst c.
    destruct s; [discriminate | auto].
  - apply andb_true_iff in H. destruct H as [Hc H].
    destruct (IH false H) as (R1 & R2 & R3).
    destruct (News_alnum_not_space c Hc) as [Hs _].
    rewrite Hc, Hs, R1, R2, R3. cbn [orb].
    destruct s; auto.
Qed.

(** X13.  [clean_text] leaves a text unchanged when it is already made of
    words of ASCII letters and digits separated by single spaces and holds
    no link (no "http" followed by a character). *)
Theorem clean_text_fixed (s : string) :
  News.tidy s = true ->
  News.has_link s = false ->
  News.clean_text (Some s) = s.
Proof.
  intros Ht Hl. unfold News.clean_text, News.py_strip.
  rewrite (remove_links_none s Hl).
  destruct s as [| c s]; [reflexivity |].
  cbn [News.tidy] in Ht.
  destruct (tidy_from_unchanged _ true Ht) as (R1 & _ & R3).
  rewrite R1.
  pose proof Ht as Ht'. cbn [News.tidy_from] in Ht'.
  destruct (Ascii.eqb c " ") eqn:He; [discriminate |].
  apply andb_true_iff in Ht'. destruct Ht' as [Hc Ht'].
  destruct (News_alnum_not_space c Hc) as [Hs _].
  destruct (tidy_from_unchanged _ false Ht') as (_ & R2 & _).
  cbn [News.collapse_spaces]. rewrite Hs, R2.
  cbn [News.py_lstrip]. rewrite Hs. exact R3.
Qed.

Lemma clean_text_fixed_witness :
  News.clean_text (Some "Bitcoin hits 100k"%string) = "Bitcoin hits 100k"%string.
Proof.
  apply (clean_text_fixed "Bitcoin hits 100k"%string); reflexivity.
Defined.

(** In the script a missing title or description is cleaned to the
    text "nan": [astype(str)] turns the empty cell into "nan" before
    [clean_text] sees it, and the branch of [clean_text] that answers the
    empty string for a missing value is not taken. *)
Lemma clean_column_missing :
  News.clean_column None = "nan"%string
  /\ News.clean_text None = EmptyString
  /\ forall cell, News.clean_column cell = News.clean_text (Some (astype_str cell)).
Proof. repeat split. Qed.

(** ** The news script: the daily summary *)

Lemma Zleb_total (a b : Z) : Z.leb a b = true \/ Z.leb b a = true.
Proof. rewrite !Z.leb_le. lia. Qed.

Lemma Zleb_trans (a b c : Z) :
  Z.leb a b = true -> Z.leb b c = true -> Z.leb a c = true.
Proof. rewrite !Z.leb_le. lia. Qed.

Lemma count_split {A : Type} (p q : A -> bool) (l : list A) :
  (forall x, p x = true -> q x = true -> False) ->
  (List.length (filter p l) + List.length (filter q l))%nat
  = List.length (filter (fun x => p x || q x) l).
Proof.
  intros Hdis. induction l as [| x l IH]; [reflexivity |].
  cbn [filter]. destruct (p x) eqn:Hp, (q x) eqn:Hq; cbn [orb List.length].
  - destruct (Hdis x Hp Hq).
  - lia.
  - lia.
  - exact IH.
Qed.

Lemma count_one_more {A : Type} (key : A -> Z) (q : A -> bool) (l : list A)
  (k : Z) (ks : list Z) :
  ~ In k ks ->
  (List.length (filter q (filter (fun r => Z.eqb (key r) k) l))
   + List.length (filter (fun r => q r && existsb (Z.eqb (key r)) ks) l))%nat
  = List.length (filter (fun r => q r && existsb (Z.eqb (key r)) (k :: ks)) l).
Proof.
  intros Hk. induction l as [| x l IH]; [reflexivity |].
  cbn [filter existsb] in *.
  destruct (Z.eqb (key x) k) eqn:Hx.
  - assert (Hm : existsb (Z.eqb (key x)) ks = false).
    { destruct (existsb (Z.eqb (key x)) ks) eqn:Hm; [| reflexivity].
      apply existsb_exists in Hm. destruct Hm as (k' & Hin & Heq).
      apply Z.eqb_eq in Hx, Heq. exfalso. apply Hk. congruence. }
    rewrite Hm. cbn [filter orb]. rewrite andb_false_r, andb_true_r.
    destruct (q x); cbn [List.length]; lia.
  - cbn [orb].
    destruct (q x && existsb (Z.eqb (key x)) ks); cbn [List.length]; lia.
Qed.

(** Counting group by group is counting once, the groups being disjoint. *)
Lemma count_by_key {A : Type} (key : A -> Z) (q : A -> bool) (l : list A) (ks : list Z) :
  NoDup ks ->
  list_sum (map (fun k => List.length (filter q (filter (fun r => Z.eqb (key r) k) l))) ks)
  = List.length (filter (fun r => q r && existsb (Z.eqb (key r)) ks) l).
Proof.
  induction 1 as [| k ks Hk Hnd IH]; cbn [map].
  - cbn [list_sum fold_right].
    induction l as [| x l IHl]; [reflexivity |].
    cbn [filter existsb]. now rewrite andb_false_r.
  - match goal with
    | |- list_sum (?x :: ?r) = _ => change (list_sum (x :: r)) with (x + list_sum r)%nat
    end.
    rewrite IH. now apply count_one_more.
Qed.

(** X14.  The daily counts add up to the number of rows that have a date
    and a title: no such row is lost and none is counted twice. *)
Theorem daily_news_counts (polarity_compound : string -> R)
  (news_df : list DailyNews.NewsRow) :
  list_sum (map DailyNews.news_count (DailyNews.daily_news polarity_compound news_df))
  = List.length (filter (fun r => DailyNews.has_date r && DailyNews.has_title r) news_df).
Proof.
  unfold DailyNews.daily_news. rewrite map_map. cbn [DailyNews.agg DailyNews.news_count].
  set (dated := filter DailyNews.has_date news_df).
  set (ks := stable_sort Z.leb (nodup Z.eq_dec (map DailyNews.day_of dated))).
  assert (Hnd : NoDup ks).
  { apply Permutation_NoDup with (nodup Z.eq_dec (map DailyNews.day_of dated)).
    - symmetry. apply stable_sort_perm.
    - apply NoDup_nodup. }
  rewrite (count_by_key DailyNews.day_of DailyNews.has_title dated ks Hnd).
  rewrite (filter_ext_in _ DailyNews.has_title).
  - unfold dated. clear. induction news_df as [| x l IH]; [reflexivity |].
    cbn [filter]. destruct (DailyNews.has_date x); cbn [filter andb].
    + destruct (DailyNews.has_title x); cbn [List.length]; now rewrite IH.
    + exact IH.
  - intros r Hr.
    assert (Hmem : existsb (Z.eqb (DailyNews.day_of r)) ks = true).
    { apply existsb_exists. exists (DailyNews.day_of r). split; [| apply Z.eqb_refl].
      apply (Permutation_in _ (Permutation_sym (stable_sort_perm Z.leb _))).
      apply nodup_In. now apply in_map. }
    now rewrite Hmem, andb_true_r.
Qed.

(** X15.  The daily table has one row for each day on which a row is
    dated, and the days come in strictly ascending order. *)
Theorem daily_news_days (polarity_compound : string -> R)
  (news_df : list DailyNews.NewsRow) :
  let days := map DailyNews.day (DailyNews.daily_news polarity_compound news_df) in
  NoDup days
  /\ sorted_by Z.leb days
  /\ forall d, In d days
               <-> exists r ts, In r news_df /\ DailyNews.date r = Some ts
                                /\ DailyNews.ts_date ts = d.
Proof.
  cbv zeta. unfold DailyNews.daily_news. rewrite map_map.
  cbn [DailyNews.agg DailyNews.day]. rewrite map_id.
  set (dated := filter DailyNews.has_date news_df).
  split; [| split].
  - apply Permutation_NoDup with (nodup Z.eq_dec (map DailyNews.day_of dated)).
    + symmetry. apply stable_sort_perm.
    + apply NoDup_nodup.
  - apply stable_sort_sorted; [apply Zleb_total | apply Zleb_trans].
  - intros d. split.
    + intros Hd.
      apply (Permutation_in _ (stable_sort_perm Z.leb _)) in Hd.
      apply nodup_In, in_map_iff in Hd. destruct Hd as (r & <- & Hr).
      unfold dated in Hr. apply filter_In in Hr. destruct Hr as [Hin Hdate].
      unfold DailyNews.has_date, DailyNews.day_of in *.
      destruct (DailyNews.date r) as [ts |] eqn:Hts; [| discriminate].
      now exists r, ts.
    + intros (r & ts & Hin & Hts & <-).
      apply (Permutation_in _ (Permutation_sym (stable_sort_perm Z.leb _))).
      apply nodup_In, in_map_iff. exists r. split.
      * unfold DailyNews.day_of. now rewrite Hts.
      * unfold dated. apply filter_In. split; [assumption |].
        unfold DailyNews.has_date. now rewrite Hts.
Qed.

Lemma Rsum_bounds (lo hi : R) (l : list R) :
  (forall x, In x l -> lo <= x <= hi) ->
  INR (List.length l) * lo <= DailyNews.Rsum l <= INR (List.length l) * hi.
Proof.
  induction l as [| x l IH]; intros H.
  - cbn. lra.
  - cbn [DailyNews.Rsum fold_right List.length]. rewrite S_INR.
    fold (DailyNews.Rsum l).
    assert (Hx : lo <= x <= hi) by (apply H; now left).
    assert (Hl : INR (List.length l) * lo <= DailyNews.Rsum l <= INR (List.length l) * hi)
      by (apply IH; intros y Hy; apply H; now right).
    lra.
Qed.

(** X16.  Each daily mean lies between any two bounds that hold for every
    score: with VADER's compound score, which lies in [-1, 1], every
    [mean_sentiment] is a number in [-1, 1]. *)
Theorem daily_news_mean_bounds (polarity_compound : string -> R) (lo hi : R)
  (news_df : list DailyNews.NewsRow) :
  (forall text, lo <= polarity_compound text <= hi) ->
  forall row, In row (DailyNews.daily_news polarity_compound news_df) ->
    exists m, DailyNews.mean_sentiment row = Fin m /\ lo <= m <= hi.
Proof.
  intros Hb row Hin. unfold DailyNews.daily_news in Hin.
  apply in_map_iff in Hin. destruct Hin as (d & <- & Hd).
  set (dated := filter DailyNews.has_date news_df) in *.
  set (group := filter (fun r => Z.eqb (DailyNews.day_of r) d) dated).
  cbn [DailyNews.agg DailyNews.mean_sentiment].
  eexists. split; [reflexivity |].
  assert (Hne : (0 < List.length group)%nat).
  { apply (Permutation_in _ (stable_sort_perm Z.leb _)) in Hd.
    apply nodup_In, in_map_iff in Hd. destruct Hd as (r & Hr & Hin).
    assert (Hg : In r group).
    { apply filter_In. split; [assumption |]. now apply Z.eqb_eq. }
    destruct group; [destruct Hg | cbn; lia]. }
  assert (Hn : 0 < INR (List.length group)) by now apply lt_0_INR.
  pose proof (Rsum_bounds lo hi (map (DailyNews.sentiment polarity_compound) group)) as Hs.
  rewrite length_map in Hs.
  destruct Hs as [Hs1 Hs2].
  { intros x Hx. apply in_map_iff in Hx. destruct Hx as (r & <- & _). apply Hb. }
  split.
  - apply Rmult_le_reg_r with (INR (List.length group)); [assumption |].
    unfold Rdiv. rewrite Rmult_assoc, Rinv_l by lra. lra.
  - apply Rmult_le_reg_r with (INR (List.length group)); [assumption |].
    unfold Rdiv. rewrite Rmult_assoc, Rinv_l by lra. lra.
Qed.

Lemma daily_news_mean_bounds_witness :
  exists row m,
    In row (DailyNews.daily_news neutral [sample_news])
    /\ DailyNews.mean_sentiment row = Fin m /\ -1 <= m <= 1.
Proof.
  assert (Hin : In (DailyNews.agg neutral 20000 [sample_news])
                   (DailyNews.daily_news neutral [sample_news]))
    by (left; reflexivity).
  destruct (daily_news_mean_bounds neutral (-1) 1 [sample_news]
              ltac:(intros text; unfold neutral; lra) _ Hin) as (m & Hm & Hb).
  eexists. exists m. split; [exact Hin | split; [exact Hm | exact Hb]].
Defined.

(** ** The selector on a table without empty cells *)

Lemma last_In_nonempty {A : Type} (l : list A) (b d : A) :
  In (last (b :: l) d) (b :: l).
Proof.
  destruct (exists_last (l := b :: l)) as (l' & a & Heq); [discriminate |].
  rewrite Heq, last_last. apply in_or_app. right. now left.
Qed.

Lemma sorted_last {A : Type} (leb : A -> A -> bool) (l : list A) :
  (forall x, leb x x = true) ->
  sorted_by leb l ->
  forall d x, In x l -> leb x (last l d) = true.
Proof.
  intros Hrefl. unfold sorted_by.
  induction 1 as [| a l Hs IH Hall]; intros d x Hin; [destruct Hin |].
  destruct l as [| b l].
  - destruct Hin as [<- | []]. apply Hrefl.
  - change (last (a :: b :: l) d) with (last (b :: l) d).
    destruct Hin as [<- | Hin].
    + rewrite Forall_forall in Hall. apply Hall. apply last_In_nonempty.
    + now apply IH.
Qed.

Lemma date_leb_refl (r : Series) : date_leb r r = true.
Proof. unfold date_leb. now rewrite key_compare_refl. Qed.

(** X17.  On a table in which no row has an empty date or numeric cell,
    each selected row is a row of the table, and no row of the table with
    the same ticker has a later date. *)
Theorem latest_snapshot_is_latest (df : list Series) :
  (forall r, In r df -> complete r = true) ->
  forall o, In o (latest_snapshot df) ->
    In o df
    /\ forall r, In r df -> Ticker r = Ticker o -> date_leb r o = true.
Proof.
  intros Hall o Ho.
  destruct (latest_snapshot_Ticker df o Ho) as (t & Ht).
  assert (Hin : In (Some t) (map Ticker df)).
  { apply sort_values_tickers, group_keys_In.
    apply (in_map Ticker) in Ho. unfold latest_snapshot in Ho.
    rewrite groupby_last_tickers, Ht in Ho.
    apply in_map_iff in Ho. destruct Ho as (t' & [= <-] & Hk). exact Hk. }
  assert (Hf : In o (filter (has_ticker t) (latest_snapshot df))).
  { apply filter_In. split; [exact Ho | now apply has_ticker_iff]. }
  unfold latest_snapshot in Hf.
  rewrite groupby_last_group in Hf by now apply sort_values_tickers.
  rewrite sort_values_group in Hf.
  pose proof (stable_sort_perm date_leb (filter (has_ticker t) df)) as Hperm.
  pose proof (date_sort_sorted (filter (has_ticker t) df)) as Hsorted.
  destruct (stable_sort date_leb (filter (has_ticker t) df)) as [| r0 g] eqn:Hs;
    [destruct Hf |].
  destruct Hf as [<- | []].
  assert (Hgroup : forall r, In r (r0 :: g) -> In r df /\ Ticker r = Some t).
  { intros r Hr. apply (Permutation_in _ Hperm), filter_In in Hr.
    destruct Hr as [Hr1 Hr2]. split; [assumption | now apply has_ticker_iff]. }
  assert (Hlast : In (last g r0) (r0 :: g)) by apply last_In.
  rewrite group_last_complete.
  - split; [apply Hgroup, Hlast |].
    intros r Hr Hrt.
    assert (Hrg : In r (r0 :: g)).
    { apply (Permutation_in _ (Permutation_sym Hperm)), filter_In.
      split; [assumption |]. apply has_ticker_iff.
      rewrite Hrt. apply Hgroup, Hlast. }
    pose proof (sorted_last date_leb (r0 :: g) date_leb_refl Hsorted r0 r Hrg) as H.
    replace (last (r0 :: g) r0) with (last g r0) in H; [exact H |].
    destruct g; reflexivity.
  - rewrite (proj2 (Hgroup _ Hlast)). symmetry. apply Hgroup. now left.
  - apply Hall, Hgroup, Hlast.
Qed.

Lemma latest_snapshot_is_latest_witness :
  In scenario_A (latest_snapshot [snapshot_day1; scenario_A])
  /\ In scenario_A [snapshot_day1; scenario_A]
  /\ date_leb snapshot_day1 scenario_A = true.
Proof.
  assert (Hin : In scenario_A (latest_snapshot [snapshot_day1; scenario_A]))
    by (left; reflexivity).
  destruct (latest_snapshot_is_latest [snapshot_day1; scenario_A]) with (o := scenario_A)
    as [H1 H2].
  - intros r [<- | [<- | []]]; reflexivity.
  - exact Hin.
  - split; [exact Hin | split; [exact H1 |]].
    apply H2; [now left | reflexivity].
Defined.

(** ** Looking up what the commodities engine made *)

Lemma filter_unique {A : Type} (f : A -> string) (l : list A) (o : A) :
  NoDup (map f l) -> In o l ->
  filter (fun x => String.eqb (f x) (f o)) l = [o].
Proof.
  induction l as [| x l IH]; intros Hnd Hin; [destruct Hin |].
  cbn [map] in Hnd. apply NoDup_cons_iff in Hnd. destruct Hnd as [Hx Hnd].
  cbn [filter]. destruct Hin as [-> | Hin].
  - rewrite String.eqb_refl. f_equal.
    apply filter_none. intros y Hy. apply String.eqb_neq. intros Heq.
    apply Hx. rewrite <- Heq. now apply in_map.
  - destruct (String.eqb_spec (f x) (f o)) as [Heq | Hne].
    + exfalso. apply Hx. rewrite Heq. now apply in_map.
    + now apply IH.
Qed.

(** X18.  Every row of a table the commodities engine made is found again
    by [get_commodity_signal] under its own ticker, and under any query that
    is its ticker up to case and surrounding blanks: the answer is that row
    alone, unchanged. *)
Theorem get_commodity_signal_finds_emitted (df : list Series)
  (name_map : list (string * string)) (rows : list SignalRow) (o : SignalRow)
  (q : string) :
  Commodities.generate_signals df name_map = Ok rows ->
  In o rows ->
  upper (strip q) = out_Ticker o ->
  CommoditiesLookup.get_commodity_signal (Some rows) q = Ok [o]
  /\ CommoditiesLookup.get_commodity_signal (Some rows) (out_Ticker o) = Ok [o].
Proof.
  intros Hgen Hin Hq.
  destruct (generate_signals_tickers df name_map rows Hgen) as (Hnd & _ & Hiff).
  assert (Hnorm : forall o', In o' rows ->
                    upper (out_Ticker o') = out_Ticker o'
                    /\ upper (strip (out_Ticker o')) = out_Ticker o').
  { intros o' Ho'.
    destruct (proj1 (Hiff (out_Ticker o')) (in_map out_Ticker _ _ Ho'))
      as (r & t0 & _ & _ & _ & ->).
    split; [apply upper_idem | apply query_normal]. }
  assert (Hid : map CommoditiesLookup.upper_out_ticker rows = rows).
  { clear Hnd Hiff Hin Hgen. induction rows as [| x rows IH]; [reflexivity |].
    cbn [map]. rewrite IH by (intros o' Ho'; apply Hnorm; now right).
    f_equal. unfold CommoditiesLookup.upper_out_ticker.
    rewrite (proj1 (Hnorm x (or_introl eq_refl))). now destruct x. }
  unfold CommoditiesLookup.get_commodity_signal.
  rewrite Hid, Hq, (proj2 (Hnorm o Hin)).
  now rewrite (filter_unique out_Ticker rows o Hnd Hin).
Qed.

Lemma get_commodity_signal_finds_emitted_witness :
  exists o,
    Commodities.generate_signals [scenario_A] Commodities.COMMODITY_NAMES = Ok [o]
    /\ CommoditiesLookup.get_commodity_signal (Some [o]) " btc-usd " = Ok [o].
Proof.
  destruct compute_confidence_scenario_A as (c & Hc).
  destruct (Commodities_signal_row_Ok Commodities.COMMODITY_NAMES scenario_A
              "BTC-USD" eq_refl) as (o & Ho); [now exists (Fin c) |].
  assert (H : Commodities.generate_signals [scenario_A] Commodities.COMMODITY_NAMES
              = Ok [o]).
  { unfold Commodities.generate_signals.
    change (Commodities.dropna [scenario_A]) with (Ok [scenario_A]).
    cbn [bind].
    change (groupby_last (sort_values (map Commodities.normalise_ticker [scenario_A])))
      with [scenario_A].
    cbn [for_each]. rewrite Ho. reflexivity. }
  exists o. split; [exact H |].
  apply (get_commodity_signal_finds_emitted [scenario_A] Commodities.COMMODITY_NAMES
           [o] o " btc-usd " H); [now left |].
  destruct (Commodities_signal_row_inv _ _ _ Ho) as (t & Ht & Hot & _).
  rewrite Hot. injection Ht as <-. reflexivity.
Defined.
